(** * Ralph: a shallow embedding of the iteration loop, the daemon's run queue,
      the automation scheduler, the worktree manager and the feedback rerun.

    JavaScript strings are sequences of UTF-16 code units; they are modelled
    as [list N], one [N] per code unit.  JavaScript numbers that the program
    only ever uses as integers (counts, exit codes, epoch milliseconds) are
    modelled as [Z]. *)

From Stdlib Require Import ZArith NArith List Ascii String Lia Decimal.
From stdpp Require Import base numbers option list gmap.

Local Open Scope Z_scope.

(* ===================================================================== *)
(** ** JavaScript strings *)
(* ===================================================================== *)

Module Js.

Abbreviation jsstring := (list N).

(** A literal whose characters are all ASCII. *)
Definition js (s : string) : jsstring :=
  List.map N_of_ascii (list_ascii_of_string s).

Definition nl : jsstring := [10%N].

(** [WhiteSpace] and [LineTerminator] of ECMAScript: what [trim] strips and
    what the regular expression class [\s] matches. *)
Definition is_space (c : N) : bool :=
  ((c =? 9) || (c =? 10) || (c =? 11) || (c =? 12) || (c =? 13) || (c =? 32)
   || (c =? 160) || (c =? 5760) || ((8192 <=? c) && (c <=? 8202))
   || (c =? 8232) || (c =? 8233) || (c =? 8239) || (c =? 8287)
   || (c =? 12288) || (c =? 65279))%N.

Fixpoint trimStart (s : jsstring) : jsstring :=
  match s with
  | c :: s' => if is_space c then trimStart s' else s
  | [] => []
  end.

Definition trimEnd (s : jsstring) : jsstring := rev (trimStart (rev s)).

Definition trim (s : jsstring) : jsstring := trimEnd (trimStart s).

(** Truthiness of a string: non-empty. *)
Definition truthy (s : jsstring) : bool :=
  match s with [] => false | _ => true end.

(** [a || b] on strings. *)
Definition or_else (a b : jsstring) : jsstring := if truthy a then a else b.

(** [parts.join(sep)]. *)
Fixpoint join (sep : jsstring) (parts : list jsstring) : jsstring :=
  match parts with
  | [] => []
  | [p] => p
  | p :: rest => p ++ sep ++ join sep rest
  end.

(** [s.slice(start)]: a negative [start] counts from the end. *)
Definition slice_from (s : jsstring) (start : Z) : jsstring :=
  let len := Z.of_nat (length s) in
  let from := if start <? 0 then Z.max (len + start) 0 else Z.min start len in
  drop (Z.to_nat from) s.

(** [s.slice(0, n)] for a non-negative literal [n]. *)
Definition slice_to (s : jsstring) (n : nat) : jsstring := take n s.

(** Decimal digits of an unsigned decimal number. *)
Fixpoint digits (u : Decimal.uint) : jsstring :=
  match u with
  | Decimal.Nil => []
  | Decimal.D0 u => 48%N :: digits u
  | Decimal.D1 u => 49%N :: digits u
  | Decimal.D2 u => 50%N :: digits u
  | Decimal.D3 u => 51%N :: digits u
  | Decimal.D4 u => 52%N :: digits u
  | Decimal.D5 u => 53%N :: digits u
  | Decimal.D6 u => 54%N :: digits u
  | Decimal.D7 u => 55%N :: digits u
  | Decimal.D8 u => 56%N :: digits u
  | Decimal.D9 u => 57%N :: digits u
  end.

(** [String(n)], the text a template literal inserts for an integer [n]. *)
Definition of_number (n : Z) : jsstring :=
  match Z.to_int n with
  | Decimal.Pos u => digits u
  | Decimal.Neg u => 45%N :: digits u
  end.

(** [s.startsWith(p)], returning what follows the prefix. *)
Fixpoint strip_prefix (p s : jsstring) : option jsstring :=
  match p, s with
  | [], _ => Some s
  | a :: p', b :: s' => if (a =? b)%N then strip_prefix p' s' else None
  | _ :: _, [] => None
  end.

(** The text after the first occurrence of [p] in [s]. *)
Fixpoint find_after (p s : jsstring) : option jsstring :=
  match strip_prefix p s with
  | Some r => Some r
  | None => match s with
            | [] => None
            | _ :: s' => find_after p s'
            end
  end.

(** [s.includes(p)]. *)
Definition includes (s p : jsstring) : bool :=
  match find_after p s with Some _ => true | None => false end.

(** A JavaScript number as the comparisons of the program see it: NaN, an
    infinity, or a finite double, which is [mantissa * 2 ^ exponent]. *)
Inductive jsnumber :=
| NaN
| Infinity
| NegInfinity
| Finite (mantissa exponent : Z).

(** The number an integer denotes. *)
Definition of_int (n : Z) : jsnumber := Finite n 0.

(** [n < x] for an integer [n]; every comparison with NaN is false. *)
Definition int_lt (n : Z) (x : jsnumber) : bool :=
  match x with
  | NaN | NegInfinity => false
  | Infinity => true
  | Finite m e => if 0 <=? e then n <? m * 2 ^ e else n * 2 ^ (- e) <? m
  end.

(** [n <= x] for an integer [n]. *)
Definition int_le (n : Z) (x : jsnumber) : bool :=
  match x with
  | NaN | NegInfinity => false
  | Infinity => true
  | Finite m e => if 0 <=? e then n <=? m * 2 ^ e else n * 2 ^ (- e) <=? m
  end.

End Js.

Import Js.

(* ===================================================================== *)
(** ** Process results (utils/process.ts) *)
(* ===================================================================== *)

Record SpawnResult := mkSpawnResult {
  stdout : jsstring;
  stderr : jsstring;
  exitCode : Z;
  duration : Z
}.

(* ===================================================================== *)
(** ** The validator (loop/validator.ts) *)
(* ===================================================================== *)

Module Validator.

Record ValidationResult := mkValidationResult {
  command : jsstring;
  passed : bool;
  v_stdout : jsstring;
  v_stderr : jsstring;
  v_exitCode : Z;
  v_duration : Z
}.

Record ValidationReport := mkValidationReport {
  allPassed : bool;
  results : list ValidationResult;
  passCount : Z;
  totalCount : Z
}.

(** [runValidations]: the shell is an oracle from a command to the result
    of running it. *)
Definition runValidations (commands : list jsstring)
    (runShellCommand : jsstring -> SpawnResult) : ValidationReport :=
  let results :=
    List.map (fun cmd =>
      let result := runShellCommand cmd in
      {| command := cmd;
         passed := exitCode result =? 0;
         v_stdout := stdout result;
         v_stderr := stderr result;
         v_exitCode := exitCode result;
         v_duration := duration result |}) commands in
  let passCount := Z.of_nat (length (List.filter passed results)) in
  {| allPassed := passCount =? Z.of_nat (length results);
     results := results;
     passCount := passCount;
     totalCount := Z.of_nat (length results) |}.

Definition scoreValidation (report : ValidationReport) : Z :=
  passCount report.

(** One section of the failure context, the body of the [for] loop. *)
Definition failureSection (r : ValidationResult) : jsstring :=
  let status :=
    if passed r then js "PASSED"
    else js "FAILED (exit code " ++ of_number (v_exitCode r) ++ js ")" in
  let section := js "### " ++ command r ++ js " (" ++ status ++ js ")" ++ nl in
  if negb (passed r) then
    let output := or_else (trim (v_stderr r)) (trim (v_stdout r)) in
    if truthy output
    then section ++ (js "```" ++ nl ++ output ++ nl ++ js "```" ++ nl)
    else section
  else section.

(** The text before truncation: [sections.join("\n")]. *)
Definition failureText (report : ValidationReport) : jsstring :=
  join nl (List.map failureSection (results report)).

Definition truncatedMarker : jsstring := js "...(truncated)" ++ nl.

Definition formatFailureContext (report : ValidationReport) (maxChars : Z)
    : jsstring :=
  if allPassed report then []
  else
    let full := failureText report in
    if Z.of_nat (length full) >? maxChars
    then truncatedMarker
           ++ slice_from full (Z.of_nat (length full) - maxChars + 20)
    else full.

End Validator.

(* ===================================================================== *)
(** ** The completion promise (loop/promise.ts) *)
(* ===================================================================== *)

Module Promise.

Definition detectPromise (output promise : jsstring) : bool :=
  includes output promise.

(** One hexadecimal digit, in lower case, as [Buffer.toString("hex")]
    writes it. *)
Definition hexDigit (n : N) : N :=
  if (n <? 10)%N then (48 + n)%N else (87 + n)%N.

(** [bytes.toString("hex")]: two digits per byte. *)
Definition toHex (bytes : list N) : jsstring :=
  flat_map (fun b => [hexDigit (b / 16); hexDigit (b mod 16)]) bytes.

(** [generatePromise]: [randomBytes n] is what [crypto.randomBytes(n)]
    returns, [n] bytes. *)
Definition generatePromise (randomBytes : nat -> list N) : jsstring :=
  js "RALPH_COMPLETE_" ++ toHex (randomBytes 4%nat).

End Promise.

(* ===================================================================== *)
(** ** The prompt builder (prompt/builder.ts) *)
(* ===================================================================== *)

Module Prompt.

Record ProgressData := mkProgressData {
  content : jsstring;
  exists_ : bool
}.

(** The fields of [ResolvedTask] (prd/schema.ts) that the prompt and the
    loop read. *)
Record ResolvedTask := mkResolvedTask {
  t_id : jsstring;
  t_name : jsstring;
  acceptanceCriteria : list jsstring;
  t_index : Z;
  t_total : Z
}.

Record CompletedTask := mkCompletedTask {
  c_id : jsstring;
  c_name : jsstring
}.

Record PromptContext := mkPromptContext {
  task : jsstring;
  iteration : Z;
  maxIterations : Z;
  progress : ProgressData;
  validationCommands : list jsstring;
  completionPromise : jsstring;
  progressFile : jsstring;
  lastFailureOutput : option jsstring;
  wasReverted : bool;
  prdTask : option ResolvedTask;
  prdName : option jsstring;
  prdDescription : option jsstring;
  completedTasks : option (list CompletedTask)
}.

Definition dquote : jsstring := [34%N].
Definition emdash : jsstring := [8212%N].

(** [`${i + 1}. ${c}`] *)
Definition numbered (i : nat) (c : jsstring) : jsstring :=
  of_number (Z.of_nat i + 1) ++ js ". " ++ c.

(** [`  ${i + 1}. \`${cmd}\``] *)
Definition numberedCommand (i : nat) (cmd : jsstring) : jsstring :=
  js "  " ++ of_number (Z.of_nat i + 1) ++ js ". `" ++ cmd ++ js "`".

Definition projectLine (ctx : PromptContext) : jsstring :=
  js "## Project: " ++ default (js "Unnamed PRD") (prdName ctx).

Definition positionLine (t : ResolvedTask) : jsstring :=
  js "**You are working on task " ++ of_number (t_index t) ++ js " of "
    ++ of_number (t_total t) ++ js ": " ++ dquote ++ t_name t ++ dquote
    ++ js "** (id: `" ++ t_id t ++ js "`)".

Definition completedLine (t : CompletedTask) : jsstring :=
  js "- [x] `" ++ c_id t ++ js "`: " ++ c_name t.

Definition remainingLine (t : ResolvedTask) : jsstring :=
  js "*" ++ of_number (t_total t - t_index t)
    ++ js " task(s) remaining after this one. Focus only on the current task.*".

Definition buildPrdHeader (ctx : PromptContext) (t : ResolvedTask) : jsstring :=
  let lines := [projectLine ctx] in
  let lines :=
    match prdDescription ctx with
    | Some d => if truthy d then lines ++ [d] else lines
    | None => lines
    end in
  let lines := lines ++ [ [] ] in
  let lines := lines ++ [positionLine t] in
  let lines :=
    match completedTasks ctx with
    | Some (c :: cs) =>
        lines ++ [ [] ] ++ [js "### Previously Completed Tasks"]
              ++ List.map completedLine (c :: cs)
    | _ => lines
    end in
  let lines :=
    if t_index t <? t_total t
    then lines ++ [ [] ] ++ [remainingLine t]
    else lines in
  join nl lines.

Definition taskSection (ctx : PromptContext) : jsstring :=
  js "## Your Task" ++ nl ++ task ctx.

Definition criteriaSection (t : ResolvedTask) : jsstring :=
  js "## Acceptance Criteria" ++ nl
    ++ join nl (imap numbered (acceptanceCriteria t)).

Definition iterationLine (ctx : PromptContext) : jsstring :=
  js "- You are iteration **" ++ of_number (iteration ctx) ++ js "** of **"
    ++ of_number (maxIterations ctx) ++ js "** in an automated Ralph Loop.".

Definition commandList (ctx : PromptContext) : jsstring :=
  join nl (imap numberedCommand (validationCommands ctx)).

Definition rulesSection (ctx : PromptContext) : jsstring :=
  js "## Rules" ++ nl
  ++ iterationLine ctx ++ nl
  ++ js "- Previous iterations may have made partial progress on the codebase." ++ nl
  ++ js "- Read `" ++ progressFile ctx
       ++ js "` FIRST to understand what has been done so far." ++ nl
  ++ js "- Before you finish, UPDATE `" ++ progressFile ctx ++ js "` with:" ++ nl
  ++ js "  - What you accomplished this iteration" ++ nl
  ++ js "  - What still remains to be done" ++ nl
  ++ js "  - Any blockers or issues encountered" ++ nl
  ++ js "- You MUST make ALL of the following validation commands pass:" ++ nl
  ++ commandList ctx ++ nl
  ++ js "- Run validation commands yourself to verify your work before declaring completion." ++ nl
  ++ js "- Do NOT modify test files to make tests pass " ++ emdash
       ++ js " fix the actual source code." ++ nl
  ++ js "- Make small, incremental changes. Do not rewrite large sections of code unnecessarily.".

Definition firstIterationNotice : jsstring :=
  js "This is the first iteration. No previous progress exists. Start from scratch.".

Definition progressSection (ctx : PromptContext) : jsstring :=
  if exists_ (progress ctx) && truthy (trim (content (progress ctx)))
  then js "## Current Progress (from " ++ progressFile ctx ++ js ")" ++ nl
         ++ content (progress ctx)
  else js "## Current Progress" ++ nl ++ firstIterationNotice.

Definition revertWarning : jsstring :=
  js "## WARNING: Previous Iteration Was Reverted" ++ nl
  ++ js "Your previous iteration's changes were reverted because they caused a **regression** "
  ++ emdash
  ++ js " more tests/validations failed than before. The codebase has been reset to the state before that iteration. Take a different approach this time.".

Definition failureSectionOf (out : jsstring) : jsstring :=
  js "## Previous Iteration Validation Results" ++ nl ++ out.

Definition completionSection (ctx : PromptContext) : jsstring :=
  js "## Completion" ++ nl
  ++ js "When ALL validation commands pass and the task is **fully complete**, output this EXACT string as the **last line** of your response:" ++ nl
  ++ nl
  ++ js "    " ++ completionPromise ctx ++ nl
  ++ nl
  ++ js "**Do NOT output this string unless you are 100% certain all validations pass.**" ++ nl
  ++ js "**Do NOT output a similar string or a partial match.**" ++ nl
  ++ js "If you cannot complete the task in this iteration, describe what's blocking you in `"
  ++ progressFile ctx ++ js "` and exit normally.".

(** The [sections] array of [buildPrompt], in push order. *)
Definition promptSections (ctx : PromptContext) : list jsstring :=
  let sections := [] in
  let sections :=
    match prdTask ctx with
    | Some t => sections ++ [buildPrdHeader ctx t]
    | None => sections
    end in
  let sections := sections ++ [taskSection ctx] in
  let sections :=
    match prdTask ctx with
    | Some t =>
        if 0 <? Z.of_nat (length (acceptanceCriteria t))
        then sections ++ [criteriaSection t]
        else sections
    | None => sections
    end in
  let sections := sections ++ [rulesSection ctx] in
  let sections := sections ++ [progressSection ctx] in
  let sections :=
    if wasReverted ctx then sections ++ [revertWarning] else sections in
  let sections :=
    match lastFailureOutput ctx with
    | Some out =>
        if truthy out then sections ++ [failureSectionOf out] else sections
    | None => sections
    end in
  sections ++ [completionSection ctx].

Definition buildPrompt (ctx : PromptContext) : jsstring :=
  join (nl ++ nl) (promptSections ctx).

End Prompt.

(* ===================================================================== *)
(** ** The iteration loop (loop/runner.ts) *)
(* ===================================================================== *)

Module Runner.

Import Validator Promise Prompt.

Record RunTaskOptions := mkRunTaskOptions {
  o_task : jsstring;
  o_validate : list jsstring;
  o_maxIterations : Z;
  o_progressFile : jsstring;
  failureContextMaxChars : Z;
  gitCheckpoint : bool;
  dryRun : bool;
  delay : Z;
  o_prdTask : option ResolvedTask;
  o_prdName : option jsstring;
  o_prdDescription : option jsstring;
  o_completedTasks : option (list CompletedTask)
}.

(** Everything the loop observes from outside, as oracles indexed by the
    iteration number: the abort signal at the head of the iteration, the
    progress file, the agent process (adapter command plus [spawnProcess])
    and the shell that runs the validation commands.  Index 0 of [shell] is
    the baseline validation.  The agent name is taken to be a registered
    adapter; whether its CLI is installed only changes what is logged. *)
Record World := mkWorld {
  promise : jsstring;
  aborted : Z -> bool;
  readProgress : Z -> ProgressData;
  agent : Z -> jsstring -> SpawnResult;
  shell : Z -> jsstring -> SpawnResult
}.

Record LoopResult := mkLoopResult {
  success : bool;
  iterations : Z;
  taskId : option jsstring;
  cancelled : bool
}.

Inductive LoopEventType :=
| loop_iteration_started
| loop_agent_spawned
| loop_agent_exited
| loop_validation_completed
| loop_regression_reverted
| loop_checkpoint_committed.

Inductive LoopPayload :=
| NoPayload
| SpawnedPayload (prompt : jsstring)
| ExitedPayload (code elapsed : Z)
| ValidationPayload (pass total : Z) (all : bool)
| CheckpointPayload (score total : Z).

Record LoopEvent := mkLoopEvent {
  e_type : LoopEventType;
  e_iteration : Z;
  e_payload : LoopPayload
}.

(** What the loop does to the outside, in program order. *)
Inductive Action :=
| Emit (e : LoopEvent)
| CommitAll (message : jsstring)
| RevertToLastCommit.

(** The three [let] variables of [runTaskLoop]. *)
Record LoopState := mkLoopState {
  bestScore : Z;
  st_lastFailureOutput : jsstring;
  st_wasReverted : bool
}.

Inductive Outcome :=
| Return (r : LoopResult)
| Next (st : LoopState).

Definition opt_taskId (opts : RunTaskOptions) : option jsstring :=
  t_id <$> o_prdTask opts.

Definition completeMessage (opts : RunTaskOptions) (iteration : Z) : jsstring :=
  match o_prdTask opts with
  | Some t => js "ralph: [" ++ t_id t ++ js "] complete (iteration "
                ++ of_number iteration ++ js ")"
  | None => js "ralph: task complete (iteration " ++ of_number iteration ++ js ")"
  end.

Definition checkpointMessage (opts : RunTaskOptions) (iteration : Z)
    (currentScore total : Z) : jsstring :=
  match o_prdTask opts with
  | Some t => js "ralph: [" ++ t_id t ++ js "] iteration " ++ of_number iteration
                ++ js " (" ++ of_number currentScore ++ js "/" ++ of_number total
                ++ js " passing)"
  | None => js "ralph: iteration " ++ of_number iteration
                ++ js " (" ++ of_number currentScore ++ js "/" ++ of_number total
                ++ js " passing)"
  end.

Definition promptFor (opts : RunTaskOptions) (w : World) (st : LoopState)
    (i : Z) : jsstring :=
  buildPrompt
    {| task := o_task opts;
       iteration := i;
       maxIterations := o_maxIterations opts;
       progress := readProgress w i;
       validationCommands := o_validate opts;
       completionPromise := promise w;
       progressFile := o_progressFile opts;
       lastFailureOutput :=
         if truthy (st_lastFailureOutput st)
         then Some (st_lastFailureOutput st) else None;
       wasReverted := st_wasReverted st;
       prdTask := o_prdTask opts;
       prdName := o_prdName opts;
       prdDescription := o_prdDescription opts;
       completedTasks := o_completedTasks opts |}.

(** [agentOutput] and [claimed] of iteration [i]. *)
Definition agentOutput (opts : RunTaskOptions) (w : World) (st : LoopState)
    (i : Z) : jsstring :=
  let result := agent w i (promptFor opts w st i) in
  stdout result ++ nl ++ stderr result.

Definition claimed (opts : RunTaskOptions) (w : World) (st : LoopState)
    (i : Z) : bool :=
  detectPromise (agentOutput opts w st i) (promise w).

(** The validation report of iteration [i]. *)
Definition validationAt (opts : RunTaskOptions) (w : World) (i : Z)
    : ValidationReport :=
  runValidations (o_validate opts) (shell w i).

(** Events emitted by every iteration that spawns the agent. *)
Definition spawnEvents (opts : RunTaskOptions) (w : World) (st : LoopState)
    (i : Z) : list Action :=
  let prompt := promptFor opts w st i in
  let result := agent w i prompt in
  let validation := validationAt opts w i in
  [ Emit (mkLoopEvent loop_iteration_started i NoPayload);
    Emit (mkLoopEvent loop_agent_spawned i (SpawnedPayload prompt));
    Emit (mkLoopEvent loop_agent_exited i
            (ExitedPayload (exitCode result) (duration result)));
    Emit (mkLoopEvent loop_validation_completed i
            (ValidationPayload (passCount validation) (totalCount validation)
                               (allPassed validation))) ].

(** Step 8 of the body: regression check and git checkpoint. *)
Definition regressionHandling (opts : RunTaskOptions) (st : LoopState)
    (i : Z) (validation : ValidationReport) : LoopState * list Action :=
  let currentScore := scoreValidation validation in
  let failure := formatFailureContext validation (failureContextMaxChars opts) in
  if gitCheckpoint opts then
    if currentScore <? bestScore st then
      ({| bestScore := bestScore st;
          st_lastFailureOutput := failure;
          st_wasReverted := true |},
       [ RevertToLastCommit;
         Emit (mkLoopEvent loop_regression_reverted i NoPayload) ])
    else
      ({| bestScore :=
            if currentScore >? bestScore st then currentScore else bestScore st;
          st_lastFailureOutput := failure;
          st_wasReverted := false |},
       [ CommitAll (checkpointMessage opts i currentScore (totalCount validation));
         Emit (mkLoopEvent loop_checkpoint_committed i
                 (CheckpointPayload currentScore (totalCount validation))) ])
  else
    ({| bestScore := bestScore st;
        st_lastFailureOutput := failure;
        st_wasReverted := false |}, []).

(** One pass through the body of the [for] loop. *)
Definition iterationBody (opts : RunTaskOptions) (w : World) (st : LoopState)
    (i : Z) : Outcome * list Action :=
  if aborted w i then
    (Return {| success := false; iterations := i - 1;
               taskId := opt_taskId opts; cancelled := true |}, [])
  else if dryRun opts then
    (Return {| success := true; iterations := 0;
               taskId := opt_taskId opts; cancelled := false |},
     [Emit (mkLoopEvent loop_iteration_started i NoPayload)])
  else
    let validation := validationAt opts w i in
    if claimed opts w st i && allPassed validation then
      (Return {| success := true; iterations := i;
                 taskId := opt_taskId opts; cancelled := false |},
       spawnEvents opts w st i
         ++ (if gitCheckpoint opts then [CommitAll (completeMessage opts i)]
             else []))
    else
      let '(st', acts) := regressionHandling opts st i validation in
      (Next st', spawnEvents opts w st i ++ acts).

(** A finished run: the result, what was done, and the loop variables as
    they stood at the end of each completed iteration. *)
Record Run := mkRun {
  result : LoopResult;
  actions : list Action;
  history : list LoopState
}.

(** The [for] loop from iteration [i] on, with [fuel] iterations left. *)
Fixpoint loopFrom (opts : RunTaskOptions) (w : World) (fuel : nat) (i : Z)
    (st : LoopState) : Run :=
  match fuel with
  | O =>
      {| result := {| success := false; iterations := o_maxIterations opts;
                      taskId := opt_taskId opts; cancelled := false |};
         actions := [];
         history := [] |}
  | S fuel' =>
      match iterationBody opts w st i with
      | (Return r, acts) =>
          {| result := r; actions := acts; history := [] |}
      | (Next st', acts) =>
          let rest := loopFrom opts w fuel' (i + 1) st' in
          {| result := result rest;
             actions := acts ++ actions rest;
             history := st' :: history rest |}
      end
  end.

Definition baseline (opts : RunTaskOptions) (w : World) : ValidationReport :=
  validationAt opts w 0.

Definition initialState (opts : RunTaskOptions) (w : World) : LoopState :=
  {| bestScore := scoreValidation (baseline opts w);
     st_lastFailureOutput := [];
     st_wasReverted := false |}.

Definition runTaskLoop (opts : RunTaskOptions) (w : World) : Run :=
  loopFrom opts w (Z.to_nat (o_maxIterations opts)) 1 (initialState opts w).

End Runner.

(* ===================================================================== *)
(** ** Shared records (packages/shared) and the database (ralphd/src/db.ts) *)
(* ===================================================================== *)

Module Db.

Inductive AgentName := claude | codex | opencode.

Inductive RunStatus :=
| Queued | Running | Paused | Completed | Failed | Cancelled.

Global Instance RunStatus_eq_dec : EqDecision RunStatus.
Proof. solve_decision. Defined.

Inductive EventType :=
| thread_created | thread_worktree_created
| review_comment_created | review_rerun_queued
| automation_created | automation_triggered
| run_queued | run_started | run_paused | run_resumed | run_cancelled
| run_completed | run_failed
| ev_loop (t : Runner.LoopEventType).

Global Instance LoopEventType_eq_dec : EqDecision Runner.LoopEventType.
Proof. solve_decision. Defined.

Global Instance EventType_eq_dec : EqDecision EventType.
Proof. solve_decision. Defined.

(** A payload value, as far as the program builds them. *)
Inductive Json :=
| JStr (s : jsstring)
| JNum (n : Z)
| JBool (b : bool)
| JNums (ns : list Z).

Abbreviation Payload := (list (jsstring * Json)).

(** Rows of the tables, keyed by their primary key in the maps below. *)
Record ThreadRow := mkThreadRow {
  th_name : jsstring;
  th_task : jsstring;
  th_repoPath : jsstring;
  th_baseRepoPath : jsstring;
  th_worktreePath : option jsstring;
  th_branchName : option jsstring;
  th_agent : AgentName;
  th_validate : list jsstring;
  th_createdAt : Z;
  th_updatedAt : Z
}.

(** A run.  [taskOverride] and [sourceRunId] are optional fields of the
    shared [RunRecord] type; the runs table of db.ts has no column for
    them. *)
Record RunRow := mkRunRow {
  r_threadId : jsstring;
  r_status : RunStatus;
  r_maxIterations : Z;
  r_iterations : Z;
  r_taskOverride : option jsstring;
  r_sourceRunId : option jsstring;
  r_error : option jsstring;
  r_createdAt : Z;
  r_startedAt : option Z;
  r_finishedAt : option Z
}.

Record EventRecord := mkEventRecord {
  ev_id : Z;
  ev_threadId : jsstring;
  ev_runId : option jsstring;
  ev_type : EventType;
  ev_payload : Payload;
  ev_createdAt : Z
}.

Record AutomationRow := mkAutomationRow {
  a_name : jsstring;
  a_cron : jsstring;
  a_threadId : jsstring;
  a_maxIterations : Z;
  a_enabled : bool;
  a_lastRunAt : option Z;
  a_createdAt : Z;
  a_updatedAt : Z
}.

Inductive CommentStatus := Open | Applied.

Global Instance CommentStatus_eq_dec : EqDecision CommentStatus.
Proof. solve_decision. Defined.

Record CommentRow := mkCommentRow {
  c_threadId : jsstring;
  c_runId : option jsstring;
  c_filePath : jsstring;
  c_lineNumber : Z;
  c_body : jsstring;
  c_status : CommentStatus;
  c_createdAt : Z
}.

(** The records handed to callers carry their key. *)
Record RunRecord := mkRunRecord { run_id : jsstring; run_row : RunRow }.
Record ThreadRecord := mkThreadRecord { thread_id : jsstring; thread_row : ThreadRow }.
Record AutomationRecord :=
  mkAutomationRecord { automation_id : jsstring; automation_row : AutomationRow }.
Record ReviewCommentRecord :=
  mkReviewCommentRecord { comment_id : Z; comment_row : CommentRow }.

(** The clock and the UUID generator are oracles; the database counts how
    many values of each it has consumed. *)
Record Env := mkEnv {
  clock : nat -> Z;
  uuid : nat -> jsstring
}.

Record Database := mkDatabase {
  threads : gmap (list N) ThreadRow;
  runs : gmap (list N) RunRow;
  events : list EventRecord;
  automations : gmap (list N) AutomationRow;
  review_comments : gmap Z CommentRow;
  clock_reads : nat;
  uuid_reads : nat
}.

Definition with_threads (f : gmap (list N) ThreadRow -> gmap (list N) ThreadRow)
    (d : Database) : Database :=
  mkDatabase (f (threads d)) (runs d) (events d) (automations d)
             (review_comments d) (clock_reads d) (uuid_reads d).

Definition with_runs (f : gmap (list N) RunRow -> gmap (list N) RunRow)
    (d : Database) : Database :=
  mkDatabase (threads d) (f (runs d)) (events d) (automations d)
             (review_comments d) (clock_reads d) (uuid_reads d).

Definition with_events (f : list EventRecord -> list EventRecord)
    (d : Database) : Database :=
  mkDatabase (threads d) (runs d) (f (events d)) (automations d)
             (review_comments d) (clock_reads d) (uuid_reads d).

Definition with_automations
    (f : gmap (list N) AutomationRow -> gmap (list N) AutomationRow)
    (d : Database) : Database :=
  mkDatabase (threads d) (runs d) (events d) (f (automations d))
             (review_comments d) (clock_reads d) (uuid_reads d).

Definition with_review_comments (f : gmap Z CommentRow -> gmap Z CommentRow)
    (d : Database) : Database :=
  mkDatabase (threads d) (runs d) (events d) (automations d)
             (f (review_comments d)) (clock_reads d) (uuid_reads d).

(** [Date.now()] *)
Definition Date_now (env : Env) (d : Database) : Z * Database :=
  (clock env (clock_reads d),
   mkDatabase (threads d) (runs d) (events d) (automations d)
              (review_comments d) (S (clock_reads d)) (uuid_reads d)).

(** [randomUUID()] *)
Definition randomUUID (env : Env) (d : Database) : jsstring * Database :=
  (uuid env (uuid_reads d),
   mkDatabase (threads d) (runs d) (events d) (automations d)
              (review_comments d) (clock_reads d) (S (uuid_reads d))).

Definition getThread (id : jsstring) (d : Database) : option ThreadRecord :=
  mkThreadRecord id <$> threads d !! id.

Definition getRun (id : jsstring) (d : Database) : option RunRecord :=
  mkRunRecord id <$> runs d !! id.

(** [UPDATE threads SET updated_at = ? WHERE id = ?] *)
Definition touchThread (env : Env) (threadId : jsstring) (d : Database)
    : Database :=
  let '(now, d) := Date_now env d in
  with_threads
    (alter (fun t =>
       mkThreadRow (th_name t) (th_task t) (th_repoPath t) (th_baseRepoPath t)
                   (th_worktreePath t) (th_branchName t) (th_agent t)
                   (th_validate t) (th_createdAt t) now) threadId) d.

Record RunUpdates := mkRunUpdates {
  u_iterations : option Z;
  u_error : option jsstring;
  u_startedAt : option Z;
  u_finishedAt : option Z
}.

Definition noUpdates : RunUpdates := mkRunUpdates None None None None.

(** [a ?? b] where the right operand is itself nullable. *)
Definition nullish {A} (a b : option A) : option A :=
  match a with Some x => Some x | None => b end.

Definition updateRunStatus (env : Env) (runId : jsstring) (status : RunStatus)
    (updates : RunUpdates) (d : Database) : Database :=
  match getRun runId d with
  | None => d
  | Some run =>
      let row := run_row run in
      let d :=
        with_runs
          (alter (fun old =>
             mkRunRow (r_threadId old) status (r_maxIterations old)
                      (default (r_iterations row) (u_iterations updates))
                      (r_taskOverride old) (r_sourceRunId old)
                      (nullish (u_error updates) (r_error row))
                      (r_createdAt old)
                      (nullish (u_startedAt updates) (r_startedAt row))
                      (nullish (u_finishedAt updates) (r_finishedAt row)))
             runId) d in
      touchThread env (r_threadId row) d
  end.

(** The object handed to [createRun].  Its declared type has [threadId]
    and [maxIterations] only; the handlers of index.ts also put
    [taskOverride] and [sourceRunId] into it. *)
Record CreateRunInput := mkCreateRunInput {
  in_threadId : jsstring;
  in_maxIterations : Z;
  in_taskOverride : option jsstring;
  in_sourceRunId : option jsstring
}.

(** [createRun]: the INSERT names the columns id, thread_id, status,
    max_iterations, iterations and created_at, and the record handed back
    is read by [getRun], whose SELECT and [mapRunRow] know no task
    override and no source run: whatever the caller put into these two
    fields of the input is dropped. *)
Definition createRun (env : Env) (input : CreateRunInput) (d : Database)
    : RunRecord * Database :=
  let '(now, d) := Date_now env d in
  let '(id, d) := randomUUID env d in
  let row :=
    mkRunRow (in_threadId input) Queued (in_maxIterations input) 0
             None None None now None None in
  let d := with_runs (insert id row) d in
  let d := touchThread env (in_threadId input) d in
  (mkRunRecord id row, d).

(** [appendEvent]: the journal hands out increasing identifiers. *)
Definition appendEvent (env : Env) (threadId : jsstring)
    (runId : option jsstring) (type : EventType) (payload : Payload)
    (d : Database) : EventRecord * Database :=
  let '(now, d) := Date_now env d in
  let e := mkEventRecord (Z.of_nat (length (events d)) + 1) threadId runId
                         type payload now in
  (e, with_events (fun es => es ++ [e]) d).

(** [emitEvent] of index.ts: append to the journal (the broadcast to the
    connected sockets leaves the state below untouched). *)
Definition emitEvent (env : Env) (threadId : jsstring)
    (runId : option jsstring) (type : EventType) (payload : Payload)
    (d : Database) : Database :=
  snd (appendEvent env threadId runId type payload d).

(** Modelled from the spec: the automation table's accessors, which the
    db.ts under src/ does not have.  An automation has an identity, a name,
    a cron expression, a thread reference, a default iteration budget, an
    enabled flag and a last-triggered timestamp. *)
Definition listAutomations (d : Database) : list AutomationRecord :=
  List.map (fun kv => mkAutomationRecord (fst kv) (snd kv))
           (map_to_list (automations d)).

Definition getAutomation (id : jsstring) (d : Database)
    : option AutomationRecord :=
  mkAutomationRecord id <$> automations d !! id.

(** Modelled from the spec: "update last-triggered": the automation's
    last-triggered timestamp becomes the current time. *)
Definition markAutomationTriggered (env : Env) (id : jsstring) (d : Database)
    : Database :=
  let '(now, d) := Date_now env d in
  with_automations
    (alter (fun a =>
       mkAutomationRow (a_name a) (a_cron a) (a_threadId a)
                       (a_maxIterations a) (a_enabled a) (Some now)
                       (a_createdAt a) now) id) d.

(** Modelled from the spec: [getByIds(threadId, ids)] "returns only
    comments belonging to that thread"; the feedback list is "in the
    submitted order", so the rows come back in the order of [ids]. *)
Definition getReviewCommentsByIds (threadId : jsstring) (ids : list Z)
    (d : Database) : list ReviewCommentRecord :=
  omap (fun id =>
          match review_comments d !! id with
          | Some row =>
              if decide (c_threadId row = threadId)
              then Some (mkReviewCommentRecord id row) else None
          | None => None
          end) ids.

(** Modelled from the spec: [markApplied(threadId, ids)] "flips open to
    applied" for the thread's comments among [ids]. *)
Definition markReviewCommentsApplied (threadId : jsstring) (ids : list Z)
    (d : Database) : Database :=
  with_review_comments
    (fun m =>
       foldr (fun id m =>
                alter (fun c =>
                  if decide (c_threadId c = threadId)
                  then mkCommentRow (c_threadId c) (c_runId c) (c_filePath c)
                                    (c_lineNumber c) (c_body c) Applied
                                    (c_createdAt c)
                  else c) id m) m ids) d.

End Db.

(* ===================================================================== *)
(** ** The run queue (ralphd/src/queue.ts) *)
(* ===================================================================== *)

Module Queue.

Import Db.

(** [pending] is a JavaScript [Set]: it iterates in insertion order and
    holds each run id once.  [controllers] maps a run id to the [aborted]
    flag of its [AbortController]. *)
Record State := mkState {
  pending : list (list N);
  running : gset (list N);
  controllers : gmap (list N) bool;
  db : Database
}.

Definition set_has (r : jsstring) (s : list (list N)) : bool :=
  bool_decide (r ∈ s).

Definition set_add (r : jsstring) (s : list (list N)) : list (list N) :=
  if set_has r s then s else s ++ [r].

Definition set_delete (r : jsstring) (s : list (list N)) : list (list N) :=
  List.filter (fun x => negb (bool_decide (x = r))) s.

Definition with_pending (f : list (list N) -> list (list N)) (st : State)
    : State :=
  mkState (f (pending st)) (running st) (controllers st) (db st).

Definition with_db (f : Database -> Database) (st : State) : State :=
  mkState (pending st) (running st) (controllers st) (f (db st)).

Section WithHooks.

Context (env : Env) (maxConcurrent : jsnumber).

(** [hooks.onEvent], bound to [emitEvent] in index.ts. *)
Definition onEvent (threadId : jsstring) (runId : option jsstring)
    (type : EventType) (payload : Payload) (st : State) : State :=
  with_db (emitEvent env threadId runId type payload) st.

(** [hooks.onRunExecute], bound to [executeRun] in index.ts, up to its
    first [await]: a run whose thread is gone is failed on the spot;
    otherwise nothing is written before the loop suspends. *)
Definition executeRunStart (run : RunRecord) (st : State) : State :=
  match getThread (r_threadId (run_row run)) (db st) with
  | None =>
      let '(now, d) := Date_now env (db st) in
      let st := with_db (fun _ =>
                  updateRunStatus env (run_id run) Failed
                    (mkRunUpdates None (Some (js "Thread not found")) None
                                  (Some now)) d) st in
      onEvent (r_threadId (run_row run)) (Some (run_id run)) run_failed
              [(js "message", JStr (js "Thread not found"))] st
  | Some _ => st
  end.

(** [execute] up to its [await]: the executor then runs asynchronously
    and reports back through [finish] below. *)
Definition execute (runId : jsstring) (st : State) : State :=
  match getRun runId (db st) with
  | None => st
  | Some run =>
      if negb (bool_decide (r_status (run_row run) = Queued)) then st
      else
        let st := mkState (pending st) (running st)
                          (<[runId := false]> (controllers st)) (db st) in
        let st := mkState (pending st) ({[runId]} ∪ running st)
                          (controllers st) (db st) in
        let '(now, d) := Date_now env (db st) in
        let st := with_db (fun _ =>
                    updateRunStatus env runId Running
                      (mkRunUpdates None None (Some now) None) d) st in
        let st := onEvent (r_threadId (run_row run)) (Some (run_id run))
                          run_started [] st in
        executeRunStart run st
  end.

(** The [while] loop of [tick].  Every pass deletes the head of [pending],
    so [fuel] = the size of [pending] passes are enough. *)
Fixpoint tickLoop (fuel : nat) (st : State) : State :=
  match fuel with
  | O => st
  | S fuel' =>
      if int_lt (Z.of_nat (size (running st))) maxConcurrent
           && (0 <? Z.of_nat (length (pending st)))
      then
        match pending st with
        | [] => st
        | nextRunId :: _ =>
            if negb (truthy nextRunId) then st
            else
              let st := with_pending (set_delete nextRunId) st in
              tickLoop fuel' (execute nextRunId st)
        end
      else st
  end.

Definition tick (st : State) : State :=
  tickLoop (length (pending st)) st.

Definition enqueue (runId : jsstring) (st : State) : State :=
  tick (with_pending (set_add runId) st).

Definition pause (runId : jsstring) (st : State) : bool * State :=
  if negb (set_has runId (pending st)) then (false, st)
  else
    match getRun runId (db st) with
    | None => (false, st)
    | Some run =>
        let st := with_pending (set_delete runId) st in
        let st := with_db (updateRunStatus env runId Paused noUpdates) st in
        let st := onEvent (r_threadId (run_row run)) (Some (run_id run))
                          run_paused [] st in
        (true, st)
    end.

Definition resume (runId : jsstring) (st : State) : bool * State :=
  match getRun runId (db st) with
  | None => (false, st)
  | Some run =>
      if negb (bool_decide (r_status (run_row run) = Paused)) then (false, st)
      else
        let st := with_db (updateRunStatus env runId Queued noUpdates) st in
        let st := onEvent (r_threadId (run_row run)) (Some (run_id run))
                          run_resumed [] st in
        (true, enqueue runId st)
  end.

Definition stop (runId : jsstring) (st : State) : bool * State :=
  match getRun runId (db st) with
  | None => (false, st)
  | Some run =>
      if set_has runId (pending st) then
        let st := with_pending (set_delete runId) st in
        let '(now, d) := Date_now env (db st) in
        let st := with_db (fun _ =>
                    updateRunStatus env runId Cancelled
                      (mkRunUpdates None None None (Some now)) d) st in
        let st := onEvent (r_threadId (run_row run)) (Some (run_id run))
                          run_cancelled [] st in
        (true, st)
      else
        match controllers st !! runId with
        | Some _ =>
            (true, mkState (pending st) (running st)
                           (<[runId := true]> (controllers st)) (db st))
        | None => (false, st)
        end
  end.

(** The rest of [execute], after the executor hook settled: [thrown] is
    the message of the error it rejected with, if any; [run] is the record
    [execute] read before the [await]. *)
Definition finish (run : RunRecord) (thrown : option jsstring) (st : State)
    : State :=
  let runId := run_id run in
  let st :=
    match thrown with
    | Some message =>
        let '(now, d) := Date_now env (db st) in
        let st := with_db (fun _ =>
                    updateRunStatus env runId Failed
                      (mkRunUpdates None (Some message) None (Some now)) d) st in
        onEvent (r_threadId (run_row run)) (Some (run_id run)) run_failed
                [(js "message", JStr message)] st
    | None => st
    end in
  let st := mkState (pending st) (running st) (delete runId (controllers st))
                    (db st) in
  let st := mkState (pending st) (running st ∖ {[runId]}) (controllers st)
                    (db st) in
  tick st.

(** What can happen to a queue: calls of its public methods, an executor
    settling, and what the rest of the daemon does to the runs table and
    the journal (the HTTP handlers create runs, the executor records a
    run's outcome, both emit events). *)
Inductive Op :=
| OpEnqueue (runId : jsstring)
| OpPause (runId : jsstring)
| OpResume (runId : jsstring)
| OpStop (runId : jsstring)
| OpTick
| OpFinish (run : RunRecord) (thrown : option jsstring)
| OpCreateRun (input : CreateRunInput)
| OpUpdateRunStatus (runId : jsstring) (status : RunStatus)
                    (updates : RunUpdates)
| OpEmitEvent (threadId : jsstring) (runId : option jsstring)
              (type : EventType) (payload : Payload).

Definition step (st : State) (op : Op) : State :=
  match op with
  | OpEnqueue r => enqueue r st
  | OpPause r => snd (pause r st)
  | OpResume r => snd (resume r st)
  | OpStop r => snd (stop r st)
  | OpTick => tick st
  | OpFinish run thrown => finish run thrown st
  | OpCreateRun input => with_db (fun d => snd (createRun env input d)) st
  | OpUpdateRunStatus r status updates =>
      with_db (updateRunStatus env r status updates) st
  | OpEmitEvent threadId r type payload => onEvent threadId r type payload st
  end.

Definition initial (d : Database) : State := mkState [] ∅ ∅ d.

Definition runOps (d : Database) (ops : list Op) : State :=
  fold_left step ops (initial d).

(** The run ids of the [run.started] events a transition appended to the
    journal, oldest first. *)
Definition startedBetween (st st' : State) : list (list N) :=
  omap (fun e => if decide (ev_type e = run_started) then ev_runId e else None)
       (drop (length (events (db st))) (events (db st'))).

Definition isQueued (d : Database) (runId : jsstring) : bool :=
  match getRun runId d with
  | Some run => bool_decide (r_status (run_row run) = Queued)
  | None => false
  end.

End WithHooks.

End Queue.

(* ===================================================================== *)
(** ** The automation scheduler (AutomationScheduler, ralphd/src/queue.ts) *)
(* ===================================================================== *)

Module Scheduler.

Import Db Queue.

(** The local wall-clock fields a [Date] is asked for. *)
Record DateFields := mkDateFields {
  getMinutes : Z;
  getHours : Z;
  getDate : Z;
  getMonth : Z;
  getDay : Z
}.

(** [s.split(/\s+/)]: [cur] is the field being read, reversed; [inSpace]
    tells whether the previous character belonged to a separator. *)
Fixpoint splitSpaces (inSpace : bool) (cur : jsstring) (s : jsstring)
    : list jsstring :=
  match s with
  | [] => [rev cur]
  | c :: s' =>
      if is_space c then
        if inSpace then splitSpaces true cur s'
        else rev cur :: splitSpaces true [] s'
      else splitSpaces false (c :: cur) s'
  end.

Definition split_whitespace (s : jsstring) : list jsstring :=
  splitSpaces false [] s.

Section WithNumber.

(** [integerOf part] is [Some n] when [Number(part)] is the integer [n]
    ([Number.isInteger] holds), and [None] otherwise.  [localTime] turns
    epoch milliseconds into the fields of the local time zone. *)
Context (integerOf : jsstring -> option Z) (localTime : Z -> DateFields).
Context (env : Env) (maxConcurrent : jsnumber).

Definition cronPartMatches (part : jsstring) (value : Z) : bool :=
  if bool_decide (part = js "*") then true
  else
    match integerOf part with
    | Some numeric => numeric =? value
    | None => false
    end.

Definition matchesSimpleCron (cron : jsstring) (date : DateFields) : bool :=
  match split_whitespace (trim cron) with
  | [minute; hour; dayOfMonth; month; dayOfWeek] =>
      cronPartMatches minute (getMinutes date)
      && cronPartMatches hour (getHours date)
      && cronPartMatches dayOfMonth (getDate date)
      && cronPartMatches month (getMonth date + 1)
      && cronPartMatches dayOfWeek (getDay date)
  | _ => false
  end.

Inductive TriggerSource := manual | scheduled.

Definition sourceName (s : TriggerSource) : jsstring :=
  match s with manual => js "manual" | scheduled => js "scheduled" end.

(** [triggerAutomationRun]: [inl] is the message of the error thrown. *)
Definition triggerAutomationRun (automationId : jsstring)
    (source : TriggerSource) (st : State) : (jsstring + RunRecord) * State :=
  match getAutomation automationId (db st) with
  | None => (inl (js "Automation not found"), st)
  | Some automation =>
      let row := automation_row automation in
      if negb (truthy (a_threadId row))
      then (inl (js "Automation is not linked to a thread"), st)
      else
        match getThread (a_threadId row) (db st) with
        | None => (inl (js "Automation thread not found"), st)
        | Some thread =>
            let '(run, d) :=
              createRun env
                (mkCreateRunInput (a_threadId row) (a_maxIterations row)
                                  None None) (db st) in
            let d := markAutomationTriggered env (automation_id automation) d in
            let d := emitEvent env (thread_id thread) (Some (run_id run))
                       automation_triggered
                       [ (js "automationId", JStr (automation_id automation));
                         (js "source", JStr (sourceName source));
                         (js "cron", JStr (a_cron row)) ] d in
            let d := emitEvent env (thread_id thread) (Some (run_id run))
                       run_queued
                       [ (js "source", JStr (js "automation"));
                         (js "automationId", JStr (automation_id automation));
                         (js "maxIterations",
                          JNum (r_maxIterations (run_row run))) ] d in
            let st := with_db (fun _ => d) st in
            (inr run, enqueue env maxConcurrent (run_id run) st)
        end
  end.


(** [lastRunAt ? Math.floor(lastRunAt / 60_000) : -1] *)
Definition lastMinuteBucket (a : AutomationRow) : Z :=
  match a_lastRunAt a with
  | Some t => if t =? 0 then -1 else t / 60000
  | None => -1
  end.

(** Whether the body of the [for] loop reaches [triggerAutomationRun]. *)
Definition due (now : DateFields) (currentMinuteBucket : Z)
    (automation : AutomationRecord) : bool :=
  let row := automation_row automation in
  if negb (truthy (a_threadId row)) then false
  else if negb (matchesSimpleCron (a_cron row) now) then false
  else if lastMinuteBucket row =? currentMinuteBucket then false
  else true.

(** The [for] loop of [tick]; an error thrown by a trigger ends it. *)
Fixpoint tickAutomations (now : DateFields) (currentMinuteBucket : Z)
    (todo : list AutomationRecord) (st : State) : option jsstring * State :=
  match todo with
  | [] => (None, st)
  | automation :: rest =>
      if due now currentMinuteBucket automation then
        match triggerAutomationRun (automation_id automation) scheduled st with
        | (inl message, st) => (Some message, st)
        | (inr _, st) => tickAutomations now currentMinuteBucket rest st
        end
      else tickAutomations now currentMinuteBucket rest st
  end.

(** The clock values [tick] reads: [new Date()] and then [Date.now()]. *)
Definition tickDate (st : State) : DateFields :=
  localTime (fst (Date_now env (db st))).

Definition tickBucket (st : State) : Z :=
  fst (Date_now env (snd (Date_now env (db st)))) / 60000.

Definition tick (st : State) : option jsstring * State :=
  let automations :=
    List.filter (fun a => a_enabled (automation_row a))
                (listAutomations (db st)) in
  let '(t, d) := Date_now env (db st) in
  let now := localTime t in
  let '(t', d) := Date_now env d in
  let currentMinuteBucket := t' / 60000 in
  tickAutomations now currentMinuteBucket automations (with_db (fun _ => d) st).

(** The automation ids of the [automation.triggered] events a transition
    appended to the journal, oldest first. *)
Definition automationOf (e : EventRecord) : option jsstring :=
  if decide (ev_type e = automation_triggered) then
    match ev_payload e with
    | (_, JStr id) :: _ => Some id
    | _ => None
    end
  else None.

Definition triggeredBetween (st st' : State) : list (list N) :=
  omap automationOf (drop (length (events (db st))) (events (db st'))).

End WithNumber.

(** A reading of [Number] on unsigned decimal literals, used to run the
    scheduler on examples. *)
Fixpoint decimalValue (acc : Z) (s : jsstring) : option Z :=
  match s with
  | [] => Some acc
  | c :: s' =>
      if ((48 <=? c) && (c <=? 57))%N
      then decimalValue (10 * acc + Z.of_N (c - 48)) s'
      else None
  end.

Definition decimalInteger (s : jsstring) : option Z :=
  match s with [] => None | _ => decimalValue 0 s end.

End Scheduler.

(* ===================================================================== *)
(** ** The worktree manager (ralphd/src/worktree.ts) *)
(* ===================================================================== *)

Module Worktree.

(** A resolved path is the list of its components below the file-system
    root; resolving plain names against it appends them. *)
Abbreviation path := (list (list N)).

Definition resolve (base : path) (names : list (list N)) : path :=
  base ++ names.

Inductive GitCommand :=
| RevParseShowToplevel (cwd : jsstring)
| WorktreeAdd (repoRoot : path) (branchName : jsstring) (worktreePath : path).

(** Git, the file system and the clock are oracles.  Git and the clock are
    indexed by how many calls came before; [mkdir dir] is [None] when
    [mkdir(dir, { recursive: true })] resolves and the message of the
    error when it rejects; [pathOf] is [resolve] applied to the one
    absolute path git printed. *)
Record World := mkWorld {
  git : nat -> GitCommand -> SpawnResult;
  mkdir : path -> option jsstring;
  now : nat -> Z;
  pathOf : jsstring -> path
}.

Record WorktreeSetupResult := mkWorktreeSetupResult {
  repoRoot : path;
  worktreePath : path;
  branchName : jsstring
}.

Inductive Call :=
| Git (c : GitCommand)
| Mkdir (p : path).

Definition isAlnum (c : N) : bool :=
  (((48 <=? c) && (c <=? 57)) || ((65 <=? c) && (c <=? 90))
   || ((97 <=? c) && (c <=? 122)))%N.

(** [toLowerCase] on a string of ASCII letters and digits. *)
Definition toLowerCase (s : jsstring) : jsstring :=
  List.map (fun c => if ((65 <=? c) && (c <=? 90))%N then (c + 32)%N else c) s.

(** [threadId.replace(/[^a-z0-9]/gi, "").slice(0, 10).toLowerCase()] *)
Definition shortIdOf (threadId : jsstring) : jsstring :=
  toLowerCase (slice_to (List.filter isAlnum threadId) 10).

Definition resolveRepoRoot (w : World) (repoPath : jsstring)
    : (jsstring + path) * list Call :=
  let c := RevParseShowToplevel repoPath in
  let result := git w 0%nat c in
  if negb (exitCode result =? 0) || negb (truthy (trim (stdout result)))
  then (inl (js "Path is not inside a git repository: " ++ repoPath), [Git c])
  else (inr (pathOf w (trim (stdout result))), [Git c]).

(** [createThreadWorktree]: [inl] is the message of the error thrown, by
    [resolveRepoRoot], by the awaited [mkdir], or after the second failed
    attempt. *)
Definition createThreadWorktree (w : World) (repoPath threadId : jsstring)
    : (jsstring + WorktreeSetupResult) * list Call :=
  match resolveRepoRoot w repoPath with
  | (inl message, calls) => (inl message, calls)
  | (inr repoRoot, calls) =>
      let worktreeRoot := resolve repoRoot [js ".ralph"; js "worktrees"] in
      let shortId := shortIdOf threadId in
      let worktreePath := resolve worktreeRoot [or_else shortId (js "thread")] in
      let calls := calls ++ [Mkdir worktreeRoot] in
      match mkdir w worktreeRoot with
      | Some message => (inl message, calls)
      | None =>
          (* the first template reads the clock only when [shortId] is empty *)
          let '(branchName, reads) :=
            if truthy shortId then (js "ralph/thread-" ++ shortId, 0%nat)
            else (js "ralph/thread-" ++ of_number (now w 0%nat), 1%nat) in
          let c1 := WorktreeAdd repoRoot branchName worktreePath in
          let addResult := git w 1%nat c1 in
          let calls := calls ++ [Git c1] in
          if negb (exitCode addResult =? 0) then
            let branchName := branchName ++ js "-" ++ of_number (now w reads) in
            let worktreePath :=
              resolve worktreeRoot
                [or_else shortId (js "thread") ++ js "-"
                   ++ of_number (now w (S reads))] in
            let c2 := WorktreeAdd repoRoot branchName worktreePath in
            let addResult := git w 2%nat c2 in
            let calls := calls ++ [Git c2] in
            if negb (exitCode addResult =? 0) then
              (inl (js "Failed to create thread worktree: "
                      ++ or_else (stderr addResult)
                           (or_else (stdout addResult)
                              (js "unknown git error"))),
               calls)
            else
              (inr (mkWorktreeSetupResult repoRoot worktreePath branchName),
               calls)
          else
            (inr (mkWorktreeSetupResult repoRoot worktreePath branchName),
             calls)
      end
  end.

(** The git commands among the calls, in order. *)
Definition gitCalls (calls : list Call) : list GitCommand :=
  omap (fun c => match c with Git g => Some g | Mkdir _ => None end) calls.

Definition worktreeAdds (calls : list Call) : list GitCommand :=
  List.filter (fun g => match g with WorktreeAdd _ _ _ => true | _ => false end)
              (gitCalls calls).

End Worktree.

(* ===================================================================== *)
(** ** The feedback rerun (ralphd/src/index.ts, rerun-from-comments) *)
(* ===================================================================== *)

Module Feedback.

Import Db Queue.

Inductive Body :=
| ErrorBody (message : jsstring)
| SchemaError
| RunBody (run : RunRecord).

Record Response := mkResponse {
  status : Z;
  body : Body
}.

(** [feedbackRerunSchema]: a non-empty array of positive integers. *)
Definition schemaAccepts (commentIds : list Z) : bool :=
  forallb (fun id => 0 <? id) commentIds
  && (1 <=? Z.of_nat (length commentIds)).

(** [`${index + 1}. ${comment.filePath}:${comment.lineNumber} - ${comment.body}`] *)
Definition feedbackLine (index : nat) (comment : ReviewCommentRecord)
    : jsstring :=
  let row := comment_row comment in
  of_number (Z.of_nat index + 1) ++ js ". " ++ c_filePath row ++ js ":"
    ++ of_number (c_lineNumber row) ++ js " - " ++ c_body row.

Definition feedbackHeader : jsstring :=
  js "Address the following review feedback before declaring completion:".

Definition taskOverrideOf (thread : ThreadRecord)
    (comments : list ReviewCommentRecord) : jsstring :=
  let feedbackBlock := join nl (imap feedbackLine comments) in
  th_task (thread_row thread) ++ nl ++ nl ++ feedbackHeader ++ nl
    ++ feedbackBlock.

Section WithQueue.

Context (env : Env) (maxConcurrent : jsnumber).

Definition rerunFromComments (threadId : jsstring) (commentIds : list Z)
    (st : State) : Response * State :=
  match getThread threadId (db st) with
  | None => (mkResponse 404 (ErrorBody (js "Thread not found")), st)
  | Some thread =>
      if negb (schemaAccepts commentIds) then (mkResponse 400 SchemaError, st)
      else
        let comments := getReviewCommentsByIds threadId commentIds (db st) in
        if Z.of_nat (length comments) =? 0
        then (mkResponse 404 (ErrorBody (js "No matching comments found")), st)
        else
          let taskOverride := taskOverrideOf thread comments in
          let sourceRunId :=
            match comments with
            | c :: _ => c_runId (comment_row c)
            | [] => None
            end in
          let '(run, d) :=
            createRun env
              (mkCreateRunInput threadId 10 (Some taskOverride) sourceRunId)
              (db st) in
          let d := markReviewCommentsApplied threadId commentIds d in
          let d := emitEvent env threadId (Some (run_id run))
                     review_rerun_queued
                     [ (js "source", JStr (js "review-feedback"));
                       (js "commentIds", JNums commentIds) ] d in
          let st := with_db (fun _ => d) st in
          (mkResponse 201 (RunBody run), enqueue env maxConcurrent (run_id run) st)
  end.

End WithQueue.

End Feedback.

(* ===================================================================== *)
(** ** The PRD and its tasks (prd/schema.ts) *)
(* ===================================================================== *)

Module Prd.

Import Db.

(** A task and a PRD as the schema parses them: the optional fields are
    options, the fields with a default are always present. *)
Record PrdTask := mkPrdTask {
  pt_id : jsstring;
  pt_name : jsstring;
  pt_description : jsstring;
  pt_validate : option (list jsstring);
  pt_maxIterations : option Z;
  pt_dependsOn : list jsstring;
  pt_acceptanceCriteria : list jsstring;
  pt_skip : bool
}.

Record Prd := mkPrd {
  prd_name : jsstring;
  prd_description : jsstring;
  prd_agent : option AgentName;
  prd_validate : list jsstring;
  prd_maxIterations : Z;
  prd_tasks : list PrdTask
}.

Record ResolvedTask := mkResolvedTask {
  rt_id : jsstring;
  rt_name : jsstring;
  rt_description : jsstring;
  rt_validate : list jsstring;
  rt_maxIterations : Z;
  rt_dependsOn : list jsstring;
  rt_acceptanceCriteria : list jsstring;
  rt_skip : bool;
  rt_index : Z;
  rt_total : Z
}.

(** The messages of the errors thrown. *)
Definition missingDependency (taskId dep : jsstring) : jsstring :=
  js "Task " ++ Prompt.dquote ++ taskId ++ Prompt.dquote ++ js " depends on "
    ++ Prompt.dquote ++ dep ++ Prompt.dquote
    ++ js " which does not exist in the PRD".

Definition laterDependency (taskId dep : jsstring) : jsstring :=
  js "Task " ++ Prompt.dquote ++ taskId ++ Prompt.dquote ++ js " depends on "
    ++ Prompt.dquote ++ dep ++ Prompt.dquote
    ++ js " which appears later in the task list. "
    ++ js "Reorder tasks so dependencies come first.".

Definition duplicateId (taskId : jsstring) : jsstring :=
  js "Duplicate task ID: " ++ Prompt.dquote ++ taskId ++ Prompt.dquote.

(** The inner [for] loop of [resolveTasks] over one task's dependencies:
    the message of the error it throws, if any. *)
Fixpoint checkDependencies (taskIds seenIds : gset (list N))
    (taskId : jsstring) (deps : list jsstring) : option jsstring :=
  match deps with
  | [] => None
  | dep :: rest =>
      if negb (bool_decide (dep ∈ taskIds))
      then Some (missingDependency taskId dep)
      else if negb (bool_decide (dep ∈ seenIds))
      then Some (laterDependency taskId dep)
      else checkDependencies taskIds seenIds taskId rest
  end.

Definition resolveTask (prd : Prd) (i : nat) (task : PrdTask) : ResolvedTask :=
  {| rt_id := pt_id task;
     rt_name := pt_name task;
     rt_description := pt_description task;
     rt_validate := default (prd_validate prd) (pt_validate task);
     rt_maxIterations := default (prd_maxIterations prd) (pt_maxIterations task);
     rt_dependsOn := pt_dependsOn task;
     rt_acceptanceCriteria := pt_acceptanceCriteria task;
     rt_skip := pt_skip task;
     rt_index := Z.of_nat i + 1;
     rt_total := Z.of_nat (length (prd_tasks prd)) |}.

(** The outer loop from index [i] on, [todo] being the tasks from there;
    [inl] is the message of the error thrown. *)
Fixpoint resolveFrom (prd : Prd) (taskIds seenIds : gset (list N)) (i : nat)
    (todo : list PrdTask) : jsstring + list ResolvedTask :=
  match todo with
  | [] => inr []
  | task :: rest =>
      match checkDependencies taskIds seenIds (pt_id task)
                              (pt_dependsOn task) with
      | Some message => inl message
      | None =>
          match resolveFrom prd taskIds ({[pt_id task]} ∪ seenIds) (S i)
                            rest with
          | inl message => inl message
          | inr resolved => inr (resolveTask prd i task :: resolved)
          end
      end
  end.

Definition resolveTasks (prd : Prd) : jsstring + list ResolvedTask :=
  resolveFrom prd (list_to_set (List.map pt_id (prd_tasks prd))) ∅ 0
              (prd_tasks prd).

(** The loop of [validateUniqueIds]: the message of the error, if any. *)
Fixpoint uniqueFrom (seen : gset (list N)) (todo : list PrdTask)
    : option jsstring :=
  match todo with
  | [] => None
  | task :: rest =>
      if bool_decide (pt_id task ∈ seen) then Some (duplicateId (pt_id task))
      else uniqueFrom ({[pt_id task]} ∪ seen) rest
  end.

Definition validateUniqueIds (prd : Prd) : option jsstring :=
  uniqueFrom ∅ (prd_tasks prd).

(** The resolved task as the prompt builder and the loop read it. *)
Definition toPromptTask (t : ResolvedTask) : Prompt.ResolvedTask :=
  Prompt.mkResolvedTask (rt_id t) (rt_name t) (rt_acceptanceCriteria t)
                        (rt_index t) (rt_total t).

End Prd.

(* ===================================================================== *)
(** ** The agent adapters and their registry (agents/*.ts) *)
(* ===================================================================== *)

Module Agents.

Record SpawnConfig := mkSpawnConfig {
  sc_command : jsstring;
  sc_args : list jsstring;
  sc_cwd : jsstring;
  sc_timeout : Z
}.

(** The [AgentAdapter] interface: an object with three constant fields
    and two methods.  [checkInstalled] runs a shell command, given here as
    an oracle, and looks at its exit code. *)
Record AgentAdapter := mkAgentAdapter {
  name : jsstring;
  displayName : jsstring;
  command : jsstring;
  checkInstalled : (jsstring -> SpawnResult) -> bool;
  buildCommand : jsstring -> jsstring -> SpawnConfig
}.

Definition DEFAULT_TIMEOUT : Z := 5 * 60 * 1000.

Inductive Sandbox := read_only | workspace_write | danger_full_access.

Definition sandboxName (s : Sandbox) : jsstring :=
  match s with
  | read_only => js "read-only"
  | workspace_write => js "workspace-write"
  | danger_full_access => js "danger-full-access"
  end.

(** [if (this.opts.model) args.push("--model", this.opts.model)] *)
Definition modelArgs (model : option jsstring) : list jsstring :=
  match model with
  | Some m => if truthy m then [js "--model"; m] else []
  | None => []
  end.

(** [if (this.opts.additionalFlags) args.push(...this.opts.additionalFlags)] *)
Definition additionalArgs (flags : option (list jsstring)) : list jsstring :=
  match flags with Some fs => fs | None => [] end.

Record CodexAdapterOptions := mkCodexAdapterOptions {
  cx_model : option jsstring;
  cx_sandbox : option Sandbox;
  cx_additionalFlags : option (list jsstring)
}.

Record OpenCodeAdapterOptions := mkOpenCodeAdapterOptions {
  oc_model : option jsstring;
  oc_additionalFlags : option (list jsstring)
}.

Definition CodexAdapter (opts : CodexAdapterOptions) : AgentAdapter :=
  {| name := js "codex";
     displayName := js "Codex CLI";
     command := js "codex";
     checkInstalled := fun sh => exitCode (sh (js "codex --version")) =? 0;
     buildCommand := fun prompt cwd =>
       let sandbox :=
         match cx_sandbox opts with
         | Some s => sandboxName s
         | None => js "workspace-write"
         end in
       let args := [js "exec"; js "--full-auto"; js "--sandbox"; sandbox] in
       let args := args ++ modelArgs (cx_model opts) in
       let args := args ++ additionalArgs (cx_additionalFlags opts) in
       let args := args ++ [prompt] in
       mkSpawnConfig (js "codex") args cwd DEFAULT_TIMEOUT |}.

Definition OpenCodeAdapter (opts : OpenCodeAdapterOptions) : AgentAdapter :=
  {| name := js "opencode";
     displayName := js "OpenCode";
     command := js "opencode";
     checkInstalled := fun sh => exitCode (sh (js "opencode --version")) =? 0;
     buildCommand := fun prompt cwd =>
       let args := [js "run"] in
       let args := args ++ modelArgs (oc_model opts) in
       let args := args ++ additionalArgs (oc_additionalFlags opts) in
       let args := args ++ [prompt] in
       mkSpawnConfig (js "opencode") args cwd DEFAULT_TIMEOUT |}.

Section WithNumber.

(** The numbers of the configuration ([maxTurns] and [maxBudgetUsd] are
    any positive number) and [String] on them. *)
Context {number : Type} (stringOf : number -> jsstring).

Record ClaudeAdapterOptions := mkClaudeAdapterOptions {
  cl_model : option jsstring;
  cl_maxTurns : option number;
  cl_maxBudgetUsd : option number;
  cl_additionalFlags : option (list jsstring)
}.

Definition ClaudeAdapter (opts : ClaudeAdapterOptions) : AgentAdapter :=
  {| name := js "claude";
     displayName := js "Claude Code";
     command := js "claude";
     checkInstalled := fun sh => exitCode (sh (js "claude --version")) =? 0;
     buildCommand := fun prompt cwd =>
       let args :=
         [js "-p"; js "--dangerously-skip-permissions"; js "--verbose"] in
       let args := args ++ modelArgs (cl_model opts) in
       let args :=
         match cl_maxTurns opts with
         | Some n => args ++ [js "--max-turns"; stringOf n]
         | None => args
         end in
       let args := args ++ additionalArgs (cl_additionalFlags opts) in
       let args := args ++ [prompt] in
       mkSpawnConfig (js "claude") args cwd DEFAULT_TIMEOUT |}.

(** [config.agentOptions] *)
Record AgentOptions := mkAgentOptions {
  ao_codex : option CodexAdapterOptions;
  ao_claude : option ClaudeAdapterOptions;
  ao_opencode : option OpenCodeAdapterOptions
}.

Definition unknownAgent (agentName : jsstring) : jsstring :=
  js "Unknown agent: " ++ Prompt.dquote ++ agentName ++ Prompt.dquote
    ++ js ". Supported agents: claude, codex, opencode".

(** [getAdapter]: [opts] is [config?.agentOptions]; [inl] is the message
    of the error thrown. *)
Definition getAdapter (agentName : jsstring) (opts : option AgentOptions)
    : jsstring + AgentAdapter :=
  if bool_decide (agentName = js "claude") then
    inr (ClaudeAdapter
           (default (mkClaudeAdapterOptions None None None None)
                    (opts ≫= ao_claude)))
  else if bool_decide (agentName = js "codex") then
    inr (CodexAdapter
           (default (mkCodexAdapterOptions None None None)
                    (opts ≫= ao_codex)))
  else if bool_decide (agentName = js "opencode") then
    inr (OpenCodeAdapter
           (default (mkOpenCodeAdapterOptions None None)
                    (opts ≫= ao_opencode)))
  else inl (unknownAgent agentName).

End WithNumber.

End Agents.

(* ===================================================================== *)
(** ** Executing a run in the daemon (ralphd/src/index.ts, executeRun) *)
(* ===================================================================== *)

Module Executor.

Import Db Queue Runner.

Section WithEnv.

(** [payloadOf] is the JSON object a loop event's payload is spread into,
    after the iteration number. *)
Context (env : Env) (payloadOf : LoopPayload -> Payload).

(** The options [executeRun] hands to [runTaskLoop]: the task override of
    the run wins over the thread's task, and git checkpoints are off. *)
Definition loopOptions (thread : ThreadRecord) (run : RunRecord)
    : RunTaskOptions :=
  {| o_task :=
       match r_taskOverride (run_row run) with
       | Some task => task
       | None => th_task (thread_row thread)
       end;
     o_validate := th_validate (thread_row thread);
     o_maxIterations := r_maxIterations (run_row run);
     o_progressFile := js "ralph-progress-" ++ thread_id thread ++ js ".md";
     failureContextMaxChars := 4000;
     gitCheckpoint := false;
     dryRun := false;
     delay := 0;
     o_prdTask := None;
     o_prdName := None;
     o_prdDescription := None;
     o_completedTasks := None |}.

(** The [onEvent] callback of the loop: one journal entry per event. *)
Definition onLoopEvent (thread : ThreadRecord) (run : RunRecord)
    (e : LoopEvent) (d : Database) : Database :=
  emitEvent env (thread_id thread) (Some (run_id run)) (ev_loop (e_type e))
            ((js "iteration", JNum (e_iteration e)) :: payloadOf (e_payload e))
            d.

(** What [executeRun] does once the loop has returned [result];
    [signalAborted] is [signal.aborted] at that moment.  Nothing here
    awaits, so it runs in one piece. *)
Definition executeRunEnd (thread : ThreadRecord) (run : RunRecord)
    (signalAborted : bool) (result : LoopResult) (d : Database) : Database :=
  if signalAborted || cancelled result then
    let '(now, d) := Date_now env d in
    let d := updateRunStatus env (run_id run) Cancelled
               (mkRunUpdates (Some (iterations result)) None None (Some now))
               d in
    emitEvent env (thread_id thread) (Some (run_id run)) run_cancelled
              [(js "iterations", JNum (iterations result))] d
  else if success result then
    let '(now, d) := Date_now env d in
    let d := updateRunStatus env (run_id run) Completed
               (mkRunUpdates (Some (iterations result)) None None (Some now))
               d in
    emitEvent env (thread_id thread) (Some (run_id run)) run_completed
              [(js "iterations", JNum (iterations result))] d
  else
    let '(now, d) := Date_now env d in
    let d := updateRunStatus env (run_id run) Failed
               (mkRunUpdates (Some (iterations result))
                             (Some (js "Loop ended before completion")) None
                             (Some now)) d in
    emitEvent env (thread_id thread) (Some (run_id run)) run_failed
              [ (js "iterations", JNum (iterations result));
                (js "message", JStr (js "Loop ended before completion")) ] d.

(** The events among the actions of a loop run, in order. *)
Definition loopEvents (acts : list Action) : list LoopEvent :=
  omap (fun a => match a with Emit e => Some e | _ => None end) acts.

(** [executeRun] from start to end, for a loop that sees the world [w],
    with nothing else writing to the database in between. *)
Definition executeRun (w : World) (signalAborted : bool) (run : RunRecord)
    (st : State) : State :=
  match getThread (r_threadId (run_row run)) (db st) with
  | None => executeRunStart env run st
  | Some thread =>
      let loop := runTaskLoop (loopOptions thread run) w in
      with_db (fun d =>
        let d := fold_left (fun d e => onLoopEvent thread run e d)
                           (loopEvents (actions loop)) d in
        executeRunEnd thread run signalAborted (result loop) d) st
  end.

End WithEnv.

End Executor.

(* ===================================================================== *)
(** ** Creating and controlling runs over HTTP (ralphd/src/index.ts) *)
(* ===================================================================== *)

Module Control.

Import Db Queue.



Inductive Body :=
| ErrorBody (message : jsstring)
| SchemaError
| OkBody
| RunBody (run : RunRecord).

Record Response := mkResponse {
  status : Z;
  body : Body
}.



Section WithQueue.

Context (env : Env) (maxConcurrent : jsnumber).



End WithQueue.

End Control.

(* ===================================================================== *)
(** ** Git helpers (utils/git.ts) *)
(* ===================================================================== *)

Module Git.

(** One invocation of the git binary: the working directory and the
    arguments. *)
Record Call := mkCall {
  call_cwd : jsstring;
  call_args : list jsstring
}.

(** Git is an oracle: the result of an invocation, given the invocations
    made before it. *)
Definition World := list Call -> Call -> SpawnResult.

(** Computations that invoke git: they extend the list of invocations. *)
Definition M (A : Type) : Type := list Call -> A * list Call.

Global Instance M_ret : MRet M := fun A (x : A) calls => (x, calls).

Global Instance M_bind : MBind M := fun A B (f : A -> M B) (m : M A) calls =>
  let '(x, calls) := m calls in f x calls.

(** [git(cwd, ...args)] *)
Definition git (w : World) (cwd : jsstring) (args : list jsstring)
    : M SpawnResult :=
  fun calls => (w calls (mkCall cwd args), calls ++ [mkCall cwd args]).

Definition isGitRepo (w : World) (cwd : jsstring) : M bool :=
  result ← git w cwd [js "rev-parse"; js "--is-inside-work-tree"];
  mret ((exitCode result =? 0)
        && bool_decide (trim (stdout result) = js "true")).

Definition ensureGitRepo (w : World) (cwd : jsstring) : M unit :=
  inside ← isGitRepo w cwd;
  if negb inside then _ ← git w cwd [js "init"]; mret tt else mret tt.

Definition isClean (w : World) (cwd : jsstring) : M bool :=
  result ← git w cwd [js "status"; js "--porcelain"];
  mret ((exitCode result =? 0) && negb (truthy (trim (stdout result)))).

Definition commitAll (w : World) (cwd message : jsstring) : M bool :=
  addResult ← git w cwd [js "add"; js "-A"];
  if negb (exitCode addResult =? 0) then mret false
  else
    clean ← isClean w cwd;
    if (clean : bool) then mret true
    else
      commitResult ← git w cwd [js "commit"; js "-m"; message];
      mret (exitCode commitResult =? 0).

Definition createBranch (w : World) (cwd branchName : jsstring) : M bool :=
  clean ← isClean w cwd;
  _ ← (if negb clean
       then _ ← commitAll w cwd (js "ralph: snapshot before loop start");
            mret tt
       else mret tt);
  result ← git w cwd [js "checkout"; js "-b"; branchName];
  mret (exitCode result =? 0).

Definition currentBranch (w : World) (cwd : jsstring) : M (option jsstring) :=
  result ← git w cwd [js "rev-parse"; js "--abbrev-ref"; js "HEAD"];
  mret (if negb (exitCode result =? 0) then None
        else Some (trim (stdout result))).

Definition revertToLastCommit (w : World) (cwd : jsstring) : M bool :=
  resetResult ← git w cwd [js "checkout"; js "--"; js "."];
  cleanResult ← git w cwd [js "clean"; js "-fd"];
  mret ((exitCode resetResult =? 0) && (exitCode cleanResult =? 0)).

Definition headSha (w : World) (cwd : jsstring) : M (option jsstring) :=
  result ← git w cwd [js "rev-parse"; js "--short"; js "HEAD"];
  mret (if negb (exitCode result =? 0) then None
        else Some (trim (stdout result))).

End Git.

(* ===================================================================== *)
(** ** Running the tasks of a PRD (cli.ts, ralph run) *)
(* ===================================================================== *)

Module Cli.

Import Prompt Runner Prd.

(** What the loop over the tasks leaves behind for one task: the options
    its loop was called with and the loop's run. *)
Record TaskRun := mkTaskRun {
  tr_task : Prd.ResolvedTask;
  tr_options : RunTaskOptions;
  tr_run : Run
}.

Section WithConfig.

(** The resolved configuration as far as the loop reads it, the
    [--dry-run] flag, the PRD, and the world the loop of the k-th task
    that is run sees. *)
Context (progressFile : jsstring) (failureContextMaxChars : Z)
        (gitCheckpoint : bool) (delay : Z) (dryRun : bool) (prd : Prd)
        (worldOf : nat -> World).

Definition taskOptions (task : Prd.ResolvedTask)
    (completedTasks : list CompletedTask) : RunTaskOptions :=
  {| o_task := rt_description task;
     o_validate := rt_validate task;
     o_maxIterations := rt_maxIterations task;
     o_progressFile := progressFile;
     Runner.failureContextMaxChars := failureContextMaxChars;
     Runner.gitCheckpoint := gitCheckpoint;
     Runner.dryRun := dryRun;
     Runner.delay := delay;
     o_prdTask := Some (toPromptTask task);
     o_prdName := Some (prd_name prd);
     o_prdDescription := Some (prd_description prd);
     o_completedTasks := Some completedTasks |}.

(** The [for] loop over [activeTasks]: [k] tasks have been run,
    [completedTasks] is the array as it stands.  The result is
    [allSucceeded], the array at the end and the runs made. *)
Fixpoint runActive (k : nat) (completedTasks : list CompletedTask)
    (todo : list Prd.ResolvedTask)
    : bool * list CompletedTask * list TaskRun :=
  match todo with
  | [] => (true, completedTasks, [])
  | task :: rest =>
      let options := taskOptions task completedTasks in
      let run := runTaskLoop options (worldOf k) in
      if success (result run) then
        let completedTasks :=
          completedTasks ++ [mkCompletedTask (rt_id task) (rt_name task)] in
        let '(allSucceeded, completedTasks, runs) :=
          runActive (S k) completedTasks rest in
        (allSucceeded, completedTasks, mkTaskRun task options run :: runs)
      else (false, completedTasks, [mkTaskRun task options run])
  end.

(** PRD mode from [resolveTasks] on: the exit code of the process, the
    completed tasks and the runs made.  An error thrown by [resolveTasks]
    is caught and ends the process with code 1. *)
Definition runPrd : Z * list CompletedTask * list TaskRun :=
  match resolveTasks prd with
  | inl _ => (1, [], [])
  | inr tasks =>
      let activeTasks := List.filter (fun t => negb (rt_skip t)) tasks in
      let '(allSucceeded, completedTasks, runs) :=
        runActive 0 [] activeTasks in
      (if allSucceeded then 0 else 1, completedTasks, runs)
  end.

End WithConfig.

End Cli.

(* ===================================================================== *)
(** ** Creating a thread (ralphd/src/db.ts and index.ts, POST /threads) *)
(* ===================================================================== *)

Module Threads.

Import Db.

Record CreateThreadInput := mkCreateThreadInput {
  ci_id : option jsstring;
  ci_name : jsstring;
  ci_task : jsstring;
  ci_repoPath : jsstring;
  ci_baseRepoPath : jsstring;
  ci_worktreePath : option jsstring;
  ci_branchName : option jsstring;
  ci_agent : AgentName;
  ci_validate : list jsstring
}.

(** [createThread] of db.ts.  The thread id is the primary key of the
    table: when a row with the id exists, the INSERT throws and the
    result is [None]. *)
Definition createThread (env : Env) (input : CreateThreadInput) (d : Database)
    : option ThreadRecord * Database :=
  let '(now, d) := Date_now env d in
  let '(id, d) :=
    match ci_id input with
    | Some id => (id, d)
    | None => randomUUID env d
    end in
  if bool_decide (is_Some (threads d !! id)) then (None, d)
  else
    let row :=
      mkThreadRow (ci_name input) (ci_task input) (ci_repoPath input)
                  (ci_baseRepoPath input) (ci_worktreePath input)
                  (ci_branchName input) (ci_agent input) (ci_validate input)
                  now now in
    let d := with_threads (insert id row) d in
    (getThread id d, d).

(** [updateThreadWorktree] of db.ts. *)
Definition updateThreadWorktree (env : Env) (threadId worktreePath
    branchName : jsstring) (d : Database) : option ThreadRecord * Database :=
  let '(now, d) := Date_now env d in
  let d :=
    with_threads
      (alter (fun t =>
         mkThreadRow (th_name t) (th_task t) (th_repoPath t)
                     (th_baseRepoPath t) (Some worktreePath) (Some branchName)
                     (th_agent t) (th_validate t) (th_createdAt t) now)
         threadId) d in
  (getThread threadId d, d).

(** A request body of the shape of [CreateThreadRequest]. *)
Record CreateThreadRequest := mkCreateThreadRequest {
  tq_name : jsstring;
  tq_task : jsstring;
  tq_repoPath : jsstring;
  tq_agent : option AgentName;
  tq_validate : option (list jsstring)
}.

(** [createThreadSchema]: three non-empty strings, and validation
    commands that are non-empty strings. *)
Definition createThreadSchemaAccepts (b : CreateThreadRequest) : bool :=
  truthy (tq_name b) && truthy (tq_task b) && truthy (tq_repoPath b)
  && match tq_validate b with
     | Some commands => forallb truthy commands
     | None => true
     end.

Inductive Body :=
| ErrorBody (message : jsstring)
| SchemaError
| InsertError
| ThreadBody (thread : ThreadRecord).

Record Response := mkResponse {
  status : Z;
  body : Body
}.

Section WithPaths.

(** [resolvePath] is [path.resolve] on the requested path; [showPath]
    writes a resolved path as the string the worktree code returns. *)
Context (env : Env) (resolvePath : jsstring -> jsstring)
        (showPath : Worktree.path -> jsstring).

(** POST /threads.  [request] is [None] when the body is not JSON of the
    shape above.  The worktree is set up in the world [git]. *)
Definition postThread (git : Worktree.World)
    (request : option CreateThreadRequest) (d : Database)
    : Response * Database :=
  match request with
  | None => (mkResponse 400 SchemaError, d)
  | Some b =>
      if negb (createThreadSchemaAccepts b) then (mkResponse 400 SchemaError, d)
      else
        let requestedRepoPath := resolvePath (tq_repoPath b) in
        let '(threadId, d) := randomUUID env d in
        match (Worktree.createThreadWorktree git requestedRepoPath threadId).1
        with
        | inl message => (mkResponse 400 (ErrorBody message), d)
        | inr workspace =>
            let created :=
              createThread env
                (mkCreateThreadInput (Some threadId) (tq_name b) (tq_task b)
                   (showPath (Worktree.repoRoot workspace))
                   (showPath (Worktree.repoRoot workspace))
                   (Some (showPath (Worktree.worktreePath workspace)))
                   (Some (Worktree.branchName workspace))
                   (match tq_agent b with Some a => a | None => claude end)
                   (match tq_validate b with
                    | Some commands => commands
                    | None => [js "bun test"]
                    end)) d in
            match created with
            | (None, d) => (mkResponse 400 InsertError, d)
            | (Some thread, d) =>
                let row := thread_row thread in
                let d := emitEvent env (thread_id thread) None thread_created
                           [(js "name", JStr (th_name row))] d in
                let d := emitEvent env (thread_id thread) None
                           thread_worktree_created
                           ((js "repoRoot", JStr (th_baseRepoPath row))
                              :: match th_worktreePath row with
                                 | Some p => [(js "worktreePath", JStr p)]
                                 | None => []
                                 end
                              ++ match th_branchName row with
                                 | Some n => [(js "branchName", JStr n)]
                                 | None => []
                                 end) d in
                (mkResponse 201 (ThreadBody thread), d)
            end
        end
  end.

End WithPaths.

End Threads.

(* ===================================================================== *)
(** * Properties *)
(* ===================================================================== *)

(** ** Strings *)

Section StringFacts.

Lemma length_js_marker : length Validator.truncatedMarker = 15%nat.
Proof. reflexivity. Qed.

(** The last [n] code units of a string. *)
Definition lastChars (n : nat) (s : jsstring) : jsstring :=
  drop (length s - n) s.

Lemma length_lastChars n (s : jsstring) :
  length (lastChars n s) = Nat.min n (length s).
Proof. unfold lastChars. rewrite length_drop. lia. Qed.

Lemma slice_from_keeps_tail (s : jsstring) (maxChars : Z) :
  maxChars < Z.of_nat (length s) ->
  slice_from s (Z.of_nat (length s) - maxChars + 20)
  = lastChars (Z.to_nat (maxChars - 20)) s.
Proof.
  intros Hlt. unfold slice_from, lastChars.
  destruct (Z.ltb_spec (Z.of_nat (length s) - maxChars + 20) 0) as [Hneg|Hpos];
    [lia|].
  f_equal. lia.
Qed.

End StringFacts.

(** ** The validator *)

Section ValidatorFacts.

Import Validator.

Lemma formatFailureContext_truncated (report : ValidationReport) (maxChars : Z) :
  allPassed report = false ->
  maxChars < Z.of_nat (length (failureText report)) ->
  formatFailureContext report maxChars
  = truncatedMarker
      ++ lastChars (Z.to_nat (maxChars - 20)) (failureText report).
Proof.
  intros Hfail Hlong. unfold formatFailureContext. rewrite Hfail.
  destruct (Z.gtb_spec (Z.of_nat (length (failureText report))) maxChars)
    as [_|Hle]; [|lia].
  cbv zeta. by rewrite slice_from_keeps_tail.
Qed.

Lemma formatFailureContext_short (report : ValidationReport) (maxChars : Z) :
  allPassed report = false ->
  Z.of_nat (length (failureText report)) <= maxChars ->
  formatFailureContext report maxChars = failureText report.
Proof.
  intros Hfail Hshort. unfold formatFailureContext. rewrite Hfail.
  destruct (Z.gtb_spec (Z.of_nat (length (failureText report))) maxChars)
    as [Hgt|_]; [lia|done].
Qed.

(** The report of the example below: one command, which fails. *)
Definition failingReport : ValidationReport :=
  runValidations [js "npm test"]
    (fun _ => mkSpawnResult [] (js "TypeError: x is not a function") 1 100).

(** C3.  The bound of the claim, a formatted length of at most [maxChars],
    is what the function's own comment promises ("Truncated to maxChars"),
    and the code misses it for small caps: with a cap of 5 characters a
    failing report is formatted to the 15 characters of the truncation
    marker. *)
Lemma formatFailureContext_exceeds_small_cap :
  0 < 5
  /\ allPassed failingReport = false
  /\ formatFailureContext failingReport 5 = truncatedMarker
  /\ ~ (Z.of_nat (length (formatFailureContext failingReport 5)) <= 5).
Proof. vm_compute. repeat split; try done. Qed.

(** What the code does guarantee.  For the report [runValidations] builds,
    the score is the number of results that passed.  An all-pass report
    formats to the empty string.  A failing report is returned whole when
    it fits [maxChars]; when it does not, the result is the marker followed
    by the last [maxChars - 20] characters of the text (none when
    [maxChars <= 20]), and its length is at most [maxChars] provided
    [maxChars] is at least the 15 characters of the marker. *)
Theorem validator_score_and_failure_context
    (commands : list jsstring) (sh : jsstring -> SpawnResult) (maxChars : Z) :
  0 < maxChars ->
  let report := runValidations commands sh in
  scoreValidation report
    = Z.of_nat (length (List.filter passed (results report)))
  /\ (allPassed report = true -> formatFailureContext report maxChars = [])
  /\ (allPassed report = false ->
        (Z.of_nat (length (failureText report)) <= maxChars ->
           formatFailureContext report maxChars = failureText report)
        /\ (maxChars < Z.of_nat (length (failureText report)) ->
              formatFailureContext report maxChars
              = truncatedMarker
                  ++ lastChars (Z.to_nat (maxChars - 20)) (failureText report))
        /\ (15 <= maxChars ->
              Z.of_nat (length (formatFailureContext report maxChars))
                <= maxChars)).
Proof.
  intros Hpos report. split; [reflexivity|]. split.
  - intros Hall. unfold formatFailureContext. by rewrite Hall.
  - intros Hfail. split; [|split].
    + by apply formatFailureContext_short.
    + by apply formatFailureContext_truncated.
    + intros Hcap.
      destruct (Z.le_gt_cases (Z.of_nat (length (failureText report))) maxChars)
        as [Hshort|Hlong].
      * by rewrite formatFailureContext_short.
      * rewrite formatFailureContext_truncated by done.
        rewrite length_app, length_js_marker, length_lastChars. lia.
Qed.

Lemma validator_score_and_failure_context_witness :
  0 < 20
  /\ allPassed failingReport = false
  /\ scoreValidation failingReport = 0
  /\ Z.of_nat (length (formatFailureContext failingReport 20)) <= 20.
Proof.
  pose proof (validator_score_and_failure_context
                [js "npm test"]
                (fun _ => mkSpawnResult [] (js "TypeError: x is not a function") 1 100)
                20 ltac:(lia)) as [Hscore [_ Hfail]].
  split; [lia|]. split; [reflexivity|]. split; [exact Hscore|].
  apply Hfail; [reflexivity|lia].
Defined.

End ValidatorFacts.

(** ** Ordered containment *)

(** [in_order pieces s]: the pieces occur in [s] one after the other,
    without overlap, in the order of the list. *)
Inductive in_order : list (list N) -> list N -> Prop :=
| in_order_nil s : in_order [] s
| in_order_cons p ps a r :
    in_order ps r -> in_order (p :: ps) (a ++ p ++ r).

(** The decision procedure: take the leftmost occurrence of each piece. *)
Fixpoint in_order_b (pieces : list (list N)) (s : jsstring) : bool :=
  match pieces with
  | [] => true
  | p :: ps =>
      match find_after p s with
      | Some r => in_order_b ps r
      | None => false
      end
  end.

Section OrderFacts.

Lemma strip_prefix_app (p r : jsstring) : strip_prefix p (p ++ r) = Some r.
Proof.
  induction p as [|c p IH]; [by destruct r|].
  simpl. by rewrite N.eqb_refl.
Qed.

Lemma strip_prefix_Some (p s r : jsstring) :
  strip_prefix p s = Some r -> s = p ++ r.
Proof.
  revert s. induction p as [|c p IH]; intros s H.
  - simpl in H. by injection H as ->.
  - destruct s as [|b s]; simpl in H; [done|].
    destruct (N.eqb_spec c b) as [->|]; [|done].
    simpl. f_equal. by apply IH.
Qed.

Lemma find_after_Some (p s r : jsstring) :
  find_after p s = Some r -> exists a, s = a ++ p ++ r.
Proof.
  induction s as [|c s IH]; simpl.
  - destruct (strip_prefix p []) eqn:E; [|done].
    intros [= ->]. exists []. simpl. by apply strip_prefix_Some.
  - destruct (strip_prefix p (c :: s)) eqn:E.
    + intros [= ->]. exists []. simpl. by apply strip_prefix_Some.
    + intros H. destruct (IH H) as [a ->]. by exists (c :: a).
Qed.

Lemma find_after_here (p s r : jsstring) :
  strip_prefix p s = Some r -> find_after p s = Some r.
Proof. intros H. destruct s; simpl; by rewrite H. Qed.

(** The leftmost occurrence leaves the longest remainder. *)
Lemma find_after_leftmost (p a r : jsstring) :
  exists m, find_after p (a ++ p ++ r) = Some (m ++ r).
Proof.
  induction a as [|c a [m IH]].
  - exists []. simpl. apply find_after_here, strip_prefix_app.
  - simpl. destruct (strip_prefix p (c :: a ++ p ++ r)) as [r1|] eqn:E.
    + apply strip_prefix_Some in E.
      exists (take (length (c :: a)) r1).
      f_equal.
      assert (Hr1 : r1 = drop (length p) (c :: a ++ p ++ r)).
      { rewrite E. by rewrite drop_app_length. }
      assert (Hr : r = drop (length (c :: a)) r1).
      { rewrite Hr1, drop_drop.
        change (c :: a ++ p ++ r) with ((c :: a) ++ p ++ r).
        rewrite app_assoc.
        replace (length p + length (c :: a))%nat
          with (length ((c :: a) ++ p)) by (rewrite length_app; lia).
        by rewrite drop_app_length. }
      rewrite Hr at 1. by rewrite take_drop.
    + exists m. exact IH.
Qed.

Lemma in_order_b_extend (ps : list (list N)) (m r : jsstring) :
  in_order_b ps r = true -> in_order_b ps (m ++ r) = true.
Proof.
  revert m r. induction ps as [|p ps IH]; intros m r; [done|].
  simpl. destruct (find_after p r) as [t|] eqn:E; [|done].
  intros Ht. destruct (find_after_Some _ _ _ E) as [a ->].
  rewrite app_assoc.
  destruct (find_after_leftmost p (m ++ a) t) as [m' ->].
  by apply IH.
Qed.

Lemma in_order_b_complete (ps : list (list N)) (s : jsstring) :
  in_order ps s -> in_order_b ps s = true.
Proof.
  induction 1 as [|p ps a r _ IH]; [done|].
  simpl. destruct (find_after_leftmost p a r) as [m ->].
  by apply in_order_b_extend.
Qed.

Lemma in_order_b_sound (ps : list (list N)) (s : jsstring) :
  in_order_b ps s = true -> in_order ps s.
Proof.
  revert s. induction ps as [|p ps IH]; intros s; [constructor|].
  simpl. destruct (find_after p s) as [r|] eqn:E; [|done].
  intros Hr. destruct (find_after_Some _ _ _ E) as [a ->].
  constructor. by apply IH.
Qed.

Lemma in_order_prepend (ps : list (list N)) (x s : jsstring) :
  in_order ps s -> in_order ps (x ++ s).
Proof.
  destruct 1 as [|p ps a r H]; [constructor|].
  rewrite app_assoc. by constructor.
Qed.

Lemma in_order_head (p : list N) (ps : list (list N)) (r : jsstring) :
  in_order ps r -> in_order (p :: ps) (p ++ r).
Proof. intros H. by apply (in_order_cons p ps [] r). Qed.

Lemma in_order_join (sep : jsstring) (l : list (list N)) :
  in_order l (join sep l).
Proof.
  induction l as [|p [|q l] IH].
  - constructor.
  - simpl. rewrite <- (app_nil_r p) at 2. apply in_order_head. constructor.
  - change (join sep (p :: q :: l)) with (p ++ sep ++ join sep (q :: l)).
    apply in_order_head. by apply in_order_prepend.
Qed.

Lemma join_snoc_suffix (sep : jsstring) (l : list (list N)) (x : list N) :
  exists pre, join sep (l ++ [x]) = pre ++ x.
Proof.
  induction l as [|p l [pre IH]].
  - by exists [].
  - destruct l as [|q l].
    + exists (p ++ sep). simpl. by rewrite <- app_assoc.
    + exists (p ++ sep ++ pre).
      change (join sep ((p :: q :: l) ++ [x]))
        with (p ++ sep ++ join sep ((q :: l) ++ [x])).
      rewrite IH. by rewrite <- !app_assoc.
Qed.

End OrderFacts.

(** ** The prompt builder *)

Section PromptFacts.

Import Prompt.

Lemma in_order_app (l1 l2 : list (list N)) (s1 s2 : jsstring) :
  in_order l1 s1 -> in_order l2 s2 -> in_order (l1 ++ l2) (s1 ++ s2).
Proof.
  induction 1 as [s|p ps a r _ IH]; intros H2.
  - by apply in_order_prepend.
  - simpl. rewrite <- !app_assoc. constructor. by apply IH.
Qed.

Lemma in_order_append (l : list (list N)) (s y : jsstring) :
  in_order l s -> in_order l (s ++ y).
Proof.
  intros H. rewrite <- (app_nil_r l).
  apply in_order_app; [done|constructor].
Qed.

Lemma in_order_single (p : list N) : in_order [p] p.
Proof. rewrite <- (app_nil_r p) at 2. apply in_order_head. constructor. Qed.

(** The order the sentence of the specification gives: the task first,
    then the project header. *)
Definition claimedOrder (ctx : PromptContext) : list (list N) :=
  [taskSection ctx]
  ++ match prdTask ctx with
     | Some t => [buildPrdHeader ctx t; criteriaSection t]
     | None => []
     end
  ++ [rulesSection ctx; progressSection ctx]
  ++ (if wasReverted ctx then [revertWarning] else [])
  ++ match lastFailureOutput ctx with
     | Some out => [failureSectionOf out]
     | None => []
     end
  ++ [completionSection ctx].

(** The order the code produces: the project header comes before the
    task. *)
Definition expectedOrder (ctx : PromptContext) : list (list N) :=
  match prdTask ctx with
  | Some t => [buildPrdHeader ctx t]
  | None => []
  end
  ++ [taskSection ctx]
  ++ match prdTask ctx with
     | Some t =>
         match acceptanceCriteria t with
         | [] => []
         | _ :: _ => [criteriaSection t]
         end
     | None => []
     end
  ++ [rulesSection ctx; progressSection ctx]
  ++ (if wasReverted ctx then [revertWarning] else [])
  ++ match lastFailureOutput ctx with
     | Some (c :: out) => [failureSectionOf (c :: out)]
     | _ => []
     end
  ++ [completionSection ctx].

(** What the progress section shows: the file's content, or the notice. *)
Definition progressShown (ctx : PromptContext) : jsstring :=
  if exists_ (progress ctx) && truthy (trim (content (progress ctx)))
  then content (progress ctx)
  else firstIterationNotice.

Definition prdExample : ResolvedTask :=
  {| t_id := js "auth";
     t_name := js "Add Authentication";
     acceptanceCriteria := [js "Users can log in"; js "JWT tokens returned"];
     t_index := 2;
     t_total := 5 |}.

Definition prdContext : PromptContext :=
  {| task := js "Implement user authentication with JWT";
     iteration := 1;
     maxIterations := 50;
     progress := {| content := []; exists_ := false |};
     validationCommands := [js "npm test"; js "tsc --noEmit"];
     completionPromise := js "RALPH_COMPLETE_test1234";
     progressFile := js "ralph-progress.md";
     lastFailureOutput := None;
     wasReverted := false;
     prdTask := Some prdExample;
     prdName := Some (js "E-Commerce Platform");
     prdDescription := Some (js "Building a full e-commerce solution");
     completedTasks := None |}.

(** C4, as stated, fails in PRD mode: the prompt does not contain the task
    followed by the project header, because the header is the first
    section. *)
Lemma buildPrompt_header_not_after_task :
  prdTask prdContext = Some prdExample
  /\ ~ in_order [task prdContext; projectLine prdContext]
                (buildPrompt prdContext)
  /\ ~ in_order (claimedOrder prdContext) (buildPrompt prdContext)
  /\ in_order [projectLine prdContext; task prdContext]
              (buildPrompt prdContext).
Proof.
  split; [reflexivity|]. split; [|split].
  - intros H. apply in_order_b_complete in H. vm_compute in H. discriminate.
  - intros H. apply in_order_b_complete in H. vm_compute in H. discriminate.
  - apply in_order_b_sound. vm_compute. reflexivity.
Qed.

Lemma promptSections_expected (ctx : PromptContext) :
  promptSections ctx = expectedOrder ctx.
Proof.
  unfold promptSections, expectedOrder.
  destruct (prdTask ctx) as [t|]; [destruct (acceptanceCriteria t)|];
    destruct (wasReverted ctx);
    destruct (lastFailureOutput ctx) as [[|c out]|]; reflexivity.
Qed.

Lemma join_imap_in_order {A} (sep : jsstring) (f : nat -> A -> list N)
    (l : list A) :
  in_order (imap f l) (join sep (imap f l)).
Proof. apply in_order_join. Qed.

(** Skip segments of a concatenation until its head is the next piece. *)
Ltac find_piece :=
  first [ apply in_order_head
        | apply in_order_single
        | apply in_order_prepend; find_piece ].

Lemma rulesSection_names (ctx : PromptContext) :
  in_order ([iterationLine ctx; progressFile ctx]
              ++ imap numberedCommand (validationCommands ctx))
           (rulesSection ctx).
Proof.
  unfold rulesSection. find_piece. find_piece.
  do 14 apply in_order_prepend.
  apply in_order_append, in_order_join.
Qed.

Lemma buildPrdHeader_names (ctx : PromptContext) (t : ResolvedTask) :
  in_order [projectLine ctx; positionLine t] (buildPrdHeader ctx t).
Proof.
  unfold buildPrdHeader.
  destruct (prdDescription ctx) as [d|]; [destruct (truthy d)|];
    destruct (completedTasks ctx) as [[|c cs]|];
    destruct (t_index t <? t_total t);
    cbn [join app]; find_piece; find_piece; constructor.
Qed.

(** C4 (amended).  The prompt contains, in this order: in PRD mode the
    project header; the task; in PRD mode with at least one criterion the
    numbered acceptance criteria; the rules block, which names iteration i
    of N, the progress file and the numbered validation commands; the
    progress section, showing the prior progress or the first-iteration
    notice; the revert warning when [wasReverted] is set; the prior-failure
    block when [lastFailureOutput] is a non-empty string; and it ends with
    the completion instruction, which contains the completion secret. *)
Theorem buildPrompt_order (ctx : PromptContext) :
  in_order (expectedOrder ctx) (buildPrompt ctx)
  /\ (exists before, buildPrompt ctx = before ++ completionSection ctx)
  /\ in_order [task ctx] (taskSection ctx)
  /\ (forall t, prdTask ctx = Some t ->
        in_order [projectLine ctx; positionLine t] (buildPrdHeader ctx t)
        /\ in_order (imap numbered (acceptanceCriteria t)) (criteriaSection t))
  /\ in_order ([iterationLine ctx; progressFile ctx]
                 ++ imap numberedCommand (validationCommands ctx))
              (rulesSection ctx)
  /\ in_order [progressShown ctx] (progressSection ctx)
  /\ (forall out, in_order [out] (failureSectionOf out))
  /\ in_order [completionPromise ctx] (completionSection ctx).
Proof.
  repeat split.
  - unfold buildPrompt. rewrite promptSections_expected. apply in_order_join.
  - unfold buildPrompt, promptSections.
    match goal with
    | |- context [join _ (?l ++ [completionSection ctx])] =>
        apply (join_snoc_suffix (nl ++ nl) l (completionSection ctx))
    end.
  - unfold taskSection. find_piece; constructor.
  - apply buildPrdHeader_names.
  - unfold criteriaSection. do 2 apply in_order_prepend. apply in_order_join.
  - apply rulesSection_names.
  - unfold progressSection, progressShown.
    destruct (exists_ (progress ctx) && truthy (trim (content (progress ctx))));
      repeat apply in_order_prepend; apply in_order_single.
  - intros out. unfold failureSectionOf. repeat apply in_order_prepend.
    apply in_order_single.
  - unfold completionSection. find_piece. constructor.
Qed.

Lemma buildPrompt_order_witness :
  prdTask prdContext = Some prdExample
  /\ in_order [projectLine prdContext; positionLine prdExample]
              (buildPrdHeader prdContext prdExample)
  /\ in_order
       [buildPrdHeader prdContext prdExample; taskSection prdContext;
        criteriaSection prdExample; rulesSection prdContext;
        progressSection prdContext; completionSection prdContext]
       (buildPrompt prdContext).
Proof.
  pose proof (buildPrompt_order prdContext) as (Hall & _ & _ & Hprd & _).
  split; [reflexivity|]. split.
  - apply (Hprd prdExample). reflexivity.
  - exact Hall.
Defined.

End PromptFacts.

(** ** The iteration loop *)

Section RunnerFacts.

Import Validator Promise Prompt Runner.

(** The commit message of the success path, in the words of the
    specification. *)
Definition expectedCompleteMessage (taskId : option jsstring) (i : Z)
    : jsstring :=
  match taskId with
  | Some id => js "ralph: [" ++ id ++ js "] complete (iteration "
                 ++ of_number i ++ js ")"
  | None => js "ralph: task complete (iteration " ++ of_number i ++ js ")"
  end.

Lemma completeMessage_expected (opts : RunTaskOptions) (i : Z) :
  completeMessage opts i = expectedCompleteMessage (opt_taskId opts) i.
Proof.
  unfold completeMessage, expectedCompleteMessage, opt_taskId.
  by destruct (o_prdTask opts).
Qed.

(** Whether iteration [i] detects the secret and passes every validation. *)
Definition complete (opts : RunTaskOptions) (w : World) (st : LoopState)
    (i : Z) : bool :=
  includes (stdout (agent w i (promptFor opts w st i)) ++ nl
              ++ stderr (agent w i (promptFor opts w st i))) (promise w)
  && allPassed (validationAt opts w i).

Lemma iterationBody_complete (opts : RunTaskOptions) (w : World)
    (st : LoopState) (i : Z) :
  dryRun opts = false -> aborted w i = false ->
  complete opts w st i = true ->
  iterationBody opts w st i
  = (Return {| success := true; iterations := i;
               taskId := opt_taskId opts; cancelled := false |},
     spawnEvents opts w st i
       ++ (if gitCheckpoint opts then [CommitAll (completeMessage opts i)]
           else [])).
Proof.
  intros Hdry Habort Hok. unfold iterationBody. rewrite Habort, Hdry.
  unfold complete in Hok. unfold claimed, agentOutput, detectPromise.
  cbv zeta. by rewrite Hok.
Qed.

Lemma iterationBody_incomplete (opts : RunTaskOptions) (w : World)
    (st : LoopState) (i : Z) :
  dryRun opts = false -> aborted w i = false ->
  complete opts w st i = false ->
  iterationBody opts w st i
  = (Next (regressionHandling opts st i (validationAt opts w i)).1,
     spawnEvents opts w st i
       ++ (regressionHandling opts st i (validationAt opts w i)).2).
Proof.
  intros Hdry Habort Hok. unfold iterationBody. rewrite Habort, Hdry.
  unfold complete in Hok. unfold claimed, agentOutput, detectPromise.
  cbv zeta. rewrite Hok.
  by destruct (regressionHandling opts st i (validationAt opts w i)).
Qed.

Lemma loopFrom_return (opts : RunTaskOptions) (w : World) (fuel : nat)
    (i : Z) (st : LoopState) (r : LoopResult) (acts : list Action) :
  iterationBody opts w st i = (Return r, acts) ->
  loopFrom opts w (S fuel) i st
  = {| result := r; actions := acts; history := [] |}.
Proof. intros H. simpl. by rewrite H. Qed.

Lemma loopFrom_next (opts : RunTaskOptions) (w : World) (fuel : nat)
    (i : Z) (st st' : LoopState) (acts : list Action) :
  iterationBody opts w st i = (Next st', acts) ->
  loopFrom opts w (S fuel) i st
  = {| result := result (loopFrom opts w fuel (i + 1) st');
       actions := acts ++ actions (loopFrom opts w fuel (i + 1) st');
       history := st' :: history (loopFrom opts w fuel (i + 1) st') |}.
Proof. intros H. simpl. by rewrite H. Qed.

(** Without dry-run, a successful result names the iteration that
    returned it, which is not before the one the loop stands at. *)
Lemma loopFrom_success_iterations (opts : RunTaskOptions) (w : World)
    (fuel : nat) (i : Z) (st : LoopState) :
  dryRun opts = false ->
  success (result (loopFrom opts w fuel i st)) = true ->
  i <= iterations (result (loopFrom opts w fuel i st)).
Proof.
  intros Hdry. revert i st. induction fuel as [|fuel IH]; intros i st; [done|].
  simpl. destruct (aborted w i) eqn:Habort.
  - unfold iterationBody. by rewrite Habort.
  - destruct (complete opts w st i) eqn:Hok.
    + rewrite iterationBody_complete by done. simpl. lia.
    + rewrite iterationBody_incomplete by done. simpl.
      intros H. apply IH in H. lia.
Qed.

(** C1.  At iteration [i] (not cancelled at its head, no dry run) the loop
    returns success with [iterations = i] exactly when the secret occurs in
    the agent's stdout, a newline and its stderr, and the validation report
    has [allPassed].  On that path the last thing it does, if git
    checkpoints are on, is the commit with the completion message.  When
    the secret is found but a validation fails, the body does not return:
    it goes through the regression handling and the loop continues with
    iteration [i + 1]. *)
Theorem runTaskLoop_success_path (opts : RunTaskOptions) (w : World)
    (fuel : nat) (i : Z) (st : LoopState) :
  dryRun opts = false ->
  aborted w i = false ->
  let run := loopFrom opts w (S fuel) i st in
  let output := agent w i (promptFor opts w st i) in
  let detected := includes (stdout output ++ nl ++ stderr output) (promise w) in
  let validation := validationAt opts w i in
  (success (result run) = true /\ iterations (result run) = i
     <-> detected = true /\ allPassed validation = true)
  /\ (detected = true -> allPassed validation = true ->
        actions run
        = spawnEvents opts w st i
            ++ (if gitCheckpoint opts
                then [CommitAll (expectedCompleteMessage (opt_taskId opts) i)]
                else []))
  /\ (detected = true -> allPassed validation = false ->
        let handled := regressionHandling opts st i validation in
        let rest := loopFrom opts w fuel (i + 1) handled.1 in
        iterationBody opts w st i
          = (Next handled.1, spawnEvents opts w st i ++ handled.2)
        /\ result run = result rest
        /\ actions run = (spawnEvents opts w st i ++ handled.2) ++ actions rest
        /\ history run = handled.1 :: history rest).
Proof.
  intros Hdry Habort run output detected validation.
  assert (Hok : complete opts w st i = detected && allPassed validation)
    by reflexivity.
  split; [|split].
  - subst run. destruct (complete opts w st i) eqn:Hc.
    + rewrite (loopFrom_return _ _ _ _ _ _ _
                 (iterationBody_complete opts w st i Hdry Habort Hc)).
      cbn [result success iterations].
      symmetry in Hok. apply andb_true_iff in Hok. tauto.
    + rewrite (loopFrom_next _ _ _ _ _ _ _
                 (iterationBody_incomplete opts w st i Hdry Habort Hc)).
      cbn [result]. split.
      * intros [Hs Hi].
        apply loopFrom_success_iterations in Hs; [lia|done].
      * intros [Hd Ha]. rewrite Hd, Ha in Hok. done.
  - intros Hd Ha. rewrite Hd, Ha in Hok. subst run.
    rewrite (loopFrom_return _ _ _ _ _ _ _
               (iterationBody_complete opts w st i Hdry Habort Hok)).
    cbn [actions]. by rewrite completeMessage_expected.
  - intros Hd Ha handled rest. rewrite Hd, Ha in Hok. subst run.
    rewrite (loopFrom_next _ _ _ _ _ _ _
               (iterationBody_incomplete opts w st i Hdry Habort Hok)).
    split; [by apply iterationBody_incomplete|done].
Qed.

(** A run whose first iteration echoes the secret and passes validation. *)
Definition happyOptions : RunTaskOptions :=
  {| o_task := js "Fix the tests";
     o_validate := [js "npm test"];
     o_maxIterations := 3;
     o_progressFile := js "ralph-progress.md";
     failureContextMaxChars := 4000;
     gitCheckpoint := true;
     dryRun := false;
     delay := 0;
     o_prdTask := None;
     o_prdName := None;
     o_prdDescription := None;
     o_completedTasks := None |}.

Definition happyWorld : World :=
  {| promise := js "RALPH_COMPLETE_abcd1234";
     aborted := fun _ => false;
     readProgress := fun _ => {| content := []; exists_ := false |};
     agent := fun _ _ =>
       mkSpawnResult (js "All done." ++ nl ++ js "RALPH_COMPLETE_abcd1234")
                     [] 0 10;
     shell := fun i _ =>
       if i =? 0 then mkSpawnResult [] (js "1 failing") 1 5
       else mkSpawnResult (js "ok") [] 0 5 |}.

Lemma runTaskLoop_success_path_witness :
  dryRun happyOptions = false
  /\ aborted happyWorld 1 = false
  /\ success (result (runTaskLoop happyOptions happyWorld)) = true
  /\ iterations (result (runTaskLoop happyOptions happyWorld)) = 1
  /\ last (actions (runTaskLoop happyOptions happyWorld))
     = Some (CommitAll (js "ralph: task complete (iteration 1)")).
Proof.
  pose proof (runTaskLoop_success_path happyOptions happyWorld 2 1
                (initialState happyOptions happyWorld)
                eq_refl eq_refl) as (Hiff & Hacts & _).
  cbv zeta in Hiff, Hacts.
  destruct Hiff as [_ Hback].
  destruct Hback as [Hs Hi]; [by vm_compute|].
  split; [reflexivity|]. split; [reflexivity|].
  split; [exact Hs|]. split; [exact Hi|].
  change (runTaskLoop happyOptions happyWorld)
    with (loopFrom happyOptions happyWorld 3 1
            (initialState happyOptions happyWorld)).
  rewrite Hacts by (by vm_compute).
  change (gitCheckpoint happyOptions) with true. cbv iota.
  rewrite last_snoc. reflexivity.
Defined.

Lemma regressionHandling_bestScore (opts : RunTaskOptions) (st : LoopState)
    (i : Z) (validation : ValidationReport) :
  let st' := (regressionHandling opts st i validation).1 in
  bestScore st <= bestScore st'
  /\ (bestScore st' <> bestScore st ->
        bestScore st < scoreValidation validation
        /\ bestScore st' = scoreValidation validation).
Proof.
  unfold regressionHandling.
  destruct (gitCheckpoint opts); [|simpl; lia].
  destruct (Z.ltb_spec (scoreValidation validation) (bestScore st));
    [simpl; lia|].
  destruct (Z.gtb_spec (scoreValidation validation) (bestScore st));
    simpl; lia.
Qed.

Lemma iterationBody_Next (opts : RunTaskOptions) (w : World) (st st' : LoopState)
    (i : Z) (acts : list Action) :
  iterationBody opts w st i = (Next st', acts) ->
  st' = (regressionHandling opts st i (validationAt opts w i)).1.
Proof.
  unfold iterationBody.
  destruct (aborted w i); [done|]. destruct (dryRun opts); [done|].
  cbv zeta.
  destruct (claimed opts w st i && allPassed (validationAt opts w i)); [done|].
  destruct (regressionHandling opts st i (validationAt opts w i)).
  by intros [= -> _].
Qed.

(** One completed iteration never lowers [bestScore], and changes it only
    to a strictly greater current score. *)
Lemma loopFrom_history_step (opts : RunTaskOptions) (w : World) (fuel : nat)
    (i : Z) (st : LoopState) (k : nat) (s s' : LoopState) :
  (st :: history (loopFrom opts w fuel i st)) !! k = Some s ->
  history (loopFrom opts w fuel i st) !! k = Some s' ->
  bestScore s <= bestScore s'
  /\ (bestScore s' <> bestScore s ->
        bestScore s < scoreValidation (validationAt opts w (i + Z.of_nat k))
        /\ bestScore s'
           = scoreValidation (validationAt opts w (i + Z.of_nat k))).
Proof.
  revert i st k. induction fuel as [|fuel IH]; intros i st k; [done|].
  destruct (iterationBody opts w st i) as [[r|st1] acts] eqn:Hbody.
  - by rewrite (loopFrom_return _ _ _ _ _ _ _ Hbody).
  - rewrite (loopFrom_next _ _ _ _ _ _ _ Hbody). cbn [history].
    apply iterationBody_Next in Hbody.
    destruct k as [|k].
    + intros [= <-] [= <-]. rewrite Z.add_0_r. subst st1.
      apply regressionHandling_bestScore.
    + intros Hs Hs'. cbn in Hs, Hs'.
      replace (i + Z.of_nat (S k)) with (i + 1 + Z.of_nat k) by lia.
      by apply (IH (i + 1) st1 k).
Qed.

Lemma loopFrom_history_monotone (opts : RunTaskOptions) (w : World)
    (fuel : nat) (i : Z) (st : LoopState) (j k : nat) (sj sk : LoopState) :
  (j <= k)%nat ->
  (st :: history (loopFrom opts w fuel i st)) !! j = Some sj ->
  (st :: history (loopFrom opts w fuel i st)) !! k = Some sk ->
  bestScore sj <= bestScore sk.
Proof.
  intros Hjk Hj. revert sk. induction Hjk as [|k Hjk IH]; intros sk Hk.
  - rewrite Hj in Hk. injection Hk as ->. lia.
  - destruct (lookup_lt_is_Some_2 (st :: history (loopFrom opts w fuel i st)) k)
      as [s Hs].
    { apply lookup_lt_Some in Hk. lia. }
    etrans; [by apply IH|].
    by apply (loopFrom_history_step opts w fuel i st k s sk).
Qed.

(** C2.  [bestScore] starts as the baseline score; over the states at the
    end of the completed iterations it never decreases; and an iteration
    changes it only when its own score is strictly greater, to that
    score. *)
Theorem bestScore_nondecreasing (opts : RunTaskOptions) (w : World) :
  let run := runTaskLoop opts w in
  let states := initialState opts w :: history run in
  bestScore (initialState opts w) = scoreValidation (baseline opts w)
  /\ (forall j k sj sk,
        (j <= k)%nat -> states !! j = Some sj -> states !! k = Some sk ->
        bestScore sj <= bestScore sk)
  /\ (forall k s s',
        states !! k = Some s -> states !! S k = Some s' ->
        bestScore s' <> bestScore s ->
        let current :=
          scoreValidation (validationAt opts w (Z.of_nat k + 1)) in
        bestScore s < current /\ bestScore s' = current).
Proof.
  intros run states. split; [reflexivity|]. split.
  - intros j k sj sk. apply loopFrom_history_monotone.
  - intros k s s' Hs Hs' Hne current. subst current.
    replace (Z.of_nat k + 1) with (1 + Z.of_nat k) by lia.
    by apply (loopFrom_history_step opts w (Z.to_nat (o_maxIterations opts)) 1
                (initialState opts w) k s s').
Qed.

(** A run that regresses in its first iteration and improves in its
    second; the agent never echoes the secret. *)
Definition bumpyOptions : RunTaskOptions :=
  {| o_task := js "Fix the tests";
     o_validate := [js "npm test"; js "tsc --noEmit"];
     o_maxIterations := 3;
     o_progressFile := js "ralph-progress.md";
     failureContextMaxChars := 4000;
     gitCheckpoint := true;
     dryRun := false;
     delay := 0;
     o_prdTask := None;
     o_prdName := None;
     o_prdDescription := None;
     o_completedTasks := None |}.

Definition bumpyWorld : World :=
  {| promise := js "RALPH_COMPLETE_abcd1234";
     aborted := fun _ => false;
     readProgress := fun _ => {| content := []; exists_ := false |};
     agent := fun _ _ => mkSpawnResult (js "still working") [] 0 10;
     shell := fun i cmd =>
       if i =? 0 then
         if bool_decide (cmd = js "npm test")
         then mkSpawnResult (js "ok") [] 0 5
         else mkSpawnResult [] (js "type error") 2 5
       else if i =? 1 then mkSpawnResult [] (js "broken") 1 5
       else mkSpawnResult (js "ok") [] 0 5 |}.

Lemma bestScore_nondecreasing_witness :
  let states := initialState bumpyOptions bumpyWorld
                  :: history (runTaskLoop bumpyOptions bumpyWorld) in
  let after2 := {| bestScore := 2; st_lastFailureOutput := [];
                   st_wasReverted := false |} in
  List.map bestScore states = [1; 1; 2; 2]
  /\ ((0 <= 2)%nat
      /\ states !! 0%nat = Some (initialState bumpyOptions bumpyWorld)
      /\ states !! 2%nat = Some after2)
  /\ bestScore (initialState bumpyOptions bumpyWorld) <= bestScore after2.
Proof.
  intros states after2.
  assert (H0 : states !! 0%nat = Some (initialState bumpyOptions bumpyWorld))
    by reflexivity.
  assert (H2 : states !! 2%nat = Some after2) by (by vm_compute).
  split; [by vm_compute|]. split; [split; [lia|by split]|].
  exact (proj1 (proj2 (bestScore_nondecreasing bumpyOptions bumpyWorld))
           0%nat 2%nat _ _ ltac:(lia) H0 H2).
Defined.

End RunnerFacts.

(** ** The database *)

Section DbFacts.

Import Db.

Lemma touchThread_frame (env : Env) (threadId : jsstring) (d : Database) :
  runs (touchThread env threadId d) = runs d
  /\ events (touchThread env threadId d) = events d
  /\ automations (touchThread env threadId d) = automations d
  /\ review_comments (touchThread env threadId d) = review_comments d
  /\ dom (threads (touchThread env threadId d)) = dom (threads d).
Proof.
  unfold touchThread. cbn. repeat split. apply dom_alter_L.
Qed.

Lemma updateRunStatus_runs (env : Env) (runId : jsstring) (status : RunStatus)
    (updates : RunUpdates) (d : Database) :
  runs (updateRunStatus env runId status updates d)
  = match runs d !! runId with
    | Some row =>
        <[runId :=
            mkRunRow (r_threadId row) status (r_maxIterations row)
                     (default (r_iterations row) (u_iterations updates))
                     (r_taskOverride row) (r_sourceRunId row)
                     (nullish (u_error updates) (r_error row))
                     (r_createdAt row)
                     (nullish (u_startedAt updates) (r_startedAt row))
                     (nullish (u_finishedAt updates) (r_finishedAt row))]>
          (runs d)
    | None => runs d
    end.
Proof.
  unfold updateRunStatus, getRun.
  destruct (runs d !! runId) as [row|] eqn:Hrow; [|done].
  cbn. apply map_eq. intros k.
  destruct (decide (runId = k)) as [<-|Hne].
  - by rewrite lookup_alter_eq, lookup_insert_eq, Hrow.
  - by rewrite lookup_alter_ne, lookup_insert_ne.
Qed.

Lemma updateRunStatus_frame_tables (env : Env) (runId : jsstring)
    (status : RunStatus) (updates : RunUpdates) (d : Database) :
  events (updateRunStatus env runId status updates d) = events d
  /\ automations (updateRunStatus env runId status updates d) = automations d
  /\ review_comments (updateRunStatus env runId status updates d)
     = review_comments d
  /\ dom (threads (updateRunStatus env runId status updates d))
     = dom (threads d).
Proof.
  unfold updateRunStatus, getRun.
  destruct (runs d !! runId) as [row|]; [|done].
  cbn. repeat split. apply dom_alter_L.
Qed.

Lemma updateRunStatus_missing (env : Env) (runId : jsstring)
    (status : RunStatus) (updates : RunUpdates) (d : Database) :
  runs d !! runId = None ->
  updateRunStatus env runId status updates d = d.
Proof. intros H. unfold updateRunStatus, getRun. by rewrite H. Qed.

Lemma emitEvent_events (env : Env) (threadId : jsstring)
    (runId : option jsstring) (type : EventType) (payload : Payload)
    (d : Database) :
  events (emitEvent env threadId runId type payload d)
  = events d
      ++ [mkEventRecord (Z.of_nat (length (events d)) + 1) threadId runId type
                        payload (clock env (clock_reads d))].
Proof. reflexivity. Qed.

Lemma emitEvent_frame (env : Env) (threadId : jsstring)
    (runId : option jsstring) (type : EventType) (payload : Payload)
    (d : Database) :
  runs (emitEvent env threadId runId type payload d) = runs d
  /\ threads (emitEvent env threadId runId type payload d) = threads d
  /\ automations (emitEvent env threadId runId type payload d) = automations d
  /\ review_comments (emitEvent env threadId runId type payload d)
     = review_comments d.
Proof. done. Qed.

(** C10.  When no run has the id, [updateRunStatus] returns the database
    as it was.  Otherwise the run's row gets the new status; each of
    iterations, error, startedAt and finishedAt keeps its previous value if
    the update does not supply it and takes the supplied value if it does;
    the row's other columns, the other runs, the journal, the automations
    and the comments are unchanged. *)
Theorem updateRunStatus_frame (env : Env) (runId : jsstring)
    (status : RunStatus) (updates : RunUpdates) (d : Database) :
  let d' := updateRunStatus env runId status updates d in
  (runs d !! runId = None -> d' = d)
  /\ (forall row, runs d !! runId = Some row ->
        exists row',
          runs d' !! runId = Some row'
          /\ r_status row' = status
          /\ (u_iterations updates = None -> r_iterations row' = r_iterations row)
          /\ (u_error updates = None -> r_error row' = r_error row)
          /\ (u_startedAt updates = None -> r_startedAt row' = r_startedAt row)
          /\ (u_finishedAt updates = None ->
                r_finishedAt row' = r_finishedAt row)
          /\ (forall n, u_iterations updates = Some n -> r_iterations row' = n)
          /\ (forall e, u_error updates = Some e -> r_error row' = Some e)
          /\ (forall t, u_startedAt updates = Some t ->
                r_startedAt row' = Some t)
          /\ (forall t, u_finishedAt updates = Some t ->
                r_finishedAt row' = Some t)
          /\ r_threadId row' = r_threadId row
          /\ r_maxIterations row' = r_maxIterations row
          /\ r_taskOverride row' = r_taskOverride row
          /\ r_sourceRunId row' = r_sourceRunId row
          /\ r_createdAt row' = r_createdAt row)
  /\ (forall other, other <> runId -> runs d' !! other = runs d !! other)
  /\ events d' = events d
  /\ automations d' = automations d
  /\ review_comments d' = review_comments d.
Proof.
  intros d'. subst d'. split; [apply updateRunStatus_missing|].
  split; [|split].
  - intros row Hrow. rewrite updateRunStatus_runs, Hrow.
    eexists. split; [apply lookup_insert_eq|]. cbn.
    repeat split; try done; intros;
      match goal with H : _ = _ |- _ => by rewrite H end.
  - intros other Hne. rewrite updateRunStatus_runs.
    destruct (runs d !! runId); [|done]. by rewrite lookup_insert_ne.
  - pose proof (updateRunStatus_frame_tables env runId status updates d).
    tauto.
Qed.

(** A small database: one thread with one queued run. *)
Definition exampleEnv : Env :=
  {| clock := fun n => 1700000000000 + Z.of_nat n;
     uuid := fun n => js "run-" ++ of_number (Z.of_nat n) |}.

Definition exampleThread : ThreadRow :=
  mkThreadRow (js "demo") (js "Fix the tests") (js "/repo") (js "/repo")
              None None claude [js "bun test"] 100 100.

Definition exampleRun : RunRow :=
  mkRunRow (js "t1") Queued 10 0 None None None 100 None None.

Definition exampleDb : Database :=
  {| threads := {[ js "t1" := exampleThread ]};
     runs := {[ js "r1" := exampleRun ]};
     events := [];
     automations := ∅;
     review_comments := ∅;
     clock_reads := 0;
     uuid_reads := 0 |}.

Lemma updateRunStatus_frame_witness :
  runs exampleDb !! js "r1" = Some exampleRun
  /\ runs exampleDb !! js "r2" = None
  /\ updateRunStatus exampleEnv (js "r2") Cancelled noUpdates exampleDb
     = exampleDb
  /\ exists row',
       runs (updateRunStatus exampleEnv (js "r1") Cancelled
               (mkRunUpdates None None None (Some 7)) exampleDb) !! js "r1"
         = Some row'
       /\ r_status row' = Cancelled
       /\ r_iterations row' = 0
       /\ r_error row' = None
       /\ r_startedAt row' = None
       /\ r_finishedAt row' = Some 7.
Proof.
  assert (H1 : runs exampleDb !! js "r1" = Some exampleRun) by (by vm_compute).
  assert (H2 : runs exampleDb !! js "r2" = None) by (by vm_compute).
  split; [exact H1|]. split; [exact H2|]. split.
  - exact (proj1 (updateRunStatus_frame exampleEnv (js "r2") Cancelled
                    noUpdates exampleDb) H2).
  - destruct (proj1 (proj2 (updateRunStatus_frame exampleEnv (js "r1") Cancelled
                              (mkRunUpdates None None None (Some 7)) exampleDb))
                exampleRun H1)
      as (row' & Hrow' & Hst & Hit & Herr & Hstart & _ & _ & _ & _ & Hfin & _).
    exists row'. split; [exact Hrow'|]. split; [exact Hst|].
    split; [exact (Hit eq_refl)|]. split; [exact (Herr eq_refl)|].
    split; [exact (Hstart eq_refl)|]. exact (Hfin 7 eq_refl).
Defined.

End DbFacts.

(** ** The run queue *)

Section QueueFacts.

Import Db Queue.

Context (env : Env) (maxConcurrent : jsnumber).

Lemma set_delete_not_elem (r : jsstring) (s : list (list N)) :
  r ∉ set_delete r s.
Proof.
  unfold set_delete. rewrite list_elem_of_In, filter_In.
  intros [_ H]. apply negb_true_iff, bool_decide_eq_false in H. done.
Qed.

Lemma set_delete_elem (r x : jsstring) (s : list (list N)) :
  x ∈ set_delete r s <-> x ∈ s /\ x <> r.
Proof.
  unfold set_delete. rewrite !list_elem_of_In, filter_In.
  by rewrite negb_true_iff, bool_decide_eq_false.
Qed.

Lemma set_delete_head (r : jsstring) (s : list (list N)) :
  r ∉ s -> set_delete r (r :: s) = s.
Proof.
  intros Hnot. unfold set_delete. simpl.
  rewrite bool_decide_eq_true_2 by done. simpl.
  induction s as [|x s IH]; [done|].
  apply not_elem_of_cons in Hnot as [Hne Hnot]. simpl.
  rewrite bool_decide_eq_false_2 by done. simpl. f_equal. by apply IH.
Qed.

Lemma set_delete_length (r : jsstring) (s : list (list N)) :
  (length (set_delete r s) <= length s)%nat.
Proof. apply filter_length_le. Qed.

Lemma set_delete_NoDup (r : jsstring) (s : list (list N)) :
  NoDup s -> NoDup (set_delete r s).
Proof.
  rewrite !NoDup_ListNoDup. apply List.NoDup_filter.
Qed.

Lemma set_add_NoDup (r : jsstring) (s : list (list N)) :
  NoDup s -> NoDup (set_add r s).
Proof.
  intros H. unfold set_add, set_has. case_bool_decide; [done|].
  apply NoDup_app. split; [done|]. split; [|apply NoDup_singleton].
  intros x Hx Hr. apply list_elem_of_singleton in Hr. by subst.
Qed.

(** The run row [pause] leaves behind. *)
Definition withStatus (status : RunStatus) (row : RunRow) : RunRow :=
  mkRunRow (r_threadId row) status (r_maxIterations row) (r_iterations row)
           (r_taskOverride row) (r_sourceRunId row) (r_error row)
           (r_createdAt row) (r_startedAt row) (r_finishedAt row).

(** C6.  [pause] returns true exactly when the run is in [pending] (and
    has a row in the database); it then removes the run from [pending],
    sets its persisted status to paused, leaving the rest of the row and
    all other runs alone, and appends one [run.paused] event for the run.
    Whenever it returns false the whole state, queue and database with
    its journal, is unchanged. *)
Theorem pause_semantics (runId : jsstring) (st : State) :
  let ok := fst (pause env runId st) in
  let st' := snd (pause env runId st) in
  (ok = true -> runId ∈ pending st)
  /\ (ok = true <-> (runId ∈ pending st /\ is_Some (runs (db st) !! runId)))
  /\ (ok = true ->
        forall row, runs (db st) !! runId = Some row ->
          pending st' = set_delete runId (pending st)
          /\ (runId ∉ pending st')
          /\ running st' = running st
          /\ controllers st' = controllers st
          /\ runs (db st') !! runId = Some (withStatus Paused row)
          /\ (forall other, other <> runId ->
                runs (db st') !! other = runs (db st) !! other)
          /\ exists e,
               events (db st') = events (db st) ++ [e]
               /\ ev_type e = run_paused
               /\ ev_runId e = Some runId
               /\ ev_threadId e = r_threadId row)
  /\ (ok = false -> st' = st).
Proof.
  unfold pause, set_has, getRun.
  case_bool_decide as Hin; simpl.
  - destruct (runs (db st) !! runId) as [row|] eqn:Hrow; simpl.
    + split; [done|]. split; [by eauto|]. split; [|done].
      intros _ row' [= <-].
      split; [done|]. split; [apply set_delete_not_elem|].
      split; [done|]. split; [done|].
      pose proof (updateRunStatus_runs env runId Paused noUpdates (db st))
        as Hruns.
      rewrite Hrow in Hruns.
      pose proof (updateRunStatus_frame_tables env runId Paused noUpdates
                    (db st)) as (Hev & _).
      change (runs (emitEvent env (r_threadId row) (Some runId) run_paused []
                      (updateRunStatus env runId Paused noUpdates (db st))))
        with (runs (updateRunStatus env runId Paused noUpdates (db st))).
      rewrite Hruns.
      split; [by rewrite lookup_insert_eq|].
      split; [intros other Hne; by rewrite lookup_insert_ne|].
      rewrite Hev. eexists. split; [reflexivity|]. done.
    + split; [done|]. split; [|done].
      split; [done|]. intros [_ [? ?]]. done.
  - split; [done|]. split; [|done]. split; [done|]. tauto.
Qed.

End QueueFacts.

Section QueueInvariants.

Import Db Queue.

Context (env : Env) (maxConcurrent : jsnumber).

Lemma execute_not_queued (r : jsstring) (st : State) :
  isQueued (db st) r = false -> execute env r st = st.
Proof.
  unfold isQueued, execute. destruct (getRun r (db st)) as [run|]; [|done].
  intros ->. done.
Qed.

(** What a call about run [r] may do to the tables: it rewrites the row
    of [r], keeping its thread, task override and source run, and touches
    threads; the journal is accounted for separately. *)
Definition runFrame (r : jsstring) (d d' : Database) : Prop :=
  automations d' = automations d
  /\ review_comments d' = review_comments d
  /\ dom (threads d') = dom (threads d)
  /\ (forall other, other <> r -> runs d' !! other = runs d !! other)
  /\ (forall row, runs d !! r = Some row ->
        exists row', runs d' !! r = Some row'
                     /\ r_taskOverride row' = r_taskOverride row
                     /\ r_sourceRunId row' = r_sourceRunId row
                     /\ r_threadId row' = r_threadId row).

Lemma runFrame_same (r : jsstring) (d d' : Database) :
  automations d' = automations d -> review_comments d' = review_comments d ->
  threads d' = threads d -> runs d' = runs d ->
  runFrame r d d'.
Proof.
  intros Ha Hc Ht Hr. unfold runFrame. rewrite Ha, Hc, Ht, Hr.
  split; [done|]. split; [done|]. split; [done|]. split; [done|].
  intros row H. by exists row.
Qed.

Lemma runFrame_trans (r : jsstring) (d1 d2 d3 : Database) :
  runFrame r d1 d2 -> runFrame r d2 d3 -> runFrame r d1 d3.
Proof.
  intros (Ha & Hc & Ht & Ho & Hr) (Ha' & Hc' & Ht' & Ho' & Hr').
  repeat split; [congruence..| |].
  - intros other Hne. by rewrite Ho', Ho.
  - intros row Hrow.
    destruct (Hr row Hrow) as (row2 & Hrow2 & ? & ? & ?).
    destruct (Hr' row2 Hrow2) as (row3 & Hrow3 & ? & ? & ?).
    exists row3. repeat split; [done|congruence..].
Qed.

Lemma runFrame_updateRunStatus (r : jsstring) (status : RunStatus)
    (updates : RunUpdates) (d : Database) :
  runFrame r d (updateRunStatus env r status updates d).
Proof.
  pose proof (updateRunStatus_frame_tables env r status updates d)
    as (_ & Ha & Hc & Ht).
  pose proof (updateRunStatus_runs env r status updates d) as Hruns.
  repeat split; [done..| |].
  - intros other Hne. rewrite Hruns. destruct (runs d !! r); [|done].
    by rewrite lookup_insert_ne.
  - intros row Hrow. rewrite Hruns, Hrow. eexists.
    split; [apply lookup_insert_eq|done].
Qed.

Definition failedOnly (new : list EventRecord) : Prop :=
  Forall (fun e => ev_type e = run_failed) new.

Lemma executeRunStart_spec (run : RunRecord) (st : State) :
  let st' := executeRunStart env run st in
  pending st' = pending st
  /\ running st' = running st
  /\ runFrame (run_id run) (db st) (db st')
  /\ exists more, events (db st') = events (db st) ++ more /\ failedOnly more.
Proof.
  unfold executeRunStart.
  destruct (getThread (r_threadId (run_row run)) (db st)).
  - repeat split; [by apply runFrame_same|].
    exists []. split; [by rewrite app_nil_r|constructor].
  - cbn [Date_now]. set (d1 := mkDatabase _ _ _ _ _ _ _).
    set (updates := mkRunUpdates _ _ _ _).
    split; [done|]. split; [done|]. split.
    + apply (runFrame_trans _ _ d1); [by apply runFrame_same|].
      apply (runFrame_trans _ _ (updateRunStatus env (run_id run) Failed
                                   updates d1));
        [apply runFrame_updateRunStatus|by apply runFrame_same].
    + eexists. split.
      * unfold onEvent, with_db. cbn [db]. rewrite emitEvent_events.
        rewrite (proj1 (updateRunStatus_frame_tables env (run_id run) Failed
                          updates d1)).
        reflexivity.
      * by constructor.
Qed.

(** What a started run leaves behind: the queue's own sets and, in the
    database, the run's row, one [run.started] event and, when its thread
    is gone, one [run.failed] event. *)
Lemma execute_queued (r : jsstring) (st : State) :
  isQueued (db st) r = true ->
  let st' := execute env r st in
  pending st' = pending st
  /\ running st' = {[r]} ∪ running st
  /\ (exists e more,
        events (db st') = events (db st) ++ e :: more
        /\ ev_type e = run_started /\ ev_runId e = Some r
        /\ failedOnly more)
  /\ runFrame r (db st) (db st').
Proof.
  unfold isQueued, execute, getRun.
  destruct (runs (db st) !! r) as [row|] eqn:Hrow; [|done].
  cbn [fmap option_fmap option_map run_row run_id].
  intros ->. cbn [negb Date_now pending running controllers db].
  set (d1 := mkDatabase _ _ _ _ _ _ _).
  set (updates := mkRunUpdates _ _ _ _).
  set (st3 := onEvent env _ _ run_started [] _).
  pose proof (executeRunStart_spec (mkRunRecord r row) st3)
    as (Hp & Hrun & Hframe & more & Hev & Hmore).
  cbv zeta in Hp, Hrun, Hframe, Hev. cbn [run_id] in Hframe.
  split; [rewrite Hp; reflexivity|]. split; [rewrite Hrun; reflexivity|].
  split.
  - eexists _, more. split.
    + rewrite Hev. subst st3. unfold onEvent, with_db. cbn [db].
      rewrite emitEvent_events.
      rewrite (proj1 (updateRunStatus_frame_tables env r Running updates d1)).
      rewrite <- app_assoc. reflexivity.
    + done.
  - apply (runFrame_trans _ _ (db st3)); [|done].
    apply (runFrame_trans _ _ d1); [by apply runFrame_same|].
    apply (runFrame_trans _ _ (updateRunStatus env r Running updates d1));
      [apply runFrame_updateRunStatus|by apply runFrame_same].
Qed.

(** An induction principle for the [while] loop of [tick]. *)
Lemma tickLoop_preserves (P : State -> Prop) :
  (forall st r rest,
     P st ->
     int_lt (Z.of_nat (size (running st))) maxConcurrent = true ->
     pending st = r :: rest ->
     truthy r = true ->
     P (execute env r (with_pending (set_delete r) st))) ->
  forall fuel st, P st -> P (tickLoop env maxConcurrent fuel st).
Proof.
  intros Hstep. induction fuel as [|fuel IH]; intros st HP; [done|].
  simpl.
  destruct (int_lt (Z.of_nat (size (running st))) maxConcurrent) eqn:Hlt;
    [|done].
  destruct (pending st) as [|r rest] eqn:Hp; [done|]. simpl.
  destruct (truthy r) eqn:Hr; [|done]. simpl.
  apply IH. by apply (Hstep st r rest).
Qed.

Lemma execute_running_size (r : jsstring) (st : State) :
  (size (running (execute env r st)) <= S (size (running st)))%nat.
Proof.
  destruct (isQueued (db st) r) eqn:Hq.
  - destruct (execute_queued r st Hq) as (_ & -> & _).
    rewrite size_union_alt, size_singleton.
    assert (Hsz : (size (running st ∖ {[r]}) <= size (running st))%nat).
    { apply subseteq_size, subseteq_difference_l. reflexivity. }
    lia.
  - rewrite execute_not_queued by done. lia.
Qed.

Lemma execute_pending (r : jsstring) (st : State) :
  pending (execute env r st) = pending st.
Proof.
  destruct (isQueued (db st) r) eqn:Hq.
  - by destruct (execute_queued r st Hq) as (-> & _).
  - by rewrite execute_not_queued.
Qed.

(** [pending] holds each run once, whatever the cap. *)
Lemma tick_NoDup (fuel : nat) (st : State) :
  NoDup (pending st) -> NoDup (pending (tickLoop env maxConcurrent fuel st)).
Proof.
  apply (tickLoop_preserves (fun st => NoDup (pending st))). clear.
  intros st r rest Hnd _ _ _.
  rewrite execute_pending. cbn [pending with_pending].
  by apply set_delete_NoDup.
Qed.

Lemma step_NoDup (st : State) (op : Op) :
  NoDup (pending st) -> NoDup (pending (step env maxConcurrent st op)).
Proof.
  intros Hnd.
  destruct op as [r|r|r|r| |run thrown|input|r status updates|t r ty payload];
    cbn [step].
  - apply tick_NoDup. by apply set_add_NoDup.
  - unfold pause. destruct (set_has r (pending st)); [|done]. simpl.
    destruct (getRun r (db st)); [|done]. simpl.
    by apply set_delete_NoDup.
  - unfold resume. destruct (getRun r (db st)); [|done].
    destruct (bool_decide _); [|done]. simpl.
    apply tick_NoDup. by apply set_add_NoDup.
  - unfold stop. destruct (getRun r (db st)); [|done].
    destruct (set_has r (pending st)).
    + simpl. by apply set_delete_NoDup.
    + destruct (controllers st !! r); done.
  - by apply tick_NoDup.
  - unfold finish. apply tick_NoDup. by destruct thrown.
  - done.
  - done.
  - done.
Qed.

Lemma runOps_NoDup (d : Database) (ops : list Op) :
  NoDup (pending (runOps env maxConcurrent d ops)).
Proof.
  unfold runOps.
  assert (Hinit : NoDup (pending (initial d))) by constructor.
  revert Hinit. generalize (initial d). induction ops as [|op ops IH];
    intros st Hst; [done|].
  simpl. apply IH. by apply step_NoDup.
Qed.

End QueueInvariants.

Section QueueCap.

Import Db Queue.

(** [cap] is an integer that bounds the numbers of running runs at which
    the loop of [tick] still starts one: whenever [n < maxConcurrent]
    holds for such a number [n], [n] is below [cap]. *)
Context (env : Env) (maxConcurrent : jsnumber) (cap : Z).
Hypothesis below_cap :
  forall n, 0 <= n -> int_lt n maxConcurrent = true -> n < cap.

Definition withinCap (st : State) : Prop :=
  Z.of_nat (size (running st)) <= cap.

Lemma tick_withinCap (fuel : nat) (st : State) :
  withinCap st -> withinCap (tickLoop env maxConcurrent fuel st).
Proof.
  apply tickLoop_preserves. clear st.
  intros st r rest Hcap Hlt Hp _. unfold withinCap in *.
  apply below_cap in Hlt; [|lia].
  pose proof (execute_running_size env r (with_pending (set_delete r) st))
    as H.
  cbn [running with_pending] in H. lia.
Qed.

Lemma step_withinCap (st : State) (op : Op) :
  withinCap st -> withinCap (step env maxConcurrent st op).
Proof.
  intros Hcap.
  destruct op as [r|r|r|r| |run thrown|input|r status updates|t r ty payload];
    cbn [step].
  - by apply tick_withinCap.
  - unfold pause. destruct (set_has r (pending st)); [|done]. simpl.
    by destruct (getRun r (db st)).
  - unfold resume. destruct (getRun r (db st)); [|done].
    destruct (bool_decide _); [|done]. simpl.
    by apply tick_withinCap.
  - unfold stop. destruct (getRun r (db st)); [|done].
    destruct (set_has r (pending st)); [done|].
    by destruct (controllers st !! r).
  - by apply tick_withinCap.
  - unfold finish. apply tick_withinCap.
    assert (Hsz : (size (running st ∖ {[run_id run]})
                     <= size (running st))%nat)
      by (apply subseteq_size, subseteq_difference_l; reflexivity).
    unfold withinCap in *. destruct thrown; simpl; cbn [running]; lia.
  - done.
  - done.
  - done.
Qed.

Lemma runOps_withinCap (d : Database) (ops : list Op) :
  0 <= cap -> withinCap (runOps env maxConcurrent d ops).
Proof.
  intros Hmax. unfold runOps.
  assert (Hinit : withinCap (initial d)).
  { unfold withinCap. cbn. rewrite size_empty. lia. }
  revert Hinit. generalize (initial d). induction ops as [|op ops IH];
    intros st Hst; [done|].
  simpl. apply IH. by apply step_withinCap.
Qed.

End QueueCap.

Section QueueIntegerCap.

Lemma int_lt_of_int (n c : Z) : int_lt n (of_int c) = (n <? c).
Proof. unfold int_lt, of_int. cbn. by rewrite Z.mul_1_r. Qed.

Lemma int_le_of_int (n c : Z) : int_le n (of_int c) = (n <=? c).
Proof. unfold int_le, of_int. cbn. by rewrite Z.mul_1_r. Qed.

End QueueIntegerCap.

Section QueueFifo.

Import Db Queue.

Context (env : Env) (maxConcurrent : jsnumber).

Definition startedId (e : EventRecord) : option (list N) :=
  if decide (ev_type e = run_started) then ev_runId e else None.

Lemma failedOnly_not_started (new : list EventRecord) :
  failedOnly new -> omap startedId new = [].
Proof.
  induction 1 as [|e new Hty _ IH]; [done|].
  change (omap startedId (e :: new))
    with (match startedId e with
          | Some y => y :: omap startedId new
          | None => omap startedId new
          end).
  unfold startedId at 1. rewrite Hty. by rewrite decide_False.
Qed.

Lemma isQueued_lookup (d d' : Database) (r : jsstring) :
  runs d' !! r = runs d !! r -> isQueued d' r = isQueued d r.
Proof. unfold isQueued, getRun. by intros ->. Qed.

(** The runs one pass of the loop pops form a prefix of [pending]; those
    among them whose status was [queued] are started, in that order. *)
Lemma tickLoop_fifo (fuel : nat) (st : State) :
  NoDup (pending st) ->
  exists popped new,
    pending st = popped ++ pending (tickLoop env maxConcurrent fuel st)
    /\ events (db (tickLoop env maxConcurrent fuel st))
       = events (db st) ++ new
    /\ omap startedId new = List.filter (isQueued (db st)) popped.
Proof.
  revert st. induction fuel as [|fuel IH]; intros st Hnd.
  { exists [], []. by rewrite app_nil_r. }
  simpl.
  destruct (int_lt (Z.of_nat (size (running st))) maxConcurrent);
    [|exists [], []; by rewrite app_nil_r].
  destruct (pending st) as [|r rest] eqn:Hp;
    [exists [], []; by rewrite app_nil_r|]. simpl.
  destruct (truthy r) eqn:Hr; simpl;
    [|exists [], []; by rewrite app_nil_r].
  apply NoDup_cons in Hnd as [Hnotin Hnd].
  set (st1 := with_pending (set_delete r) st).
  assert (Hp1 : pending st1 = rest).
  { subst st1. cbn [pending with_pending]. rewrite Hp.
    by apply set_delete_head. }
  assert (Hp2 : pending (execute env r st1) = rest)
    by (by rewrite execute_pending).
  destruct (IH (execute env r st1)) as (popped & new & Hpop & Hev & Hst).
  { by rewrite Hp2. }
  rewrite Hp2 in Hpop.
  assert (Hsame : List.filter (isQueued (db (execute env r st1))) popped
                  = List.filter (isQueued (db st)) popped).
  { apply filter_ext_in. intros x Hx. apply isQueued_lookup.
    assert (x <> r).
    { intros ->. apply Hnotin. rewrite Hpop. apply elem_of_app. left.
      by apply list_elem_of_In. }
    destruct (isQueued (db st1) r) eqn:Hq.
    - destruct (execute_queued env r st1 Hq)
        as (_ & _ & _ & _ & _ & _ & Hother & _).
      by rewrite Hother.
    - by rewrite execute_not_queued. }
  exists (r :: popped).
  destruct (isQueued (db st) r) eqn:Hq.
  - destruct (execute_queued env r st1 Hq)
      as (_ & _ & (e & more & He & Hty & Hid & Hmore) & _).
    exists ((e :: more) ++ new). split; [by rewrite Hpop|]. split.
    + rewrite Hev, He. cbn [db with_pending st1]. by rewrite <- app_assoc.
    + cbn [List.filter]. rewrite Hq.
      rewrite omap_app, Hst, Hsame.
      change (omap startedId (e :: more))
        with (match startedId e with
              | Some y => y :: omap startedId more
              | None => omap startedId more
              end).
      unfold startedId at 1. rewrite Hty, Hid.
      rewrite decide_True by done.
      by rewrite (failedOnly_not_started more Hmore).
  - exists new. split; [by rewrite Hpop|]. split.
    + rewrite Hev. by rewrite (execute_not_queued env r st1 Hq).
    + cbn [List.filter]. rewrite Hq. by rewrite Hst, Hsame.
Qed.

Lemma startedBetween_new (st st' : State) (new : list EventRecord) :
  events (db st') = events (db st) ++ new ->
  startedBetween st st' = omap startedId new.
Proof.
  intros H. unfold startedBetween. by rewrite H, drop_app_length.
Qed.

(** The loop runs until its condition fails: the model's fuel never cuts
    it short. *)
Lemma tickLoop_exit (fuel : nat) (st : State) :
  (length (pending st) <= fuel)%nat ->
  let st' := tickLoop env maxConcurrent fuel st in
  int_lt (Z.of_nat (size (running st'))) maxConcurrent = false
  \/ pending st' = []
  \/ (exists rest, pending st' = [] :: rest).
Proof.
  revert st. induction fuel as [|fuel IH]; intros st Hlen; cbv zeta.
  { right. left. simpl. destruct (pending st); [done|simpl in Hlen; lia]. }
  simpl.
  destruct (int_lt (Z.of_nat (size (running st))) maxConcurrent) eqn:Hlt;
    [|by left].
  destruct (pending st) as [|r rest] eqn:Hp; [by right; left|]. simpl.
  destruct r as [|c r]; simpl; [right; right; by exists rest|].
  apply IH. rewrite execute_pending. cbn [pending with_pending]. rewrite Hp.
  unfold set_delete. simpl. rewrite bool_decide_eq_true_2 by done. simpl.
  pose proof (filter_length_le
                (fun x => negb (bool_decide (x = c :: r))) rest).
  simpl in Hlen. lia.
Qed.

(** What a tick starts, read off the journal. *)
Lemma tick_fifo (st : State) :
  NoDup (pending st) ->
  exists popped,
    pending st = popped ++ pending (tick env maxConcurrent st)
    /\ startedBetween st (tick env maxConcurrent st)
       = List.filter (isQueued (db st)) popped.
Proof.
  intros Hst. unfold tick.
  destruct (tickLoop_fifo (length (pending st)) st Hst)
    as (popped & new & Hpop & Hev & Hstarted).
  exists popped. split; [exact Hpop|].
  by rewrite (startedBetween_new st _ new Hev).
Qed.

(** [pending.add(runId)]: a new run goes behind the runs that wait, a run
    that already waits keeps its place. *)
Lemma set_add_spec (r : jsstring) (s : list (list N)) :
  (r ∉ s -> set_add r s = s ++ [r]) /\ (r ∈ s -> set_add r s = s).
Proof.
  unfold set_add, set_has. by case_bool_decide.
Qed.

End QueueFifo.

Section QueueClaim.

Import Db Queue.

Context (env : Env).

(** C5.  In every state the queue reaches from its initial state, by any
    sequence of calls of its methods, ticks, executors settling (normally
    or by throwing) and writes to the runs table and the journal:
    [running] holds at most [maxConcurrent] runs when the cap is a
    non-negative integer; for any cap it holds at most [c] runs, for
    every integer [c >= 0] above every count [n >= 0] with
    [n < maxConcurrent] (two runs for a cap of 1.5); and [pending] holds
    each run once whatever the cap.  Runs are started in insertion
    order: [enqueue] puts a run that does not wait yet behind the runs
    that wait (a run that already waits keeps its place) and then ticks;
    a tick, also the one an executor that settles triggers, pops a prefix
    of [pending] and starts exactly the popped runs whose persisted status
    is queued, in that order; and it stops only when [running] is no
    longer below the cap or nothing startable is left. *)
Theorem queue_cap_and_fifo (d : Database) (ops : list Op) :
  (forall cap : Z,
     0 <= cap ->
     Z.of_nat (size (running (runOps env (of_int cap) d ops))) <= cap)
  /\ (forall (maxConcurrent : jsnumber) (cap : Z),
        0 <= cap ->
        (forall n, 0 <= n -> int_lt n maxConcurrent = true -> n < cap) ->
        Z.of_nat (size (running (runOps env maxConcurrent d ops))) <= cap)
  /\ forall maxConcurrent : jsnumber,
       NoDup (pending (runOps env maxConcurrent d ops))
       /\ forall st : State,
            NoDup (pending st) ->
            (let st' := tick env maxConcurrent st in
             (exists popped,
                pending st = popped ++ pending st'
                /\ startedBetween st st'
                   = List.filter (isQueued (db st)) popped)
             /\ (int_lt (Z.of_nat (size (running st'))) maxConcurrent = false
                 \/ pending st' = []
                 \/ (exists rest, pending st' = [] :: rest)))
            /\ (forall runId,
                  let st' := enqueue env maxConcurrent runId st in
                  let waiting :=
                    if bool_decide (runId ∈ pending st) then pending st
                    else pending st ++ [runId] in
                  exists popped,
                    waiting = popped ++ pending st'
                    /\ startedBetween st st'
                       = List.filter (isQueued (db st)) popped)
            /\ (forall run,
                  let st' := finish env maxConcurrent run None st in
                  exists popped,
                    pending st = popped ++ pending st'
                    /\ startedBetween st st'
                       = List.filter (isQueued (db st)) popped).
Proof.
  split.
  { intros cap Hcap. apply runOps_withinCap; [|done].
    intros n _ Hlt. rewrite int_lt_of_int in Hlt. by apply Z.ltb_lt. }
  split; [intros maxConcurrent cap Hcap Hbelow; by apply runOps_withinCap|].
  intros maxConcurrent. split; [apply runOps_NoDup|].
  intros st Hst. split; [|split].
  - split; [by apply tick_fifo|]. by apply tickLoop_exit.
  - intros runId st' waiting. subst st' waiting. unfold enqueue.
    set (st1 := with_pending (set_add runId) st).
    destruct (tick_fifo env maxConcurrent st1) as (popped & Hpop & Hstarted).
    { cbn [pending with_pending st1]. by apply set_add_NoDup. }
    exists popped. split; [|exact Hstarted].
    rewrite <- Hpop. cbn [pending with_pending st1].
    unfold set_add, set_has. by case_bool_decide.
  - intros run st'. subst st'. unfold finish.
    set (st1 := mkState _ _ _ _).
    by apply (tick_fifo env maxConcurrent st1).
Qed.

End QueueClaim.

Section QueueExamples.

Import Db Queue.

(** Three queued runs of one thread, and a queue that runs one at a
    time. *)
Definition queueDb : Database :=
  {| threads := {[ js "t1" := exampleThread ]};
     runs := <[ js "r1" := exampleRun ]>
               (<[ js "r2" := exampleRun ]> {[ js "r3" := exampleRun ]});
     events := [];
     automations := ∅;
     review_comments := ∅;
     clock_reads := 0;
     uuid_reads := 0 |}.

Definition threeEnqueued : State :=
  runOps exampleEnv (of_int 1) queueDb
    [OpEnqueue (js "r1"); OpEnqueue (js "r2"); OpEnqueue (js "r3")].

Example threeEnqueued_state :
  elements (running threeEnqueued) = [js "r1"]
  /\ pending threeEnqueued = [js "r2"; js "r3"].
Proof. by vm_compute. Qed.

Example threeEnqueued_next :
  let st := finish exampleEnv (of_int 1) (mkRunRecord (js "r1") exampleRun) None
              threeEnqueued in
  elements (running st) = [js "r2"] /\ pending st = [js "r3"].
Proof. by vm_compute. Qed.

(** C5, as stated, fails for a cap that is not a non-negative integer.
    The cap is [Number(process.env.RALPHD_CONCURRENCY ?? 2)], so 1.5 and
    -1 both reach the queue.  With 1.5 a second run starts while one
    runs, and two runs are more than 1.5; with -1 nothing ever starts,
    and the empty [running] is already above the cap. *)
Lemma queue_cap_exceeded :
  let half := Finite 3 (-1) in
  let reached :=
    runOps exampleEnv half queueDb [OpEnqueue (js "r1"); OpEnqueue (js "r2")] in
  size (running reached) = 2%nat
  /\ int_le (Z.of_nat (size (running reached))) half = false
  /\ int_le (Z.of_nat (size (running (initial queueDb)))) (of_int (-1))
     = false.
Proof. vm_compute. repeat split; reflexivity. Qed.

(** The state of [threeEnqueued] before its third run arrived. *)
Definition twoEnqueued : State :=
  runOps exampleEnv (of_int 1) queueDb
    [OpEnqueue (js "r1"); OpEnqueue (js "r2")].

(** A queue of capacity one: the third run is put behind the second, and
    when the first run settles the second one is started, not the
    third. *)
Lemma queue_cap_and_fifo_witness :
  Z.of_nat (size (running threeEnqueued)) <= 1
  /\ NoDup (pending twoEnqueued)
  /\ pending twoEnqueued = [js "r2"]
  /\ enqueue exampleEnv (of_int 1) (js "r3") twoEnqueued = threeEnqueued
  /\ (exists popped,
        pending twoEnqueued ++ [js "r3"] = popped ++ pending threeEnqueued
        /\ startedBetween twoEnqueued threeEnqueued
           = List.filter (isQueued (db twoEnqueued)) popped)
  /\ startedBetween threeEnqueued
       (finish exampleEnv (of_int 1) (mkRunRecord (js "r1") exampleRun) None
          threeEnqueued)
     = [js "r2"].
Proof.
  pose proof (queue_cap_and_fifo exampleEnv queueDb
                [OpEnqueue (js "r1"); OpEnqueue (js "r2"); OpEnqueue (js "r3")])
    as [Hcap _].
  pose proof (queue_cap_and_fifo exampleEnv queueDb
                [OpEnqueue (js "r1"); OpEnqueue (js "r2")])
    as (_ & _ & Hfifo).
  destruct (Hfifo (of_int 1)) as [Hnd Hstate].
  destruct (Hstate twoEnqueued Hnd) as (_ & Henqueue & _).
  assert (Hp : pending twoEnqueued = [js "r2"]) by (vm_compute; reflexivity).
  assert (Hin : bool_decide (js "r3" ∈ pending twoEnqueued) = false)
    by (vm_compute; reflexivity).
  assert (Hnext : startedBetween threeEnqueued
                    (finish exampleEnv (of_int 1)
                       (mkRunRecord (js "r1") exampleRun) None threeEnqueued)
                  = [js "r2"]) by (vm_compute; reflexivity).
  pose proof (Henqueue (js "r3")) as Hthird. cbv zeta in Hthird.
  rewrite Hin in Hthird.
  split; [exact (Hcap 1 ltac:(lia))|]. split; [exact Hnd|].
  split; [exact Hp|]. split; [reflexivity|]. split; [exact Hthird|exact Hnext].
Defined.

(** The second run finished by other means while it waited: when the
    first run settles, the tick pops the second without starting it and
    starts the third. *)
Example finished_run_not_started :
  let st :=
    runOps exampleEnv (of_int 1) queueDb
      [ OpEnqueue (js "r1"); OpEnqueue (js "r2"); OpEnqueue (js "r3");
        OpUpdateRunStatus (js "r2") Completed noUpdates ] in
  let st' := finish exampleEnv (of_int 1) (mkRunRecord (js "r1") exampleRun)
               None st in
  pending st = [js "r2"; js "r3"]
  /\ startedBetween st st' = [js "r3"]
  /\ pending st' = []
  /\ elements (running st') = [js "r3"].
Proof. vm_compute. repeat split; reflexivity. Qed.

Lemma pause_semantics_witness :
  fst (pause exampleEnv (js "r2") threeEnqueued) = true
  /\ js "r2" ∈ pending threeEnqueued
  /\ pending (snd (pause exampleEnv (js "r2") threeEnqueued)) = [js "r3"]
  /\ snd (pause exampleEnv (js "r1") threeEnqueued) = threeEnqueued.
Proof.
  pose proof (pause_semantics exampleEnv (js "r2") threeEnqueued)
    as (Hin & _ & Heff & _).
  pose proof (pause_semantics exampleEnv (js "r1") threeEnqueued)
    as (_ & _ & _ & Hno).
  cbv zeta in Hin, Heff, Hno.
  assert (Hok : fst (pause exampleEnv (js "r2") threeEnqueued) = true)
    by (by vm_compute).
  split; [exact Hok|]. split; [exact (Hin Hok)|]. split.
  - destruct (Heff Hok exampleRun ltac:(by vm_compute)) as (Hp & _).
    rewrite Hp. by vm_compute.
  - apply Hno. by vm_compute.
Defined.

End QueueExamples.

(** ** The worktree manager *)

Section WorktreeFacts.

Import Worktree.

Definition isLowerAlnum (c : N) : bool :=
  (((48 <=? c) && (c <=? 57)) || ((97 <=? c) && (c <=? 122)))%N.

Lemma shortIdOf_shape (threadId : jsstring) :
  (length (shortIdOf threadId) <= 10)%nat
  /\ Forall (fun c => isLowerAlnum c = true) (shortIdOf threadId).
Proof.
  unfold shortIdOf, toLowerCase, slice_to. split.
  - rewrite length_map, length_take. lia.
  - apply Forall_forall. intros c Hc.
    apply list_elem_of_In, in_map_iff in Hc as (x & <- & Hx).
    apply list_elem_of_In, elem_of_take in Hx as (i & Hi & _).
    apply list_elem_of_lookup_2, list_elem_of_In, filter_In in Hi as [_ Hal].
    unfold isAlnum in Hal. unfold isLowerAlnum.
    destruct ((65 <=? x) && (x <=? 90))%N eqn:Hup.
    + apply andb_true_iff in Hup as [H1 H2].
      apply N.leb_le in H1, H2.
      apply orb_true_iff. right. apply andb_true_iff.
      split; apply N.leb_le; lia.
    + by destruct ((48 <=? x) && (x <=? 57))%N,
                  ((97 <=? x) && (x <=? 122))%N.
Qed.

(** The directory name of the first attempt. *)
Definition worktreeName (threadId : jsstring) : jsstring :=
  if truthy (shortIdOf threadId) then shortIdOf threadId else js "thread".

(** The first attempt as the specification words it: the same name in the
    path and in the branch. *)
Definition claimedFirstAttempt (root : path) (threadId : jsstring)
    : GitCommand :=
  WorktreeAdd root (js "ralph/thread-" ++ worktreeName threadId)
              (root ++ [js ".ralph"; js "worktrees"; worktreeName threadId]).

(** A repository at /repo whose git accepts every command, at a fixed
    time. *)
Definition calmWorld : World :=
  {| git := fun _ c =>
       match c with
       | RevParseShowToplevel _ => mkSpawnResult (js "/repo" ++ nl) [] 0 3
       | WorktreeAdd _ _ _ => mkSpawnResult [] [] 0 3
       end;
     mkdir := fun _ => None;
     now := fun _ => 1700000000000;
     pathOf := fun _ => [js "repo"] |}.

(** C9, as stated, fails for a thread id without letters or digits: the
    directory is named "thread", but the branch carries the clock reading,
    not "thread". *)
Lemma createThreadWorktree_branch_of_empty_shortId :
  shortIdOf (js "--") = []
  /\ worktreeAdds (createThreadWorktree calmWorld (js "/repo") (js "--")).2
     = [WorktreeAdd [js "repo"] (js "ralph/thread-1700000000000")
                    [js "repo"; js ".ralph"; js "worktrees"; js "thread"]]
  /\ head (worktreeAdds
             (createThreadWorktree calmWorld (js "/repo") (js "--")).2)
     <> Some (claimedFirstAttempt [js "repo"] (js "--")).
Proof. by vm_compute. Qed.

(** C9 (amended).  With the repository root resolved, the directory
    root/.ralph/worktrees is created first; if that fails, the function
    throws that error and makes no attempt.  Otherwise the first attempt
    uses the path root/.ralph/worktrees/name, where [name] is the short id
    (the thread id without its non-alphanumeric characters, cut to 10
    characters, in lower case) or "thread" when the short id is empty, and
    the branch ralph/thread-shortId, or ralph/thread-timestamp when the
    short id is empty.  If that attempt succeeds it is the only one.  If
    it fails there is exactly one more, with a timestamp suffix on the
    branch and on the directory name, and its exit code decides the
    outcome. *)
Theorem createThreadWorktree_attempts (w : World) (repoPath threadId : jsstring)
    (root : path) :
  (resolveRepoRoot w repoPath).1 = inr root ->
  let shortId := shortIdOf threadId in
  let worktreeRoot := root ++ [js ".ralph"; js "worktrees"] in
  let branch1 :=
    js "ralph/thread-"
      ++ (if truthy shortId then shortId else of_number (now w 0%nat)) in
  let path1 := worktreeRoot ++ [worktreeName threadId] in
  let reads := if truthy shortId then 0%nat else 1%nat in
  let branch2 := branch1 ++ js "-" ++ of_number (now w reads) in
  let path2 :=
    worktreeRoot
      ++ [worktreeName threadId ++ js "-" ++ of_number (now w (S reads))] in
  let first := WorktreeAdd root branch1 path1 in
  let second := WorktreeAdd root branch2 path2 in
  let out := createThreadWorktree w repoPath threadId in
  ((length shortId <= 10)%nat
   /\ Forall (fun c => isLowerAlnum c = true) shortId)
  /\ (forall message, mkdir w worktreeRoot = Some message ->
        worktreeAdds out.2 = [] /\ out.1 = inl message)
  /\ (mkdir w worktreeRoot = None ->
        (exitCode (git w 1%nat first) = 0 ->
           worktreeAdds out.2 = [first]
           /\ out.1 = inr (mkWorktreeSetupResult root path1 branch1))
        /\ (exitCode (git w 1%nat first) <> 0 ->
              worktreeAdds out.2 = [first; second]
              /\ (exitCode (git w 2%nat second) = 0 ->
                    out.1 = inr (mkWorktreeSetupResult root path2 branch2))
              /\ (exitCode (git w 2%nat second) <> 0 ->
                    exists message, out.1 = inl message))).
Proof.
  intros Hroot. cbv zeta. split; [apply shortIdOf_shape|].
  unfold createThreadWorktree, worktreeName, or_else.
  destruct (resolveRepoRoot w repoPath) as [[message|root'] calls] eqn:Hres;
    simpl in Hroot; [done|]. injection Hroot as ->.
  assert (Hcalls : calls = [Git (RevParseShowToplevel repoPath)]).
  { unfold resolveRepoRoot in Hres.
    destruct (negb _ || negb _); by injection Hres as _ <-. }
  subst calls. unfold resolve.
  split; [intros message ->; by split|]. intros ->.
  destruct (truthy (shortIdOf threadId)) eqn:Hshort; cbv zeta.
  all: split;
    [ intros Hok; rewrite Hok; change (negb (0 =? 0)) with false; cbv iota;
      by split
    | intros Hfail; apply Z.eqb_neq in Hfail; rewrite Hfail;
      change (negb false) with true; cbv iota;
      match goal with
      | |- context [negb (exitCode ?g =? 0)] =>
          destruct (Z.eqb_spec (exitCode g) 0) as [H2|H2]
      end;
      cbn [negb]; cbv iota;
      (split; [reflexivity|]); split; intros H2'; try done; by eexists ].
Qed.

(** A repository where the first attempt collides and the retry works. *)
Definition busyWorld : World :=
  {| git := fun n c =>
       match c with
       | RevParseShowToplevel _ => mkSpawnResult (js "/repo" ++ nl) [] 0 3
       | WorktreeAdd _ _ _ =>
           if Nat.eqb n 1 then mkSpawnResult [] (js "already exists") 128 3
           else mkSpawnResult [] [] 0 3
       end;
     mkdir := fun _ => None;
     now := fun n => 1700000000000 + Z.of_nat n;
     pathOf := fun _ => [js "repo"] |}.

Lemma createThreadWorktree_attempts_witness :
  (resolveRepoRoot busyWorld (js "/repo")).1 = inr [js "repo"]
  /\ worktreeAdds
       (createThreadWorktree busyWorld (js "/repo")
          (js "3F2504E0-4F89-11D3-9A0C-0305E82C3301")).2
     = [ WorktreeAdd [js "repo"] (js "ralph/thread-3f2504e04f")
           [js "repo"; js ".ralph"; js "worktrees"; js "3f2504e04f"];
         WorktreeAdd [js "repo"] (js "ralph/thread-3f2504e04f-1700000000000")
           [js "repo"; js ".ralph"; js "worktrees";
            js "3f2504e04f-1700000000001"] ].
Proof.
  assert (Hroot : (resolveRepoRoot busyWorld (js "/repo")).1 = inr [js "repo"])
    by reflexivity.
  split; [exact Hroot|].
  pose proof (createThreadWorktree_attempts busyWorld (js "/repo")
                (js "3F2504E0-4F89-11D3-9A0C-0305E82C3301") [js "repo"] Hroot)
    as H.
  cbv zeta in H. destruct H as (_ & _ & Hmade).
  destruct (Hmade eq_refl) as (_ & Hretry).
  destruct Hretry as [Hadds _]; [vm_compute; discriminate|].
  etrans; [exact Hadds|].
  vm_compute. reflexivity.
Defined.

End WorktreeFacts.

(** ** What the queue leaves alone in the database *)

Section QueueFrame.

Import Db Queue.

Context (env : Env) (maxConcurrent : jsnumber).

(** Every run is still there, for the same thread, with the same task
    override and source run. *)
Definition runsKept (d d' : Database) : Prop :=
  forall r row, runs d !! r = Some row ->
    exists row', runs d' !! r = Some row'
                 /\ r_taskOverride row' = r_taskOverride row
                 /\ r_sourceRunId row' = r_sourceRunId row
                 /\ r_threadId row' = r_threadId row.

Definition startedOnly (new : list EventRecord) : Prop :=
  Forall (fun e => ev_type e = run_started \/ ev_type e = run_failed) new.

(** The footprint of [tick]: it rewrites rows of runs it starts, touches
    their threads and appends [run.started] (and, for a run whose thread
    is gone, [run.failed]) events, nothing else. *)
Definition tickFrame (d d' : Database) : Prop :=
  automations d' = automations d
  /\ review_comments d' = review_comments d
  /\ dom (threads d') = dom (threads d)
  /\ runsKept d d'
  /\ exists new, events d' = events d ++ new /\ startedOnly new.

Lemma runsKept_refl (d : Database) : runsKept d d.
Proof. intros r row H. by exists row. Qed.

Lemma runsKept_trans (d1 d2 d3 : Database) :
  runsKept d1 d2 -> runsKept d2 d3 -> runsKept d1 d3.
Proof.
  intros H12 H23 r row H.
  destruct (H12 r row H) as (row2 & Hrow2 & ? & ? & ?).
  destruct (H23 r row2 Hrow2) as (row3 & Hrow3 & ? & ? & ?).
  exists row3. repeat split; [done|congruence..].
Qed.

Lemma tickFrame_refl (d : Database) : tickFrame d d.
Proof.
  repeat split; [apply runsKept_refl|].
  exists []. split; [by rewrite app_nil_r|constructor].
Qed.

Lemma tickFrame_trans (d1 d2 d3 : Database) :
  tickFrame d1 d2 -> tickFrame d2 d3 -> tickFrame d1 d3.
Proof.
  intros (Ha & Hc & Ht & Hr & new & He & Hs)
         (Ha' & Hc' & Ht' & Hr' & new' & He' & Hs').
  repeat split; [congruence..|by eapply runsKept_trans|].
  exists (new ++ new'). split; [by rewrite He', He, app_assoc|].
  by apply Forall_app.
Qed.

Lemma execute_frame (r : jsstring) (st : State) :
  tickFrame (db st) (db (execute env r st)).
Proof.
  destruct (isQueued (db st) r) eqn:Hq.
  - destruct (execute_queued env r st Hq)
      as (_ & _ & (e & more & He & Hty & _ & Hmore)
          & Ha & Hc & Ht & Hother & Hrow).
    repeat split; [done..| |].
    + intros r' row Hr'. destruct (decide (r' = r)) as [->|Hne].
      * by apply Hrow.
      * exists row. by rewrite Hother.
    + exists (e :: more). split; [done|]. constructor; [by left|].
      eapply Forall_impl; [exact Hmore|]. intros x Hx. by right.
  - rewrite execute_not_queued by done. apply tickFrame_refl.
Qed.

Lemma tickLoop_frame (fuel : nat) (st : State) :
  tickFrame (db st) (db (tickLoop env maxConcurrent fuel st)).
Proof.
  apply (tickLoop_preserves env maxConcurrent
           (fun st' => tickFrame (db st) (db st'))); [|apply tickFrame_refl].
  intros st' r rest Hframe _ _ _.
  eapply tickFrame_trans; [exact Hframe|].
  apply (execute_frame r (with_pending (set_delete r) st')).
Qed.

Lemma enqueue_frame (r : jsstring) (st : State) :
  tickFrame (db st) (db (enqueue env maxConcurrent r st)).
Proof. apply (tickLoop_frame _ (with_pending (set_add r) st)). Qed.

Lemma createRun_spec (input : CreateRunInput) (d : Database) :
  let run := (createRun env input d).1 in
  let d' := (createRun env input d).2 in
  run_id run = uuid env (uuid_reads d)
  /\ r_taskOverride (run_row run) = None
  /\ r_sourceRunId (run_row run) = None
  /\ r_threadId (run_row run) = in_threadId input
  /\ r_maxIterations (run_row run) = in_maxIterations input
  /\ r_status (run_row run) = Queued
  /\ runs d' = <[run_id run := run_row run]> (runs d)
  /\ events d' = events d
  /\ automations d' = automations d
  /\ review_comments d' = review_comments d
  /\ dom (threads d') = dom (threads d).
Proof.
  unfold createRun. cbn. repeat split. apply dom_alter_L.
Qed.

End QueueFrame.

(** ** The feedback rerun *)

Section FeedbackFacts.

Import Db Queue Feedback.

Context (env : Env) (maxConcurrent : jsnumber).

(** A comment row once applied. *)
Definition appliedRow (c : CommentRow) : CommentRow :=
  mkCommentRow (c_threadId c) (c_runId c) (c_filePath c) (c_lineNumber c)
               (c_body c) Applied (c_createdAt c).

(** The text of a comment in the feedback list, without its number. *)
Definition commentText (c : ReviewCommentRecord) : jsstring :=
  c_filePath (comment_row c) ++ js ":"
    ++ of_number (c_lineNumber (comment_row c)) ++ js " - "
    ++ c_body (comment_row c).

Lemma join_cons_tail (sep : jsstring) (s : list N) (l : list (list N))
    (ps : list (list N)) :
  in_order ps (join sep l) ->
  exists tail, join sep (s :: l) = s ++ tail /\ in_order ps tail.
Proof.
  intros H. destruct l as [|x l].
  - exists []. by rewrite app_nil_r.
  - exists (sep ++ join sep (x :: l)). split; [done|].
    by apply in_order_prepend.
Qed.

Lemma in_order_join_pieces (sep : jsstring) (pieces secs : list (list N)) :
  Forall2 (fun piece sec => exists a b, sec = a ++ piece ++ b) pieces secs ->
  in_order pieces (join sep secs).
Proof.
  induction 1 as [|piece sec pieces secs (a & b & ->) _ IH]; [constructor|].
  destruct (join_cons_tail sep (a ++ piece ++ b) secs pieces IH)
    as (tail & -> & Htail).
  rewrite <- !app_assoc. constructor. by apply in_order_prepend.
Qed.

Lemma imap_pieces (comments : list ReviewCommentRecord)
    (f : nat -> ReviewCommentRecord -> list N) :
  (forall i c, exists a, f i c = a ++ commentText c) ->
  Forall2 (fun piece sec => exists a b, sec = a ++ piece ++ b)
          (List.map commentText comments) (imap f comments).
Proof.
  revert f. induction comments as [|c comments IH]; intros f Hf; [constructor|].
  cbn [imap List.map]. constructor.
  - destruct (Hf 0%nat c) as [a ->]. exists a, []. by rewrite app_nil_r.
  - apply IH. intros i c'. apply (Hf (S i) c').
Qed.

Lemma feedbackLines_pieces (comments : list ReviewCommentRecord) :
  in_order (List.map commentText comments)
           (join nl (imap feedbackLine comments)).
Proof.
  apply in_order_join_pieces, imap_pieces. intros i c.
  exists (of_number (Z.of_nat i + 1) ++ js ". ").
  unfold feedbackLine, commentText. by rewrite <- app_assoc.
Qed.

Lemma markApplied_lookup (threadId : jsstring) (ids : list Z) (d : Database)
    (id : Z) :
  review_comments (markReviewCommentsApplied threadId ids d) !! id
  = if bool_decide (id ∈ ids)
    then (fun c => if decide (c_threadId c = threadId) then appliedRow c else c)
           <$> review_comments d !! id
    else review_comments d !! id.
Proof.
  unfold markReviewCommentsApplied. cbn [review_comments with_review_comments].
  induction ids as [|a ids IH]; [done|].
  cbn [foldr]. destruct (decide (a = id)) as [->|Hne].
  - rewrite lookup_alter_eq, IH.
    rewrite (bool_decide_eq_true_2 (id ∈ id :: ids)) by apply list_elem_of_here.
    case_bool_decide; [|done].
    destruct (review_comments d !! id) as [c|]; [|done]. simpl. f_equal.
    destruct (decide (c_threadId c = threadId)) as [Heq|Hneq]; simpl.
    + by rewrite decide_True.
    + by rewrite decide_False.
  - rewrite lookup_alter_ne, IH by done.
    assert (Hiff : id ∈ a :: ids <-> id ∈ ids).
    { rewrite elem_of_cons. split; [intros [Heq|Hin]|by right]; [|done].
      by subst. }
    by rewrite (bool_decide_ext _ _ Hiff).
Qed.

Lemma selected_elem (threadId : jsstring) (ids : list Z) (d : Database)
    (c : ReviewCommentRecord) :
  c ∈ getReviewCommentsByIds threadId ids d ->
  comment_id c ∈ ids
  /\ review_comments d !! comment_id c = Some (comment_row c)
  /\ c_threadId (comment_row c) = threadId.
Proof.
  unfold getReviewCommentsByIds. rewrite list_elem_of_omap.
  intros (id & Hid & Hc).
  destruct (review_comments d !! id) as [row|] eqn:Hrow; [|done].
  destruct (decide (c_threadId row = threadId)); [|done].
  injection Hc as <-. done.
Qed.

(** The selection is made of the submitted ids that name a comment of
    the thread, in the submitted order. *)
Lemma selected_ids (threadId : jsstring) (ids : list Z) (d : Database) :
  List.map comment_id (getReviewCommentsByIds threadId ids d)
  = List.filter
      (fun id => match review_comments d !! id with
                 | Some row => bool_decide (c_threadId row = threadId)
                 | None => false
                 end) ids.
Proof.
  unfold getReviewCommentsByIds.
  induction ids as [|id ids IH]; [done|].
  cbn [omap list_omap List.filter].
  destruct (review_comments d !! id) as [row|]; [|exact IH].
  destruct (decide (c_threadId row = threadId)) as [Heq|Hne].
  - rewrite bool_decide_eq_true_2 by done. cbn [List.map comment_id].
    f_equal. exact IH.
  - rewrite bool_decide_eq_false_2 by done. exact IH.
Qed.

(** What the handler does for a thread that exists, a request the schema
    accepts and a non-empty selection.  It builds the task override out
    of the thread's task, a blank line, the header and one numbered line
    per selected comment, and hands it to [createRun] with the run of the
    first selected comment; the run [createRun] returns, which is the run
    of the 201 answer and of the stored row, has neither.  Every selected
    comment is stored as applied with its other columns untouched,
    comments outside the request are untouched, and marking the same ids
    again changes nothing. *)
Lemma rerunFromComments_effect (threadId : jsstring) (commentIds : list Z)
    (st : State) (thread : ThreadRecord) :
  getThread threadId (db st) = Some thread ->
  schemaAccepts commentIds = true ->
  let selected := getReviewCommentsByIds threadId commentIds (db st) in
  selected <> [] ->
  let out := rerunFromComments env maxConcurrent threadId commentIds st in
  let expected :=
    th_task (thread_row thread) ++ nl ++ nl
      ++ js "Address the following review feedback before declaring completion:"
      ++ nl
      ++ join nl
           (imap (fun i c =>
                    of_number (Z.of_nat i + 1) ++ js ". "
                      ++ c_filePath (comment_row c) ++ js ":"
                      ++ of_number (c_lineNumber (comment_row c)) ++ js " - "
                      ++ c_body (comment_row c)) selected) in
  exists run,
    out.1 = mkResponse 201 (RunBody run)
    /\ taskOverrideOf thread selected = expected
    /\ in_order (List.map commentText selected) expected
    /\ r_taskOverride (run_row run) = None
    /\ r_sourceRunId (run_row run) = None
    /\ r_threadId (run_row run) = threadId
    /\ (exists stored,
          runs (db out.2) !! run_id run = Some stored
          /\ r_taskOverride stored = None
          /\ r_sourceRunId stored = None
          /\ r_threadId stored = threadId)
    /\ (forall c, c ∈ selected ->
          review_comments (db out.2) !! comment_id c
          = Some (appliedRow (comment_row c)))
    /\ (forall id, id ∉ commentIds ->
          review_comments (db out.2) !! id = review_comments (db st) !! id)
    /\ review_comments (markReviewCommentsApplied threadId commentIds (db out.2))
       = review_comments (db out.2).
Proof.
  intros Hthread Hschema selected Hsel out expected.
  subst out. unfold rerunFromComments. rewrite Hthread, Hschema.
  cbn [negb]. fold selected.
  destruct (Z.eqb_spec (Z.of_nat (length selected)) 0) as [Hlen|_].
  { destruct selected; [done|simpl in Hlen; lia]. }
  set (input := mkCreateRunInput threadId 10 _ _).
  pose proof (createRun_spec env input (db st))
    as (_ & Hover & Hsrc & Hthr & _ & _ & Hruns & _ & _ & Hcom & _).
  destruct (createRun env input (db st)) as [run d1] eqn:Hcreate.
  cbn [fst snd] in *.
  set (d2 := markReviewCommentsApplied threadId commentIds d1).
  set (d3 := emitEvent env threadId (Some (run_id run)) review_rerun_queued _ d2).
  set (st3 := with_db (fun _ => d3) st).
  pose proof (enqueue_frame env maxConcurrent (run_id run) st3)
    as (_ & Hcom' & _ & Hkept & _).
  assert (Hexp : taskOverrideOf thread selected = expected) by reflexivity.
  assert (Hrow3 : runs (db st3) !! run_id run = Some (run_row run)).
  { change (runs (db st3)) with (runs d1). rewrite Hruns.
    apply lookup_insert_eq. }
  assert (Hcom3 : forall id,
             review_comments (db (enqueue env maxConcurrent (run_id run) st3))
               !! id
             = if bool_decide (id ∈ commentIds)
               then (fun c => if decide (c_threadId c = threadId)
                              then appliedRow c else c)
                      <$> review_comments (db st) !! id
               else review_comments (db st) !! id).
  { intros id. rewrite Hcom'.
    change (review_comments (db st3)) with (review_comments d2).
    subst d2. by rewrite markApplied_lookup, Hcom. }
  exists run. split; [done|]. split; [done|].
  split.
  { subst expected. do 5 apply in_order_prepend. apply feedbackLines_pieces. }
  split; [done|]. split; [done|]. split; [done|]. split.
  { destruct (Hkept (run_id run) (run_row run) Hrow3)
      as (stored & Hstored & Ho & Hs & Ht).
    exists stored. split; [done|]. by rewrite Ho, Hs, Ht. }
  split.
  { intros c Hc. apply selected_elem in Hc as (Hin & Hrow & Hth).
    rewrite Hcom3, bool_decide_eq_true_2, Hrow by done. simpl.
    by rewrite decide_True. }
  split.
  { intros id Hnot. by rewrite Hcom3, bool_decide_eq_false_2. }
  apply map_eq. intros id. rewrite markApplied_lookup, !Hcom3.
  case_bool_decide; [|done].
  destruct (review_comments (db st) !! id) as [c|]; [|done]. simpl. f_equal.
  destruct (decide (c_threadId c = threadId)); simpl.
  - by rewrite decide_True.
  - by rewrite decide_False.
Qed.

End FeedbackFacts.

Section FeedbackExample.

Import Db Queue Feedback.




End FeedbackExample.

(** ** The automation scheduler *)

Section SchedulerFacts.

Import Db Queue Scheduler.

Context (integerOf : jsstring -> option Z) (localTime : Z -> DateFields).
Context (env : Env) (maxConcurrent : jsnumber).

(** A cron field, in the words of the specification: a star, or an
    integer literal equal to the clock's value. *)
Definition fieldMatches (part : jsstring) (value : Z) : Prop :=
  part = js "*" \/ integerOf part = Some value.

Definition cronMatches (cron : jsstring) (date : DateFields) : Prop :=
  exists minute hour dayOfMonth month dayOfWeek,
    split_whitespace (trim cron) = [minute; hour; dayOfMonth; month; dayOfWeek]
    /\ fieldMatches minute (getMinutes date)
    /\ fieldMatches hour (getHours date)
    /\ fieldMatches dayOfMonth (getDate date)
    /\ fieldMatches month (getMonth date + 1)
    /\ fieldMatches dayOfWeek (getDay date).

(** The minute bucket of an epoch time in milliseconds. *)
Definition minuteBucket (t : Z) : Z := t / 60000.

(** The current minute bucket differs from that of the last trigger, if
    there was one. *)
Definition bucketDiffers (nowMs : Z) (lastRunAt : option Z) : Prop :=
  match lastRunAt with
  | Some t => minuteBucket nowMs <> minuteBucket t
  | None => True
  end.

Lemma cronPartMatches_spec (part : jsstring) (value : Z) :
  cronPartMatches integerOf part value = true <-> fieldMatches part value.
Proof.
  unfold cronPartMatches, fieldMatches. case_bool_decide as Hstar.
  - split; [by left|done].
  - destruct (integerOf part) as [n|].
    + rewrite Z.eqb_eq. split; [intros ->; by right|].
      intros [?|[= ->]]; done.
    + split; [done|]. intros [?|?]; done.
Qed.

Lemma matchesSimpleCron_spec (cron : jsstring) (date : DateFields) :
  matchesSimpleCron integerOf cron date = true <-> cronMatches cron date.
Proof.
  unfold matchesSimpleCron, cronMatches.
  destruct (split_whitespace (trim cron))
    as [|f1 [|f2 [|f3 [|f4 [|f5 [|f6 rest]]]]]];
    try (split; [done|]; intros (? & ? & ? & ? & ? & [=] & _)).
  rewrite !andb_true_iff, !cronPartMatches_spec. split.
  - intros ((((? & ?) & ?) & ?) & ?). by exists f1, f2, f3, f4, f5.
  - intros (? & ? & ? & ? & ? & [= <- <- <- <- <-] & ? & ? & ? & ? & ?). done.
Qed.

Lemma due_spec (now : DateFields) (nowMs : Z) (a : AutomationRecord) :
  0 <= nowMs ->
  a_lastRunAt (automation_row a) <> Some 0 ->
  due integerOf now (nowMs / 60000) a = true
  <-> truthy (a_threadId (automation_row a)) = true
      /\ cronMatches (a_cron (automation_row a)) now
      /\ bucketDiffers nowMs (a_lastRunAt (automation_row a)).
Proof.
  intros Hnow Hlast. unfold due.
  destruct (truthy (a_threadId (automation_row a))); simpl;
    [|split; [done|by intros [? _]]].
  rewrite <- matchesSimpleCron_spec.
  destruct (matchesSimpleCron integerOf (a_cron (automation_row a)) now);
    simpl; [|split; [done|by intros (_ & ? & _)]].
  unfold lastMinuteBucket, bucketDiffers, minuteBucket.
  destruct (a_lastRunAt (automation_row a)) as [t|].
  - destruct (Z.eqb_spec t 0) as [->|_]; [done|].
    destruct (Z.eqb_spec (t / 60000) (nowMs / 60000)) as [Heq|Hne].
    + split; [done|]. intros (_ & _ & H). by rewrite Heq in H.
    + split; [|done]. intros _. split; [done|]. split; [done|]. congruence.
  - assert (0 <= nowMs / 60000) by (apply Z.div_pos; lia).
    destruct (Z.eqb_spec (-1) (nowMs / 60000)); [lia|done].
Qed.

End SchedulerFacts.

Section SchedulerTick.

Import Db Queue Scheduler.

Context (integerOf : jsstring -> option Z) (localTime : Z -> DateFields).
Context (env : Env) (maxConcurrent : jsnumber).

(** Every automation is still there, linked to the same thread. *)
Definition automationsKept (d d' : Database) : Prop :=
  forall id row, automations d !! id = Some row ->
    exists row', automations d' !! id = Some row'
                 /\ a_threadId row' = a_threadId row.

Lemma startedOnly_no_trigger (new : list EventRecord) :
  startedOnly new -> omap automationOf new = [].
Proof.
  induction 1 as [|e new Hty _ IH]; [done|].
  change (omap automationOf (e :: new))
    with (match automationOf e with
          | Some y => y :: omap automationOf new
          | None => omap automationOf new
          end).
  unfold automationOf at 1.
  rewrite decide_False; [done|]. by destruct Hty as [-> | ->].
Qed.

Lemma triggerAutomationRun_linked (id : jsstring) (source : TriggerSource)
    (s : State) (row : AutomationRow) :
  automations (db s) !! id = Some row ->
  truthy (a_threadId row) = true ->
  a_threadId row ∈ dom (threads (db s)) ->
  exists run s' new,
    triggerAutomationRun env maxConcurrent id source s = (inr run, s')
    /\ r_threadId (run_row run) = a_threadId row
    /\ r_maxIterations (run_row run) = a_maxIterations row
    /\ events (db s') = events (db s) ++ new
    /\ omap automationOf new = [id]
    /\ dom (threads (db s')) = dom (threads (db s))
    /\ automationsKept (db s) (db s').
Proof.
  intros Hrow Hlinked Hthread.
  apply elem_of_dom in Hthread as [thread Hthread].
  unfold triggerAutomationRun, getAutomation, getThread.
  rewrite Hrow. cbn [fmap option_fmap option_map automation_row automation_id].
  rewrite Hlinked, Hthread. cbn [negb fmap option_fmap option_map thread_id].
  set (input := mkCreateRunInput (a_threadId row) (a_maxIterations row) None None).
  pose proof (createRun_spec env input (db s))
    as (_ & _ & _ & Hthr & Hmax & _ & _ & Hev & Hau & _ & Hth).
  destruct (createRun env input (db s)) as [run d1] eqn:Hcreate.
  cbn [fst snd] in *.
  set (d2 := markAutomationTriggered env id d1).
  set (d3 := emitEvent env (a_threadId row) (Some (run_id run))
               automation_triggered _ d2).
  set (d4 := emitEvent env (a_threadId row) (Some (run_id run)) run_queued _ d3).
  set (s4 := with_db (fun _ => d4) s).
  pose proof (enqueue_frame env maxConcurrent (run_id run) s4)
    as (Hau' & _ & Hth' & _ & new & Hev' & Hnew).
  eexists run, _, _. split; [reflexivity|].
  split; [done|]. split; [done|]. split.
  { rewrite Hev'. change (events (db s4)) with (events d4).
    subst d4. rewrite emitEvent_events. subst d3. rewrite emitEvent_events.
    change (events d2) with (events d1). rewrite Hev.
    rewrite <- !app_assoc. reflexivity. }
  split.
  { cbn [app].
    match goal with
    | |- omap automationOf (?e1 :: ?e2 :: new) = _ =>
        change (omap automationOf (e1 :: e2 :: new))
          with (id :: omap automationOf new)
    end.
    by rewrite startedOnly_no_trigger. }
  split.
  { rewrite Hth'. change (threads (db s4)) with (threads d1). done. }
  intros id' row' Hrow'. rewrite Hau'.
  change (automations (db s4))
    with (alter (fun a =>
            mkAutomationRow (a_name a) (a_cron a) (a_threadId a)
                            (a_maxIterations a) (a_enabled a)
                            (Some (clock env (clock_reads d1)))
                            (a_createdAt a) (clock env (clock_reads d1)))
            id (automations d1)).
  rewrite Hau. destruct (decide (id = id')) as [<-|Hne].
  - rewrite lookup_alter_eq, Hrow'. by eexists.
  - rewrite lookup_alter_ne by done. by exists row'.
Qed.

(** The loop triggers the due automations of its list, in order. *)
Lemma tickAutomations_spec (now : DateFields) (bucket : Z)
    (todo : list AutomationRecord) (s : State) :
  (forall a, a ∈ todo -> due integerOf now bucket a = true ->
     exists row, automations (db s) !! automation_id a = Some row
                 /\ a_threadId row = a_threadId (automation_row a)
                 /\ a_threadId row ∈ dom (threads (db s))) ->
  exists new,
    (tickAutomations integerOf env maxConcurrent now bucket todo s).1 = None
    /\ events (db (tickAutomations integerOf env maxConcurrent now bucket
                     todo s).2)
       = events (db s) ++ new
    /\ omap automationOf new
       = List.map automation_id (List.filter (due integerOf now bucket) todo).
Proof.
  revert s. induction todo as [|a todo IH]; intros s Hpre.
  { exists []. by rewrite app_nil_r. }
  cbn [tickAutomations List.filter].
  destruct (due integerOf now bucket a) eqn:Hdue.
  - destruct (Hpre a (list_elem_of_here _ _) Hdue) as (row & Hrow & Hsame & Hdom).
    assert (Hlinked : truthy (a_threadId row) = true).
    { rewrite Hsame. unfold due in Hdue.
      by destruct (truthy (a_threadId (automation_row a))). }
    destruct (triggerAutomationRun_linked (automation_id a) scheduled s row
                Hrow Hlinked Hdom)
      as (run & s' & new & -> & _ & _ & Hev & Hnew & Hth & Hkept).
    destruct (IH s') as (new' & Hnone & Hev' & Hnew').
    { intros b Hb Hbdue.
      destruct (Hpre b (list_elem_of_further _ _ _ Hb) Hbdue)
        as (rowb & Hrowb & Hsameb & Hdomb).
      destruct (Hkept _ _ Hrowb) as (rowb' & Hrowb' & Hthb).
      exists rowb'. split; [done|]. split; [congruence|].
      rewrite Hth, Hthb. done. }
    exists (new ++ new'). split; [done|]. split.
    + by rewrite Hev', Hev, app_assoc.
    + rewrite omap_app, Hnew, Hnew'. done.
  - apply IH. intros b Hb. apply Hpre. by apply list_elem_of_further.
Qed.

End SchedulerTick.


(* ===================================================================== *)
(** * Further properties of the loop, the queue and the daemon *)
(* ===================================================================== *)

(** ** How a run of the loop can end *)

Section RunnerOutcomes.

Import Validator Promise Prompt Runner.

(** The iteration numbers of the [iteration.started] events among the
    actions of a run, oldest first. *)
Definition startedIterations (acts : list Action) : list Z :=
  omap (fun a =>
          match a with
          | Emit e =>
              match e_type e with
              | loop_iteration_started => Some (e_iteration e)
              | _ => None
              end
          | _ => None
          end) acts.

Definition isEmit (a : Action) : Prop :=
  match a with Emit _ => True | _ => False end.

Lemma iterationBody_cases (opts : RunTaskOptions) (w : World)
    (st : LoopState) (i : Z) :
  (aborted w i = true
   /\ iterationBody opts w st i
      = (Return {| success := false; iterations := i - 1;
                   taskId := opt_taskId opts; cancelled := true |}, []))
  \/ (aborted w i = false /\ dryRun opts = true
      /\ iterationBody opts w st i
         = (Return {| success := true; iterations := 0;
                      taskId := opt_taskId opts; cancelled := false |},
            [Emit (mkLoopEvent loop_iteration_started i NoPayload)]))
  \/ (aborted w i = false /\ dryRun opts = false
      /\ iterationBody opts w st i
         = (Return {| success := true; iterations := i;
                      taskId := opt_taskId opts; cancelled := false |},
            spawnEvents opts w st i
              ++ (if gitCheckpoint opts
                  then [CommitAll (completeMessage opts i)] else [])))
  \/ (aborted w i = false /\ dryRun opts = false
      /\ iterationBody opts w st i
         = (Next (regressionHandling opts st i (validationAt opts w i)).1,
            spawnEvents opts w st i
              ++ (regressionHandling opts st i (validationAt opts w i)).2)).
Proof.
  destruct (aborted w i) eqn:Habort.
  { left. split; [done|]. unfold iterationBody. by rewrite Habort. }
  destruct (dryRun opts) eqn:Hdry.
  { right. left. split; [done|]. split; [done|].
    unfold iterationBody. by rewrite Habort, Hdry. }
  destruct (complete opts w st i) eqn:Hok.
  - right. right. left. split; [done|]. split; [done|].
    by apply iterationBody_complete.
  - right. right. right. split; [done|]. split; [done|].
    by apply iterationBody_incomplete.
Qed.

Lemma loopFrom_taskId (opts : RunTaskOptions) (w : World) (fuel : nat)
    (i : Z) (st : LoopState) :
  taskId (result (loopFrom opts w fuel i st)) = opt_taskId opts.
Proof.
  revert i st. induction fuel as [|fuel IH]; intros i st; [done|].
  destruct (iterationBody_cases opts w st i)
    as [[_ H]|[(_ & _ & H)|[(_ & _ & H)|(_ & _ & H)]]].
  1-3: by rewrite (loopFrom_return _ _ _ _ _ _ _ H).
  rewrite (loopFrom_next _ _ _ _ _ _ _ H). apply IH.
Qed.

(** The three ways out of the loop, from iteration [i] with [fuel]
    iterations left. *)
Lemma loopFrom_outcomes (opts : RunTaskOptions) (w : World) (fuel : nat)
    (i : Z) (st : LoopState) :
  let r := result (loopFrom opts w fuel i st) in
  (success r = true ->
     cancelled r = false
     /\ (dryRun opts = true -> iterations r = 0)
     /\ (dryRun opts = false -> i <= iterations r < i + Z.of_nat fuel))
  /\ (cancelled r = true ->
        success r = false
        /\ i - 1 <= iterations r < i - 1 + Z.of_nat fuel
        /\ aborted w (iterations r + 1) = true
        /\ forall j, i <= j <= iterations r -> aborted w j = false)
  /\ (success r = false -> cancelled r = false ->
        iterations r = o_maxIterations opts).
Proof.
  revert i st. induction fuel as [|fuel IH]; intros i st; [done|].
  destruct (iterationBody_cases opts w st i)
    as [[Ha H]|[(Ha & Hd & H)|[(Ha & Hd & H)|(Ha & Hd & H)]]].
  - rewrite (loopFrom_return _ _ _ _ _ _ _ H). cbn.
    split; [done|]. split; [|done]. intros _. split; [done|].
    split; [lia|]. split; [by replace (i - 1 + 1) with i by lia|lia].
  - rewrite (loopFrom_return _ _ _ _ _ _ _ H). cbn.
    split; [|done]. intros _. split; [done|]. split; [done|].
    by rewrite Hd.
  - rewrite (loopFrom_return _ _ _ _ _ _ _ H). cbn.
    split; [|done]. intros _. split; [done|]. split; [by rewrite Hd|].
    intros _. lia.
  - rewrite (loopFrom_next _ _ _ _ _ _ _ H). cbn [result].
    destruct (IH (i + 1) (regressionHandling opts st i
                            (validationAt opts w i)).1) as (Hs & Hc & He).
    cbv zeta in Hs, Hc, He. split; [|split; [|done]].
    + intros Hok. destruct (Hs Hok) as (? & ? & Hrange).
      split; [done|]. split; [done|]. intros Hdry.
      specialize (Hrange Hdry). lia.
    + intros Hcan. destruct (Hc Hcan) as (? & ? & ? & Hbefore).
      split; [done|]. split; [lia|]. split; [done|].
      intros j Hj. destruct (decide (j = i)) as [->|Hne]; [done|].
      apply Hbefore. lia.
Qed.

(** X1.  Every run of [runTaskLoop] ends in exactly one of three ways.
    Success is never cancelled and reports 0 iterations in a dry run and
    otherwise an iteration between 1 and [maxIterations].  A cancelled run
    is not a success and reports the iterations before the first one whose
    head saw the abort signal.  A run that is neither reports
    [maxIterations].  The task id of the result is that of the PRD task,
    if any. *)
Theorem runTaskLoop_outcomes (opts : RunTaskOptions) (w : World) :
  let r := result (runTaskLoop opts w) in
  taskId r = t_id <$> o_prdTask opts
  /\ (success r = true ->
        cancelled r = false
        /\ (dryRun opts = true -> iterations r = 0)
        /\ (dryRun opts = false -> 1 <= iterations r <= o_maxIterations opts))
  /\ (cancelled r = true ->
        success r = false
        /\ 0 <= iterations r < o_maxIterations opts
        /\ aborted w (iterations r + 1) = true
        /\ forall j, 1 <= j <= iterations r -> aborted w j = false)
  /\ (success r = false -> cancelled r = false ->
        iterations r = o_maxIterations opts).
Proof.
  intros r. subst r. unfold runTaskLoop.
  split; [apply loopFrom_taskId|].
  destruct (loopFrom_outcomes opts w (Z.to_nat (o_maxIterations opts)) 1
              (initialState opts w)) as (Hs & Hc & He).
  cbv zeta in Hs, Hc, He. split; [|split; [|done]].
  - intros Hok. destruct (Hs Hok) as (? & ? & Hrange).
    split; [done|]. split; [done|]. intros Hdry.
    specialize (Hrange Hdry). lia.
  - intros Hcan. destruct (Hc Hcan) as (? & ? & ? & ?).
    split; [done|]. split; [lia|]. done.
Qed.

(** An action that belongs to an iteration before [n]: git actions
    carry no iteration number. *)
Definition beforeIteration (n : Z) (a : Action) : Prop :=
  match a with Emit e => e_iteration e < n | _ => True end.

Lemma spawnEvents_before (opts : RunTaskOptions) (w : World) (st : LoopState)
    (i n : Z) :
  i < n -> Forall (beforeIteration n) (spawnEvents opts w st i).
Proof. intros H. unfold spawnEvents. by repeat constructor. Qed.

Lemma regressionHandling_before (opts : RunTaskOptions) (st : LoopState)
    (i n : Z) (validation : ValidationReport) :
  i < n ->
  Forall (beforeIteration n) (regressionHandling opts st i validation).2.
Proof.
  intros H. unfold regressionHandling.
  destruct (gitCheckpoint opts); [|constructor].
  destruct (_ <? _); by repeat constructor.
Qed.

Lemma loopFrom_abort (opts : RunTaskOptions) (w : World) (fuel : nat)
    (i : Z) (st : LoopState) (n : Z) :
  1 <= i -> i <= n < i + Z.of_nat fuel -> aborted w n = true ->
  let run := loopFrom opts w fuel i st in
  iterations (result run) < n
  /\ (success (result run) = true \/ cancelled (result run) = true)
  /\ Forall (beforeIteration n) (actions run)
  /\ (i + Z.of_nat (length (history run)) <= n).
Proof.
  revert i st. induction fuel as [|fuel IH]; intros i st Hi Hn Hab; [lia|].
  destruct (iterationBody_cases opts w st i)
    as [[Ha H]|[(Ha & Hd & H)|[(Ha & Hd & H)|(Ha & Hd & H)]]].
  - rewrite (loopFrom_return _ _ _ _ _ _ _ H).
    cbn [result actions history success iterations cancelled length].
    split; [lia|]. split; [by right|]. split; [constructor|lia].
  - assert (i <> n) by congruence.
    rewrite (loopFrom_return _ _ _ _ _ _ _ H).
    cbn [result actions history success iterations cancelled length].
    split; [lia|]. split; [by left|]. split; [|lia].
    repeat constructor. cbn. lia.
  - assert (i <> n) by congruence.
    rewrite (loopFrom_return _ _ _ _ _ _ _ H).
    cbn [result actions history success iterations cancelled length].
    split; [lia|]. split; [by left|]. split; [|lia].
    apply Forall_app. split; [apply spawnEvents_before; lia|].
    destruct (gitCheckpoint opts); by repeat constructor.
  - assert (i <> n) by congruence.
    rewrite (loopFrom_next _ _ _ _ _ _ _ H). cbn [result actions history].
    destruct (IH (i + 1) (regressionHandling opts st i
                            (validationAt opts w i)).1)
      as (Hit & Hres & Hacts & Hlen); [lia..|done|].
    cbv zeta in Hit, Hres, Hacts, Hlen.
    split; [done|]. split; [done|]. split.
    + rewrite !Forall_app. split; [split|done].
      * apply spawnEvents_before. lia.
      * apply regressionHandling_before. lia.
    + cbn [length]. lia.
Qed.

(** X2.  The abort signal is honoured: if it is set at the head of
    iteration [n] (within the budget), the run reports fewer than [n]
    iterations, ends as a success of an earlier iteration or as cancelled,
    never as exhausted, completes fewer than [n] iterations and emits no
    event of iteration [n] or later. *)
Theorem runTaskLoop_abort_honoured (opts : RunTaskOptions) (w : World)
    (n : Z) :
  1 <= n <= o_maxIterations opts ->
  aborted w n = true ->
  let run := runTaskLoop opts w in
  iterations (result run) < n
  /\ (success (result run) = true \/ cancelled (result run) = true)
  /\ Forall (beforeIteration n) (actions run)
  /\ Z.of_nat (length (history run)) < n.
Proof.
  intros Hn Hab run. subst run. unfold runTaskLoop.
  destruct (loopFrom_abort opts w (Z.to_nat (o_maxIterations opts)) 1
              (initialState opts w) n) as (? & ? & ? & ?); [lia..|done|].
  repeat split; [done..|lia].
Qed.

(** The agent never echoes the secret, and the abort signal is set when
    the second iteration is about to start. *)
Definition stoppedWorld : World :=
  {| promise := js "RALPH_COMPLETE_abcd1234";
     aborted := fun i => i =? 2;
     readProgress := fun _ => {| content := []; exists_ := false |};
     agent := fun _ _ => mkSpawnResult (js "still working") [] 0 10;
     shell := fun _ _ => mkSpawnResult [] (js "broken") 1 5 |}.

Lemma runTaskLoop_abort_honoured_witness :
  1 <= 2 <= o_maxIterations bumpyOptions
  /\ aborted stoppedWorld 2 = true
  /\ cancelled (result (runTaskLoop bumpyOptions stoppedWorld)) = true
  /\ iterations (result (runTaskLoop bumpyOptions stoppedWorld)) < 2.
Proof.
  assert (Hn : 1 <= 2 <= o_maxIterations bumpyOptions) by (cbn; lia).
  assert (Hab : aborted stoppedWorld 2 = true) by reflexivity.
  assert (Hcan : cancelled (result (runTaskLoop bumpyOptions stoppedWorld))
                 = true) by (vm_compute; reflexivity).
  pose proof (runTaskLoop_abort_honoured bumpyOptions stoppedWorld 2 Hn Hab)
    as H.
  cbv zeta in H. split; [exact Hn|]. split; [exact Hab|].
  split; [exact Hcan|]. exact (proj1 H).
Defined.

Lemma loopFrom_only_emits (opts : RunTaskOptions) (w : World) (fuel : nat)
    (i : Z) (st : LoopState) :
  gitCheckpoint opts = false ->
  Forall isEmit (actions (loopFrom opts w fuel i st)).
Proof.
  intros Hgit. revert i st.
  induction fuel as [|fuel IH]; intros i st; [constructor|].
  destruct (iterationBody_cases opts w st i)
    as [[Ha H]|[(Ha & Hd & H)|[(Ha & Hd & H)|(Ha & Hd & H)]]].
  - rewrite (loopFrom_return _ _ _ _ _ _ _ H). constructor.
  - rewrite (loopFrom_return _ _ _ _ _ _ _ H). by repeat constructor.
  - rewrite (loopFrom_return _ _ _ _ _ _ _ H). cbn [actions].
    rewrite Hgit, app_nil_r. unfold spawnEvents. by repeat constructor.
  - rewrite (loopFrom_next _ _ _ _ _ _ _ H). cbn [actions].
    rewrite !Forall_app. split; [split|apply IH].
    + unfold spawnEvents. by repeat constructor.
    + unfold regressionHandling. rewrite Hgit. constructor.
Qed.

(** X3.  With git checkpoints off the loop never touches the repository:
    everything it does is emit events, no commit and no revert; and the
    failure of one iteration is never marked as reverted in the state it
    hands to the next. *)
Theorem runTaskLoop_no_git_without_checkpoint (opts : RunTaskOptions)
    (w : World) :
  gitCheckpoint opts = false ->
  Forall isEmit (actions (runTaskLoop opts w))
  /\ Forall (fun st => st_wasReverted st = false)
            (history (runTaskLoop opts w)).
Proof.
  intros Hgit. split; [by apply loopFrom_only_emits|].
  unfold runTaskLoop. generalize (initialState opts w) 1.
  induction (Z.to_nat (o_maxIterations opts)) as [|fuel IH]; intros st i;
    [constructor|].
  destruct (iterationBody_cases opts w st i)
    as [[Ha H]|[(Ha & Hd & H)|[(Ha & Hd & H)|(Ha & Hd & H)]]].
  1-3: rewrite (loopFrom_return _ _ _ _ _ _ _ H); constructor.
  rewrite (loopFrom_next _ _ _ _ _ _ _ H). cbn [history].
  constructor; [|apply IH].
  unfold regressionHandling. by rewrite Hgit.
Qed.

(** The options the daemon runs the loop with: no git checkpoints. *)
Definition daemonOptions : RunTaskOptions :=
  {| o_task := js "Fix the tests";
     o_validate := [js "npm test"];
     o_maxIterations := 2;
     o_progressFile := js "ralph-progress-t1.md";
     failureContextMaxChars := 4000;
     gitCheckpoint := false;
     dryRun := false;
     delay := 0;
     o_prdTask := None;
     o_prdName := None;
     o_prdDescription := None;
     o_completedTasks := None |}.

Lemma runTaskLoop_no_git_without_checkpoint_witness :
  gitCheckpoint daemonOptions = false
  /\ length (actions (runTaskLoop daemonOptions bumpyWorld)) = 8%nat
  /\ Forall isEmit (actions (runTaskLoop daemonOptions bumpyWorld)).
Proof.
  assert (Hlen : length (actions (runTaskLoop daemonOptions bumpyWorld))
                 = 8%nat) by (vm_compute; reflexivity).
  pose proof (runTaskLoop_no_git_without_checkpoint daemonOptions bumpyWorld
                eq_refl) as H.
  split; [reflexivity|]. split; [exact Hlen|]. exact (proj1 H).
Defined.

Lemma startedIterations_spawnEvents (opts : RunTaskOptions) (w : World)
    (st : LoopState) (i : Z) :
  startedIterations (spawnEvents opts w st i) = [i].
Proof. reflexivity. Qed.

Lemma startedIterations_regression (opts : RunTaskOptions) (st : LoopState)
    (i : Z) (validation : ValidationReport) :
  startedIterations (regressionHandling opts st i validation).2 = [].
Proof.
  unfold regressionHandling. destruct (gitCheckpoint opts); [|done].
  by destruct (_ <? _).
Qed.

Lemma seqZ_succ_nat (m : Z) (n : nat) :
  m :: seqZ (m + 1) (Z.of_nat n) = seqZ m (Z.of_nat (S n)).
Proof. rewrite (seqZ_cons m) by lia. f_equal. f_equal; lia. Qed.

Lemma loopFrom_started (opts : RunTaskOptions) (w : World) (fuel : nat)
    (i : Z) (st : LoopState) :
  dryRun opts = false ->
  let run := loopFrom opts w fuel i st in
  let entered :=
    (length (history run) + (if success (result run) then 1 else 0))%nat in
  startedIterations (actions run) = seqZ i (Z.of_nat entered)
  /\ (length (history run) <= fuel)%nat
  /\ (success (result run) = true \/ cancelled (result run) = true ->
        iterations (result run) = i - 1 + Z.of_nat entered)
  /\ (success (result run) = false -> cancelled (result run) = false ->
        length (history run) = fuel).
Proof.
  intros Hdry. revert i st.
  induction fuel as [|fuel IH]; intros i st.
  { cbn. split; [done|]. split; [done|]. split; [|done]. by intros [|]. }
  destruct (iterationBody_cases opts w st i)
    as [[Ha H]|[(Ha & Hd & H)|[(Ha & Hd & H)|(Ha & Hd & H)]]].
  - rewrite (loopFrom_return _ _ _ _ _ _ _ H).
    cbn [result actions history success iterations cancelled length].
    split; [done|]. split; [lia|]. split; [intros _; cbn; lia|done].
  - congruence.
  - rewrite (loopFrom_return _ _ _ _ _ _ _ H).
    cbn [result actions history success iterations cancelled length].
    split; [|split; [lia|split; [intros _; cbn; lia|done]]].
    unfold startedIterations. rewrite omap_app.
    fold (startedIterations (spawnEvents opts w st i)).
    rewrite startedIterations_spawnEvents.
    by destruct (gitCheckpoint opts).
  - rewrite (loopFrom_next _ _ _ _ _ _ _ H). cbn [result actions history].
    destruct (IH (i + 1) (regressionHandling opts st i
                            (validationAt opts w i)).1)
      as (Hst & Hlen & Hit & Hex).
    cbv zeta in Hst, Hlen, Hit, Hex.
    split; [|split; [cbn [length]; lia|split]].
    + unfold startedIterations. rewrite !omap_app.
      fold (startedIterations (spawnEvents opts w st i)).
      fold (startedIterations
              (regressionHandling opts st i (validationAt opts w i)).2).
      fold (startedIterations
              (actions (loopFrom opts w fuel (i + 1)
                 (regressionHandling opts st i (validationAt opts w i)).1))).
      rewrite startedIterations_spawnEvents, startedIterations_regression, Hst.
      cbn [app]. apply seqZ_succ_nat.
    + intros Hend. rewrite (Hit Hend). cbn [length Nat.add]. lia.
    + intros Hs Hc. cbn [length]. f_equal. by apply Hex.
Qed.

(** X4.  Outside a dry run, the loop emits one [iteration.started] event
    for each iteration it enters, numbered 1, 2, ... without gaps, and the
    iteration count of the result is the number of these events, whichever
    way the run ends. *)
Theorem runTaskLoop_iterations_started (opts : RunTaskOptions) (w : World) :
  dryRun opts = false ->
  0 <= o_maxIterations opts ->
  startedIterations (actions (runTaskLoop opts w))
  = seqZ 1 (iterations (result (runTaskLoop opts w))).
Proof.
  intros Hdry Hmax. unfold runTaskLoop.
  destruct (loopFrom_started opts w (Z.to_nat (o_maxIterations opts)) 1
              (initialState opts w) Hdry) as (Hst & Hlen & Hit & Hex).
  cbv zeta in Hst, Hlen, Hit, Hex. rewrite Hst. f_equal.
  destruct (loopFrom_outcomes opts w (Z.to_nat (o_maxIterations opts)) 1
              (initialState opts w)) as (Hs & Hc & He).
  cbv zeta in Hs, Hc, He.
  set (run := loopFrom _ _ _ _ _) in *.
  destruct (success (result run)) eqn:Hsucc.
  - rewrite Hit by (by left). lia.
  - destruct (cancelled (result run)) eqn:Hcan.
    + rewrite Hit by (by right). lia.
    + rewrite He, Hex by done. lia.
Qed.

Lemma runTaskLoop_iterations_started_witness :
  dryRun bumpyOptions = false
  /\ 0 <= o_maxIterations bumpyOptions
  /\ iterations (result (runTaskLoop bumpyOptions bumpyWorld)) = 3
  /\ startedIterations (actions (runTaskLoop bumpyOptions bumpyWorld))
     = seqZ 1 (iterations (result (runTaskLoop bumpyOptions bumpyWorld))).
Proof.
  assert (Hmax : 0 <= o_maxIterations bumpyOptions) by (cbn; lia).
  assert (Hit : iterations (result (runTaskLoop bumpyOptions bumpyWorld)) = 3)
    by (vm_compute; reflexivity).
  pose proof (runTaskLoop_iterations_started bumpyOptions bumpyWorld
                eq_refl Hmax) as H.
  split; [reflexivity|]. split; [exact Hmax|]. split; [exact Hit|exact H].
Defined.

End RunnerOutcomes.

(** ** The validation report *)

Section ValidatorReport.

Import Validator.

Lemma filter_length_all {A} (f : A -> bool) (l : list A) :
  length (List.filter f l) = length l <-> forall x, x ∈ l -> f x = true.
Proof.
  induction l as [|a l IH]; simpl.
  - split; [|done]. intros _ x Hx. by apply elem_of_nil in Hx.
  - pose proof (filter_length_le f l) as Hle.
    destruct (f a) eqn:Hfa; simpl.
    + split.
      * intros Hlen x Hx. apply elem_of_cons in Hx as [->|Hx]; [done|].
        apply IH; [lia|done].
      * intros Hall. f_equal. apply IH. intros x Hx. apply Hall.
        by apply elem_of_cons; right.
    + split; [lia|]. intros Hall.
      rewrite Hall in Hfa; [done|]. by apply elem_of_cons; left.
Qed.

Lemma filter_map_length {A B} (f : B -> bool) (g : A -> B) (l : list A) :
  length (List.filter f (List.map g l))
  = length (List.filter (fun x => f (g x)) l).
Proof.
  induction l as [|a l IH]; [done|]. simpl.
  destruct (f (g a)); simpl; by rewrite IH.
Qed.

(** When a report says that everything passed. *)
Lemma runValidations_allPassed (commands : list jsstring)
    (sh : jsstring -> SpawnResult) :
  allPassed (runValidations commands sh) = true
  <-> forall c, c ∈ commands -> exitCode (sh c) = 0.
Proof.
  unfold runValidations. cbn [allPassed].
  rewrite List.length_map, filter_map_length. cbn [passed].
  rewrite Z.eqb_eq, Nat2Z.inj_iff, filter_length_all.
  apply forall_proper. intros c. by rewrite Z.eqb_eq.
Qed.

(** X5.  The report of [runValidations] lists the commands in the order
    given; [totalCount] is their number and [passCount] the number of
    them that exited with 0, so it lies between 0 and [totalCount]; and
    [allPassed] holds exactly when every command exited with 0 (always,
    for no commands). *)
Theorem runValidations_report (commands : list jsstring)
    (sh : jsstring -> SpawnResult) :
  let report := runValidations commands sh in
  List.map command (results report) = commands
  /\ List.map v_exitCode (results report)
     = List.map (fun c => exitCode (sh c)) commands
  /\ totalCount report = Z.of_nat (length commands)
  /\ passCount report
     = Z.of_nat (length (List.filter (fun c => exitCode (sh c) =? 0) commands))
  /\ 0 <= passCount report <= totalCount report
  /\ (allPassed report = true
      <-> forall c, c ∈ commands -> exitCode (sh c) = 0).
Proof.
  cbv zeta. unfold runValidations.
  cbn [results totalCount passCount allPassed].
  rewrite !List.map_map, List.map_id, List.length_map, filter_map_length.
  cbn [passed command v_exitCode].
  split; [done|]. split; [done|]. split; [done|]. split; [done|].
  pose proof (filter_length_le (fun c => exitCode (sh c) =? 0) commands).
  split; [lia|].
  rewrite <- (runValidations_allPassed commands sh).
  unfold runValidations. cbn [allPassed].
  by rewrite List.length_map, filter_map_length.
Qed.

Lemma failureSection_nonempty (r : ValidationResult) :
  failureSection r <> [].
Proof.
  unfold failureSection. cbv zeta.
  destruct (passed r); cbn [negb]; [done|].
  by destruct (truthy _).
Qed.

Lemma join_nonempty (sep : jsstring) (parts : list jsstring) :
  Forall (fun p => p <> []) parts -> parts <> [] -> join sep parts <> [].
Proof.
  intros Hall Hne. destruct parts as [|p rest]; [done|].
  apply Forall_cons in Hall as [Hp _].
  destruct rest as [|q rest]; cbn [join]; [done|].
  by destruct p.
Qed.

(** A failing report never formats to the empty string. *)
Lemma formatFailureContext_nonempty (commands : list jsstring)
    (sh : jsstring -> SpawnResult) (maxChars : Z) :
  allPassed (runValidations commands sh) = false ->
  formatFailureContext (runValidations commands sh) maxChars <> [].
Proof.
  intros Hpass Hempty. unfold formatFailureContext in Hempty.
  rewrite Hpass in Hempty.
  assert (Hres : results (runValidations commands sh) <> []).
  { intros Hnil. unfold runValidations in Hpass, Hnil.
    cbn [results allPassed] in Hpass, Hnil. rewrite Hnil in Hpass.
    done. }
  assert (Hfull : failureText (runValidations commands sh) <> []).
  { unfold failureText. apply join_nonempty.
    - apply Forall_forall. intros p Hp.
      apply list_elem_of_In, in_map_iff in Hp as (r & <- & _).
      apply failureSection_nonempty.
    - intros Hnil. apply Hres. by apply map_eq_nil in Hnil. }
  cbv zeta in Hempty.
  destruct (_ >? _); [done|]. by apply Hfull.
Qed.

(** X6.  The failure context handed to the next prompt is empty exactly
    when every validation command passed: a failing report always formats
    to a non-empty text, whatever the character limit, so the next prompt
    never loses the fact that validation failed. *)
Theorem formatFailureContext_empty_iff (commands : list jsstring)
    (sh : jsstring -> SpawnResult) (maxChars : Z) :
  formatFailureContext (runValidations commands sh) maxChars = []
  <-> forall c, c ∈ commands -> exitCode (sh c) = 0.
Proof.
  rewrite <- (runValidations_allPassed commands sh).
  destruct (allPassed (runValidations commands sh)) eqn:Hpass.
  - split; [done|]. intros _. unfold formatFailureContext. by rewrite Hpass.
  - split; [|done]. intros Hempty.
    by apply formatFailureContext_nonempty in Hempty.
Qed.

End ValidatorReport.

(** ** Resuming, stopping and failing runs in the queue *)

Section QueueControl.

Import Db Queue.

Context (env : Env) (maxConcurrent : jsnumber).

Lemma executeRunStart_controllers (run : RunRecord) (st : State) :
  controllers (executeRunStart env run st) = controllers st.
Proof.
  unfold executeRunStart.
  by destruct (getThread (r_threadId (run_row run)) (db st)).
Qed.

(** [execute] registers a controller for the run it starts and leaves the
    other controllers alone. *)
Lemma execute_controllers (r x : jsstring) (st : State) :
  x <> r -> controllers (execute env r st) !! x = controllers st !! x.
Proof.
  intros Hne. unfold execute.
  destruct (getRun r (db st)) as [run|]; [|done].
  destruct (negb _); [done|].
  cbn [Date_now pending running controllers db].
  rewrite executeRunStart_controllers. unfold onEvent, with_db.
  cbn [controllers]. by rewrite lookup_insert_ne.
Qed.

Lemma execute_running_mono (r x : jsstring) (st : State) :
  x ∈ running st -> x ∈ running (execute env r st).
Proof.
  intros Hx. destruct (isQueued (db st) r) eqn:Hq.
  - destruct (execute_queued env r st Hq) as (_ & -> & _).
    apply elem_of_union. by right.
  - by rewrite execute_not_queued.
Qed.

Lemma execute_running_other (r x : jsstring) (st : State) :
  x <> r -> x ∈ running (execute env r st) -> x ∈ running st.
Proof.
  intros Hne. destruct (isQueued (db st) r) eqn:Hq.
  - destruct (execute_queued env r st Hq) as (_ & -> & _).
    intros [Hx|Hx]%elem_of_union; [|done].
    by apply elem_of_singleton in Hx.
  - by rewrite execute_not_queued.
Qed.

(** [execute] writes the row of the run it is called for, no other. *)
Lemma execute_runs_other (r x : jsstring) (st : State) :
  x <> r -> runs (db (execute env r st)) !! x = runs (db st) !! x.
Proof.
  intros Hne. destruct (isQueued (db st) r) eqn:Hq.
  - destruct (execute_queued env r st Hq) as (_ & _ & _ & Hframe).
    destruct Hframe as (_ & _ & _ & Hother & _). by apply Hother.
  - by rewrite execute_not_queued.
Qed.

(** A run that waits in [pending] with status queued is, after a tick,
    either still waiting so or running; a running run stays running. *)
Definition waitingOrRunning (r : jsstring) (row : RunRow) (st : State)
    : Prop :=
  (r ∈ pending st /\ runs (db st) !! r = Some row /\ r_status row = Queued)
  \/ r ∈ running st.

Lemma tickLoop_waitingOrRunning (r : jsstring) (row : RunRow) (fuel : nat)
    (st : State) :
  waitingOrRunning r row st ->
  waitingOrRunning r row (tickLoop env maxConcurrent fuel st).
Proof.
  apply tickLoop_preserves. clear st.
  intros st x rest Hinv _ Hp _.
  destruct Hinv as [(Hin & Hrow & Hst)|Hrun].
  - destruct (decide (x = r)) as [->|Hne].
    + right.
      assert (Hq : isQueued (db (with_pending (set_delete r) st)) r = true).
      { unfold isQueued, getRun. cbn [db with_pending]. rewrite Hrow.
        cbn. by apply bool_decide_eq_true_2. }
      destruct (execute_queued env r _ Hq) as (_ & -> & _).
      apply elem_of_union. left. by apply elem_of_singleton.
    + left. rewrite execute_pending. cbn [pending with_pending].
      split; [apply set_delete_elem; by split|].
      rewrite execute_runs_other by done. by split.
  - right. by apply execute_running_mono.
Qed.

(** A run that is not queued and neither running nor has a controller
    stays so over a tick, its row untouched. *)
Definition settled (r : jsstring) (st : State) : Prop :=
  isQueued (db st) r = false
  /\ (r ∉ running st) /\ controllers st !! r = None.

Lemma tickLoop_settled (r : jsstring) (fuel : nat) (st : State) :
  settled r st ->
  settled r (tickLoop env maxConcurrent fuel st)
  /\ runs (db (tickLoop env maxConcurrent fuel st)) !! r = runs (db st) !! r.
Proof.
  intros Hst.
  apply (tickLoop_preserves env maxConcurrent
           (fun st' => settled r st'
                       /\ runs (db st') !! r = runs (db st) !! r));
    [|done].
  intros st' x rest [(Hq & Hrun & Hctl) Hrow] _ _ _.
  destruct (decide (x = r)) as [->|Hne].
  - by rewrite execute_not_queued.
  - split; [split; [|split]|].
    + unfold isQueued, getRun. rewrite execute_runs_other by done. exact Hq.
    + intros Hin. by apply execute_running_other in Hin.
    + by rewrite execute_controllers.
    + by rewrite execute_runs_other.
Qed.

Lemma set_add_elem (r : jsstring) (s : list (list N)) : r ∈ set_add r s.
Proof.
  unfold set_add, set_has. case_bool_decide; [done|].
  apply elem_of_app. right. by apply list_elem_of_singleton.
Qed.

Lemma updateRunStatus_status_only (r : jsstring) (status : RunStatus)
    (row : RunRow) (d : Database) :
  runs d !! r = Some row ->
  runs (updateRunStatus env r status noUpdates d)
  = <[r := withStatus status row]> (runs d).
Proof. intros Hrow. by rewrite updateRunStatus_runs, Hrow. Qed.

Lemma tickLoop_full (fuel : nat) (st : State) :
  int_lt (Z.of_nat (size (running st))) maxConcurrent = false ->
  tickLoop env maxConcurrent fuel st = st.
Proof.
  intros Hfull. destruct fuel as [|fuel]; [done|]. simpl.
  by rewrite Hfull.
Qed.

(** What [resume] does to a paused run. *)
Lemma resume_paused (r : jsstring) (row : RunRow) (st : State) :
  runs (db st) !! r = Some row -> r_status row = Paused ->
  let st' := snd (resume env maxConcurrent r st) in
  fst (resume env maxConcurrent r st) = true
  /\ (exists e more,
        events (db st') = events (db st) ++ e :: more
        /\ ev_type e = run_resumed /\ ev_runId e = Some r
        /\ ev_threadId e = r_threadId row /\ startedOnly more)
  /\ waitingOrRunning r (withStatus Queued row) st'
  /\ (int_lt (Z.of_nat (size (running st))) maxConcurrent = false ->
        pending st' = set_add r (pending st)
        /\ running st' = running st
        /\ runs (db st') = <[r := withStatus Queued row]> (runs (db st))).
Proof.
  intros Hrow Hst. unfold resume, getRun. rewrite Hrow.
  cbn [fmap option_fmap option_map run_row run_id]. rewrite Hst.
  rewrite bool_decide_eq_true_2 by done. cbn [negb fst snd].
  set (st2 := onEvent env _ _ run_resumed [] _).
  assert (Hruns2 : runs (db st2) = <[r := withStatus Queued row]> (runs (db st))).
  { subst st2. unfold onEvent, with_db. cbn [db].
    rewrite (proj1 (emitEvent_frame _ _ _ _ _ _)).
    by apply updateRunStatus_status_only. }
  assert (Hev2 : exists e, events (db st2) = events (db st) ++ [e]
                   /\ ev_type e = run_resumed /\ ev_runId e = Some r
                   /\ ev_threadId e = r_threadId row).
  { subst st2. unfold onEvent, with_db. cbn [db].
    rewrite emitEvent_events.
    rewrite (proj1 (updateRunStatus_frame_tables env r Queued noUpdates
                      (db st))).
    eexists. split; [reflexivity|]. done. }
  split; [done|]. split; [|split].
  - destruct Hev2 as (e & Hev & Hty & Hid & Hth).
    pose proof (enqueue_frame env maxConcurrent r st2)
      as (_ & _ & _ & _ & new & Hnew & Hstarted).
    exists e, new. rewrite Hnew, Hev, <- app_assoc. done.
  - unfold enqueue, tick. apply tickLoop_waitingOrRunning. left.
    cbn [pending with_pending db]. split; [apply set_add_elem|].
    split; [|done]. by rewrite Hruns2, lookup_insert_eq.
  - intros Hfull. unfold enqueue, tick.
    rewrite tickLoop_full by done. done.
Qed.

(** X7.  [resume] returns true exactly for a run whose persisted status
    is paused, and otherwise changes nothing.  For a paused run it appends
    one [run.resumed] event for the run, followed only by the events of
    the tick it triggers, and the run is not lost: afterwards it waits in
    [pending] with status queued and an otherwise unchanged row, or it is
    running. *)
Theorem resume_semantics (runId : jsstring) (st : State) :
  let ok := fst (resume env maxConcurrent runId st) in
  let st' := snd (resume env maxConcurrent runId st) in
  (ok = true
   <-> exists row, runs (db st) !! runId = Some row /\ r_status row = Paused)
  /\ (ok = false -> st' = st)
  /\ (forall row,
        runs (db st) !! runId = Some row -> r_status row = Paused ->
        (exists e more,
           events (db st') = events (db st) ++ e :: more
           /\ ev_type e = run_resumed /\ ev_runId e = Some runId
           /\ ev_threadId e = r_threadId row /\ startedOnly more)
        /\ ((runId ∈ pending st'
             /\ runs (db st') !! runId = Some (withStatus Queued row))
            \/ runId ∈ running st')).
Proof.
  cbv zeta. split; [|split].
  - split.
    + unfold resume, getRun.
      destruct (runs (db st) !! runId) as [row|] eqn:Hrow; [|done].
      cbn [fmap option_fmap option_map run_row].
      case_bool_decide as Hst; [|done]. intros _. by exists row.
    + intros (row & Hrow & Hst).
      by destruct (resume_paused runId row st Hrow Hst) as (? & _).
  - unfold resume, getRun.
    destruct (runs (db st) !! runId) as [row|] eqn:Hrow; [|done].
    cbn [fmap option_fmap option_map run_row].
    by case_bool_decide.
  - intros row Hrow Hst.
    destruct (resume_paused runId row st Hrow Hst) as (_ & Hev & Hwait & _).
    split; [exact Hev|].
    destruct Hwait as [(? & ? & _)|?]; [by left|by right].
Qed.

(** X8.  Pausing and then resuming a run composes: after a successful
    [pause], [resume] of the same run succeeds, and the run is again
    waiting or running.  It does not get its old place back: while the
    queue is at its cap, the run is found at the end of [pending], behind
    the runs that were waiting with it. *)
Theorem pause_then_resume (runId : jsstring) (st : State) :
  fst (pause env runId st) = true ->
  let paused := snd (pause env runId st) in
  let st' := snd (resume env maxConcurrent runId paused) in
  fst (resume env maxConcurrent runId paused) = true
  /\ (runId ∈ pending st' \/ runId ∈ running st')
  /\ (int_lt (Z.of_nat (size (running st))) maxConcurrent = false ->
        pending st' = set_delete runId (pending st) ++ [runId]
        /\ running st' = running st
        /\ forall row, runs (db st) !! runId = Some row ->
             runs (db st') !! runId = Some (withStatus Queued row)).
Proof.
  unfold pause, set_has, getRun.
  case_bool_decide as Hin; [|done]. cbn [negb].
  destruct (runs (db st) !! runId) as [row|] eqn:Hrow; [|done].
  cbn [fmap option_fmap option_map run_row run_id fst snd]. intros _.
  set (paused := onEvent env _ _ run_paused [] _).
  assert (Hruns : runs (db paused)
                  = <[runId := withStatus Paused row]> (runs (db st))).
  { subst paused. unfold onEvent, with_db. cbn [db with_pending].
    rewrite (proj1 (emitEvent_frame _ _ _ _ _ _)).
    by apply updateRunStatus_status_only. }
  assert (Hrow' : runs (db paused) !! runId = Some (withStatus Paused row))
    by (by rewrite Hruns, lookup_insert_eq).
  destruct (resume_paused runId _ paused Hrow' eq_refl)
    as (Hok & _ & Hwait & Hfull).
  cbv zeta in Hwait, Hfull. split; [exact Hok|]. split.
  - destruct Hwait as [(? & _)|?]; [by left|by right].
  - intros Hcap. destruct (Hfull Hcap) as (Hp & Hr & Hdb).
    split; [|split; [exact Hr|]].
    + rewrite Hp. unfold set_add, set_has.
      change (pending paused) with (set_delete runId (pending st)).
      rewrite bool_decide_eq_false_2; [done|apply set_delete_not_elem].
    + intros row0 [= <-]. rewrite Hdb, lookup_insert_eq. done.
Qed.

(** X9.  [stop] returns true exactly when the run has a row and is either
    waiting in [pending] or has a controller (it is executing); otherwise
    nothing changes.  A waiting run is removed from [pending] and
    persisted as cancelled with the current time as its finish time, the
    rest of its row and the other runs untouched, and one [run.cancelled]
    event is appended; its controller, if any, is not signalled.  A run
    that is not waiting only gets its controller's abort flag set: the
    database and the journal are not written. *)
Theorem stop_semantics (runId : jsstring) (st : State) :
  let ok := fst (stop env runId st) in
  let st' := snd (stop env runId st) in
  (ok = true
   <-> is_Some (runs (db st) !! runId)
       /\ (runId ∈ pending st \/ is_Some (controllers st !! runId)))
  /\ (ok = false -> st' = st)
  /\ (forall row,
        runs (db st) !! runId = Some row -> runId ∈ pending st ->
        pending st' = set_delete runId (pending st)
        /\ (runId ∉ pending st')
        /\ running st' = running st
        /\ controllers st' = controllers st
        /\ runs (db st') !! runId
           = Some (mkRunRow (r_threadId row) Cancelled (r_maxIterations row)
                            (r_iterations row) (r_taskOverride row)
                            (r_sourceRunId row) (r_error row)
                            (r_createdAt row) (r_startedAt row)
                            (Some (clock env (clock_reads (db st)))))
        /\ (forall other, other <> runId ->
              runs (db st') !! other = runs (db st) !! other)
        /\ exists e,
             events (db st') = events (db st) ++ [e]
             /\ ev_type e = run_cancelled
             /\ ev_runId e = Some runId
             /\ ev_threadId e = r_threadId row)
  /\ (is_Some (runs (db st) !! runId) -> runId ∉ pending st ->
      is_Some (controllers st !! runId) ->
        controllers st' = <[runId := true]> (controllers st)
        /\ pending st' = pending st
        /\ running st' = running st
        /\ db st' = db st).
Proof.
  cbv zeta. unfold stop, set_has, getRun.
  destruct (runs (db st) !! runId) as [row|] eqn:Hrow;
    cbn [fmap option_fmap option_map run_row run_id].
  2: { split; [split; [done|by intros [[? ?] _]]|].
       split; [done|]. split; [done|]. by intros [? ?]. }
  case_bool_decide as Hin.
  - cbn [Date_now fst snd].
    set (d1 := mkDatabase _ _ _ _ _ _ _).
    set (updates := mkRunUpdates _ _ _ _).
    split; [split; [by eauto|done]|]. split; [done|].
    split; [|by intros _ ?].
    intros row' [= <-] _.
    split; [done|]. split; [apply set_delete_not_elem|].
    split; [done|]. split; [done|].
    unfold onEvent, with_db. cbn [db with_pending].
    rewrite (proj1 (emitEvent_frame _ _ _ _ _ _)), emitEvent_events.
    rewrite (proj1 (updateRunStatus_frame_tables env runId Cancelled updates
                      d1)).
    rewrite updateRunStatus_runs.
    change (runs d1) with (runs (db st)). rewrite Hrow.
    split; [by rewrite lookup_insert_eq|].
    split; [intros other Hne; by rewrite lookup_insert_ne|].
    eexists. split; [reflexivity|done].
  - destruct (controllers st !! runId) as [flag|] eqn:Hctl; cbn [fst snd].
    + split; [split; [by eauto|done]|]. split; [done|].
      split; [by intros ? _ ?|]. done.
    + split.
      { split; [done|]. intros [_ [?|[? ?]]]; done. }
      split; [done|]. split; [by intros ? _ ?|].
      by intros _ _ [? ?].
Qed.

(** X10.  What the queue does when the executor of a run settles.  If
    the executor threw, the run is released (it is no longer in [running]
    and has no controller, also after the tick that follows) and persisted
    as failed with the error's message and the current time as finish time
    (the rest of its row kept), and one [run.failed] event carrying the
    message is appended before the events of the tick.  If it returned
    normally and left the run in a status other than queued, the run is
    released in the same way, its row is not written and only the events
    of the tick are appended. *)
Theorem finish_semantics (run : RunRecord) (thrown : option jsstring)
    (st : State) :
  let runId := run_id run in
  let st' := finish env maxConcurrent run thrown st in
  (forall message, thrown = Some message ->
     (runId ∉ running st')
     /\ controllers st' !! runId = None
     /\ (forall row, runs (db st) !! runId = Some row ->
           runs (db st') !! runId
           = Some (mkRunRow (r_threadId row) Failed (r_maxIterations row)
                            (r_iterations row) (r_taskOverride row)
                            (r_sourceRunId row) (Some message)
                            (r_createdAt row) (r_startedAt row)
                            (Some (clock env (clock_reads (db st))))))
     /\ (runs (db st) !! runId = None -> runs (db st') !! runId = None)
     /\ exists e more,
          events (db st') = events (db st) ++ e :: more
          /\ ev_type e = run_failed /\ ev_runId e = Some runId
          /\ ev_threadId e = r_threadId (run_row run)
          /\ ev_payload e = [(js "message", JStr message)]
          /\ startedOnly more)
  /\ (thrown = None -> isQueued (db st) runId = false ->
        (runId ∉ running st')
        /\ controllers st' !! runId = None
        /\ runs (db st') !! runId = runs (db st) !! runId
        /\ exists more,
             events (db st') = events (db st) ++ more /\ startedOnly more).
Proof.
  cbv zeta. split.
  - intros message ->. unfold finish. cbn [Date_now].
    set (d1 := mkDatabase _ _ _ _ _ _ _).
    set (updates := mkRunUpdates _ _ _ _).
    set (st3 := mkState _ (_ ∖ _) _ _).
    assert (Hruns3 : runs (db st3)
                     = runs (updateRunStatus env (run_id run) Failed updates
                               d1)) by done.
    assert (Hev3 : exists e,
               events (db st3) = events (db st) ++ [e]
               /\ ev_type e = run_failed /\ ev_runId e = Some (run_id run)
               /\ ev_threadId e = r_threadId (run_row run)
               /\ ev_payload e = [(js "message", JStr message)]).
    { subst st3. unfold onEvent, with_db. cbn [db controllers pending running].
      rewrite emitEvent_events.
      rewrite (proj1 (updateRunStatus_frame_tables env (run_id run) Failed
                        updates d1)).
      eexists. split; [reflexivity|done]. }
    rewrite updateRunStatus_runs in Hruns3.
    change (runs d1) with (runs (db st)) in Hruns3.
    assert (Hset : settled (run_id run) st3).
    { split; [|split].
      - unfold isQueued, getRun. rewrite Hruns3.
        destruct (runs (db st) !! run_id run) as [row|] eqn:Hrow.
        + by rewrite lookup_insert_eq.
        + by rewrite Hrow.
      - subst st3. cbn [running]. intros [_ Hn]%elem_of_difference.
        apply Hn. by apply elem_of_singleton.
      - subst st3. cbn [controllers]. apply lookup_delete_eq. }
    destruct (tickLoop_settled (run_id run) (length (pending st3)) st3 Hset)
      as ((_ & Hrun & Hctl) & Hrow).
    fold (tick env maxConcurrent st3) in Hrun, Hctl, Hrow.
    split; [exact Hrun|]. split; [exact Hctl|]. rewrite Hrow, Hruns3.
    split; [|split].
    + intros row Hr. rewrite Hr. by rewrite lookup_insert_eq.
    + intros Hr. by rewrite Hr.
    + destruct Hev3 as (e & Hev & ? & ? & ? & ?).
      pose proof (tickLoop_frame env maxConcurrent (length (pending st3)) st3)
        as (_ & _ & _ & _ & new & Hnew & Hstarted).
      fold (tick env maxConcurrent st3) in Hnew.
      exists e, new. rewrite Hnew, Hev, <- app_assoc. done.
  - intros -> Hq. unfold finish.
    set (st3 := mkState _ (_ ∖ _) _ _).
    assert (Hset : settled (run_id run) st3).
    { split; [exact Hq|]. split.
      - subst st3. cbn [running]. intros [_ Hn]%elem_of_difference.
        apply Hn. by apply elem_of_singleton.
      - subst st3. cbn [controllers]. apply lookup_delete_eq. }
    destruct (tickLoop_settled (run_id run) (length (pending st3)) st3 Hset)
      as ((_ & Hrun & Hctl) & Hrow).
    fold (tick env maxConcurrent st3) in Hrun, Hctl, Hrow.
    split; [exact Hrun|]. split; [exact Hctl|]. split; [exact Hrow|].
    pose proof (tickLoop_frame env maxConcurrent (length (pending st3)) st3)
      as (_ & _ & _ & _ & new & Hnew & Hstarted).
    by exists new.
Qed.

End QueueControl.

(** ** The event journal *)

Section JournalFacts.

Import Db Queue.

Context (env : Env) (maxConcurrent : jsnumber).

(** The identifiers of the journal are the positions of its events: the
    k-th event appended has identifier k. *)
Definition journalNumbered (d : Database) : Prop :=
  forall k e, events d !! k = Some e -> ev_id e = Z.of_nat k + 1.

(** [d'] has the journal of [d] followed by events numbered on from its
    length. *)
Definition journalExtends (d d' : Database) : Prop :=
  exists new,
    events d' = events d ++ new
    /\ forall k e, new !! k = Some e ->
         ev_id e = Z.of_nat (length (events d) + k) + 1.

Lemma journalExtends_same (d d' : Database) :
  events d' = events d -> journalExtends d d'.
Proof.
  intros H. exists []. split; [by rewrite app_nil_r|]. by intros k e.
Qed.

Lemma journalExtends_trans (d1 d2 d3 : Database) :
  journalExtends d1 d2 -> journalExtends d2 d3 -> journalExtends d1 d3.
Proof.
  intros (new & He & Hn) (new' & He' & Hn').
  exists (new ++ new'). split; [by rewrite He', He, app_assoc|].
  intros k e Hk. apply lookup_app_Some in Hk as [Hk|[Hlen Hk]].
  - by apply Hn.
  - rewrite (Hn' _ _ Hk), He, length_app. f_equal. lia.
Qed.

Lemma journalExtends_emit (threadId : jsstring) (runId : option jsstring)
    (type : EventType) (payload : Payload) (d : Database) :
  journalExtends d (emitEvent env threadId runId type payload d).
Proof.
  eexists. split; [apply emitEvent_events|].
  intros [|k] e; [|done]. intros [= <-]. cbn [ev_id]. f_equal. lia.
Qed.

Lemma journalExtends_update_emit (r : jsstring) (status : RunStatus)
    (updates : RunUpdates) (threadId : jsstring) (runId : option jsstring)
    (type : EventType) (payload : Payload) (d d1 : Database) :
  events d1 = events d ->
  journalExtends d
    (emitEvent env threadId runId type payload
       (updateRunStatus env r status updates d1)).
Proof.
  intros H1.
  eapply journalExtends_trans; [|apply journalExtends_emit].
  apply journalExtends_same.
  by rewrite (proj1 (updateRunStatus_frame_tables env r status updates d1)).
Qed.

Lemma journalExtends_numbered (d d' : Database) :
  journalExtends d d' -> journalNumbered d -> journalNumbered d'.
Proof.
  intros (new & He & Hn) Hd k e. rewrite He.
  intros [Hk|[Hlen Hk]]%lookup_app_Some; [by apply Hd|].
  rewrite (Hn _ _ Hk). f_equal. lia.
Qed.

Lemma executeRunStart_journal (run : RunRecord) (st : State) :
  journalExtends (db st) (db (executeRunStart env run st)).
Proof.
  unfold executeRunStart.
  destruct (getThread (r_threadId (run_row run)) (db st));
    [by apply journalExtends_same|].
  cbn [Date_now]. unfold onEvent, with_db. cbn [db].
  by apply journalExtends_update_emit.
Qed.

Lemma execute_journal (r : jsstring) (st : State) :
  journalExtends (db st) (db (execute env r st)).
Proof.
  unfold execute.
  destruct (getRun r (db st)) as [run|]; [|by apply journalExtends_same].
  destruct (negb _); [by apply journalExtends_same|].
  cbn [Date_now pending running controllers db].
  eapply journalExtends_trans; [|apply executeRunStart_journal].
  unfold onEvent, with_db. cbn [db].
  by apply journalExtends_update_emit.
Qed.

Lemma tickLoop_journal (fuel : nat) (st : State) :
  journalExtends (db st) (db (tickLoop env maxConcurrent fuel st)).
Proof.
  apply (tickLoop_preserves env maxConcurrent
           (fun st' => journalExtends (db st) (db st')));
    [|by apply journalExtends_same].
  intros st' r rest Hext _ _ _.
  eapply journalExtends_trans; [exact Hext|].
  apply (execute_journal r (with_pending (set_delete r) st')).
Qed.

Lemma step_journal (st : State) (op : Op) :
  journalExtends (db st) (db (step env maxConcurrent st op)).
Proof.
  destruct op as [r|r|r|r| |run thrown|input|r status updates|t r ty payload];
    cbn [step].
  - apply (tickLoop_journal _ (with_pending (set_add r) st)).
  - unfold pause. destruct (negb _); [by apply journalExtends_same|].
    destruct (getRun r (db st)); [|by apply journalExtends_same].
    cbn [snd]. unfold onEvent, with_db. cbn [db with_pending].
    by apply journalExtends_update_emit.
  - unfold resume. destruct (getRun r (db st)); [|by apply journalExtends_same].
    destruct (negb _); [by apply journalExtends_same|]. cbn [snd].
    eapply journalExtends_trans; [|apply tickLoop_journal].
    unfold onEvent, with_db. cbn [db with_pending].
    by apply journalExtends_update_emit.
  - unfold stop. destruct (getRun r (db st)); [|by apply journalExtends_same].
    destruct (set_has r (pending st)).
    + cbn [Date_now snd]. unfold onEvent, with_db. cbn [db with_pending].
      by apply journalExtends_update_emit.
    + destruct (controllers st !! r); by apply journalExtends_same.
  - apply tickLoop_journal.
  - unfold finish.
    eapply journalExtends_trans; [|apply tickLoop_journal].
    destruct thrown as [message|]; [|by apply journalExtends_same].
    cbn [Date_now db]. unfold onEvent, with_db. cbn [db].
    by apply journalExtends_update_emit.
  - apply journalExtends_same.
    by destruct (createRun_spec env input (db st))
      as (_ & _ & _ & _ & _ & _ & _ & ? & _).
  - apply journalExtends_same.
    apply (proj1 (updateRunStatus_frame_tables env r status updates (db st))).
  - apply journalExtends_emit.
Qed.

Lemma fold_step_journal (ops : list Op) (st : State) :
  journalExtends (db st) (db (fold_left (step env maxConcurrent) ops st)).
Proof.
  revert st. induction ops as [|op ops IH]; intros st;
    [by apply journalExtends_same|].
  simpl. eapply journalExtends_trans; [apply step_journal|apply IH].
Qed.

(** X11.  The journal is append-only and numbered by position.  Whatever
    sequence of queue calls, ticks, settling executors, run creations,
    status updates and emitted events the daemon goes through, the events
    already in the journal stay where they are, and if identifiers were
    the positions 1, 2, ... before, they still are afterwards; so
    identifiers strictly increase in journal order and none is used
    twice. *)
Theorem journal_append_only (d : Database) (ops : list Op) :
  journalNumbered d ->
  let d' := db (runOps env maxConcurrent d ops) in
  events d `prefix_of` events d'
  /\ (forall k e, events d' !! k = Some e -> ev_id e = Z.of_nat k + 1)
  /\ (forall i j ei ej,
        events d' !! i = Some ei -> events d' !! j = Some ej ->
        (i < j)%nat -> ev_id ei < ev_id ej).
Proof.
  intros Hd d'.
  pose proof (fold_step_journal ops (initial d)) as Hext.
  fold (runOps env maxConcurrent d ops) in Hext.
  change (db (initial d)) with d in Hext. fold d' in Hext.
  pose proof (journalExtends_numbered d d' Hext Hd) as Hnum.
  split; [|split].
  - destruct Hext as (new & -> & _). by exists new.
  - exact Hnum.
  - intros i j ei ej Hi Hj Hlt.
    rewrite (Hnum _ _ Hi), (Hnum _ _ Hj). lia.
Qed.

End JournalFacts.

Section QueueControlExamples.

Import Db Queue.

Lemma pause_then_resume_witness :
  fst (pause exampleEnv (js "r2") threeEnqueued) = true
  /\ pending threeEnqueued = [js "r2"; js "r3"]
  /\ pending (snd (resume exampleEnv (of_int 1) (js "r2")
                     (snd (pause exampleEnv (js "r2") threeEnqueued))))
     = [js "r3"; js "r2"].
Proof.
  assert (Hok : fst (pause exampleEnv (js "r2") threeEnqueued) = true)
    by (vm_compute; reflexivity).
  assert (Hp : pending threeEnqueued = [js "r2"; js "r3"])
    by (vm_compute; reflexivity).
  assert (Hcap : int_lt (Z.of_nat (size (running threeEnqueued))) (of_int 1)
                 = false) by (vm_compute; reflexivity).
  pose proof (pause_then_resume exampleEnv (of_int 1) (js "r2") threeEnqueued
                Hok) as H.
  cbv zeta in H. destruct H as (_ & _ & Hfull).
  destruct (Hfull Hcap) as (Hpending & _).
  split; [exact Hok|]. split; [exact Hp|].
  etrans; [exact Hpending|]. vm_compute. reflexivity.
Defined.

Lemma journal_append_only_witness :
  journalNumbered queueDb
  /\ List.map ev_id (events (db threeEnqueued)) = [1]
  /\ events queueDb `prefix_of` events (db threeEnqueued).
Proof.
  assert (Hnum : journalNumbered queueDb) by (by intros k e).
  assert (Hids : List.map ev_id (events (db threeEnqueued)) = [1])
    by (vm_compute; reflexivity).
  pose proof (journal_append_only exampleEnv (of_int 1) queueDb
                [OpEnqueue (js "r1"); OpEnqueue (js "r2");
                 OpEnqueue (js "r3")] Hnum) as H.
  cbv zeta in H. split; [exact Hnum|]. split; [exact Hids|].
  exact (proj1 H).
Defined.

End QueueControlExamples.

(** ** Resolving the tasks of a PRD *)

Section PrdFacts.

Import Prd.

(** Every dependency of a task is the id of a task before it. *)
Definition dependenciesFirst (tasks : list PrdTask) : Prop :=
  forall k task dep,
    tasks !! k = Some task -> dep ∈ pt_dependsOn task ->
    exists j task', (j < k)%nat /\ tasks !! j = Some task'
                    /\ pt_id task' = dep.

Lemma checkDependencies_None (taskIds seenIds : gset (list N))
    (taskId : jsstring) (deps : list jsstring) :
  checkDependencies taskIds seenIds taskId deps = None
  <-> forall dep, dep ∈ deps -> dep ∈ taskIds /\ dep ∈ seenIds.
Proof.
  induction deps as [|d deps IH]; simpl.
  - split; [|done]. intros _ dep Hdep. by apply elem_of_nil in Hdep.
  - case_bool_decide as Hall; simpl.
    + case_bool_decide as Hseen; simpl.
      * rewrite IH. split.
        -- intros H dep [->|Hdep]%elem_of_cons; [done|by apply H].
        -- intros H dep Hdep. apply H. by apply elem_of_cons; right.
      * split; [done|]. intros H. destruct (H d) as [_ ?]; [|done].
        by apply elem_of_cons; left.
    + split; [done|]. intros H. destruct (H d) as [? _]; [|done].
      by apply elem_of_cons; left.
Qed.

Lemma checkDependencies_Some (taskIds seenIds : gset (list N))
    (taskId : jsstring) (deps : list jsstring) (message : jsstring) :
  checkDependencies taskIds seenIds taskId deps = Some message ->
  exists dep,
    dep ∈ deps
    /\ (((dep ∉ taskIds) /\ message = missingDependency taskId dep)
        \/ (dep ∈ taskIds /\ (dep ∉ seenIds)
            /\ message = laterDependency taskId dep)).
Proof.
  induction deps as [|d deps IH]; simpl; [done|].
  case_bool_decide as Hall; simpl.
  - case_bool_decide as Hseen; simpl.
    + intros H. destruct (IH H) as (dep & Hdep & Hm).
      exists dep. split; [by apply elem_of_cons; right|done].
    + intros [= <-]. exists d. split; [by apply elem_of_cons; left|].
      by right.
  - intros [= <-]. exists d. split; [by apply elem_of_cons; left|].
    by left.
Qed.

Lemma resolveFrom_spec (prd : Prd) (taskIds seenIds : gset (list N))
    (i : nat) (todo : list PrdTask) :
  match resolveFrom prd taskIds seenIds i todo with
  | inr resolved =>
      resolved = imap (fun k => resolveTask prd (i + k)) todo
      /\ forall k task dep,
           todo !! k = Some task -> dep ∈ pt_dependsOn task ->
           dep ∈ seenIds
           \/ exists j task', (j < k)%nat /\ todo !! j = Some task'
                              /\ pt_id task' = dep
  | inl message =>
      exists k task dep,
        todo !! k = Some task /\ dep ∈ pt_dependsOn task
        /\ (((dep ∉ taskIds) /\ message = missingDependency (pt_id task) dep)
            \/ (dep ∈ taskIds /\ (dep ∉ seenIds)
                /\ (forall j task', (j < k)%nat -> todo !! j = Some task' ->
                      pt_id task' <> dep)
                /\ message = laterDependency (pt_id task) dep))
  end.
Proof.
  revert seenIds i. induction todo as [|task rest IH]; intros seenIds i.
  { simpl. split; [done|]. by intros k task dep. }
  simpl.
  destruct (checkDependencies taskIds seenIds (pt_id task) (pt_dependsOn task))
    as [message|] eqn:Hcheck.
  - apply checkDependencies_Some in Hcheck as (dep & Hdep & Hm).
    exists 0%nat, task, dep. split; [done|]. split; [done|].
    destruct Hm as [?|(? & ? & ?)]; [by left|right].
    split; [done|]. split; [done|]. split; [|done]. intros j ? Hj. lia.
  - pose proof (proj1 (checkDependencies_None _ _ _ _) Hcheck) as Hdeps.
    specialize (IH ({[pt_id task]} ∪ seenIds) (S i)).
    destruct (resolveFrom prd taskIds ({[pt_id task]} ∪ seenIds) (S i) rest)
      as [message|resolved].
    + destruct IH as (k & task' & dep & Hk & Hdep & Hm).
      exists (S k), task', dep. split; [done|]. split; [done|].
      destruct Hm as [?|(Hin & Hnot & Hearlier & ->)]; [by left|right].
      apply not_elem_of_union in Hnot as [Hne Hnot].
      split; [done|]. split; [done|]. split; [|done].
      intros [|j] t Hj Ht.
      * injection Ht as <-. intros Heq. apply Hne.
        by apply elem_of_singleton.
      * apply (Hearlier j); [lia|done].
    + destruct IH as [-> Hcond]. split.
      * rewrite Nat.add_0_r. f_equal. apply imap_ext.
        intros k t _. cbn. f_equal. lia.
      * intros [|k] t dep Hk Hdep.
        -- injection Hk as <-. left. by apply Hdeps.
        -- destruct (Hcond k t dep Hk Hdep)
             as [[Hself|Hseen]%elem_of_union|(j & t' & Hj & Ht' & Hid)].
           ++ right. exists 0%nat, task. split; [lia|]. split; [done|].
              by apply elem_of_singleton in Hself.
           ++ by left.
           ++ right. exists (S j), t'. split; [lia|done].
Qed.

Lemma elem_of_taskIds (tasks : list PrdTask) (dep : jsstring) :
  dep ∈ (list_to_set (List.map pt_id tasks) : gset (list N))
  <-> exists task, task ∈ tasks /\ pt_id task = dep.
Proof.
  rewrite elem_of_list_to_set, list_elem_of_In, in_map_iff.
  split; intros (task & ? & ?); exists task.
  - split; [by apply list_elem_of_In|done].
  - split; [done|by apply list_elem_of_In].
Qed.

(** X12.  [resolveTasks] succeeds exactly when every dependency of every
    task is the id of a task earlier in the list.  When it throws, it is
    for a task and a dependency that no earlier task has as its id: the
    message says the dependency does not exist when no task at all has
    that id, and that it appears later (the task itself included)
    otherwise. *)
Theorem resolveTasks_spec (prd : Prd) :
  ((exists resolved, resolveTasks prd = inr resolved)
   <-> dependenciesFirst (prd_tasks prd))
  /\ (forall message, resolveTasks prd = inl message ->
        exists k task dep,
          prd_tasks prd !! k = Some task /\ dep ∈ pt_dependsOn task
          /\ (forall j task', (j < k)%nat -> prd_tasks prd !! j = Some task' ->
                pt_id task' <> dep)
          /\ (((forall task', task' ∈ prd_tasks prd -> pt_id task' <> dep)
               /\ message = missingDependency (pt_id task) dep)
              \/ ((exists task', task' ∈ prd_tasks prd /\ pt_id task' = dep)
                  /\ message = laterDependency (pt_id task) dep))).
Proof.
  pose proof (resolveFrom_spec prd
                (list_to_set (List.map pt_id (prd_tasks prd))) ∅ 0
                (prd_tasks prd)) as Hspec.
  unfold resolveTasks.
  destruct (resolveFrom prd _ ∅ 0 (prd_tasks prd)) as [message|resolved].
  - destruct Hspec as (k & task & dep & Hk & Hdep & Hm).
    assert (Hearlier : forall j task', (j < k)%nat ->
              prd_tasks prd !! j = Some task' -> pt_id task' <> dep).
    { destruct Hm as [[Hnot _]|(_ & _ & H & _)]; [|done].
      intros j task' _ Hj Hid. apply Hnot, elem_of_taskIds.
      exists task'. split; [|done]. by eapply list_elem_of_lookup_2. }
    split.
    + split; [by intros [? ?]|]. intros Hfirst. exfalso.
      destruct (Hfirst k task dep Hk Hdep) as (j & task' & Hj & Ht & Hid).
      by apply (Hearlier j task').
    + intros ? [= <-]. exists k, task, dep.
      split; [done|]. split; [done|]. split; [done|].
      destruct Hm as [[Hnot ->]|(Hin & _ & _ & ->)].
      * left. split; [|done]. intros task' Ht Hid.
        apply Hnot, elem_of_taskIds. by exists task'.
      * right. split; [|done]. by apply elem_of_taskIds.
  - destruct Hspec as [_ Hcond]. split; [|done].
    split; [|by eauto]. intros _ k task dep Hk Hdep.
    destruct (Hcond k task dep Hk Hdep) as [Hin|?]; [|done].
    by apply elem_of_empty in Hin.
Qed.

(** X13.  When [resolveTasks] succeeds, its result has one entry per task,
    in the order of the PRD: entry k+1 carries the task's own fields, the
    index k+1 and the number of tasks as total, the task's validation
    commands and iteration budget if it has them and the PRD's defaults
    otherwise; and every dependency of an entry is the id of an entry
    before it, so running the entries in order never runs a task before
    one it depends on. *)
Theorem resolveTasks_resolved (prd : Prd) (resolved : list ResolvedTask) :
  resolveTasks prd = inr resolved ->
  length resolved = length (prd_tasks prd)
  /\ (forall k r, resolved !! k = Some r ->
        exists task,
          prd_tasks prd !! k = Some task
          /\ rt_id r = pt_id task /\ rt_name r = pt_name task
          /\ rt_description r = pt_description task
          /\ rt_dependsOn r = pt_dependsOn task
          /\ rt_acceptanceCriteria r = pt_acceptanceCriteria task
          /\ rt_skip r = pt_skip task
          /\ rt_index r = Z.of_nat k + 1
          /\ rt_total r = Z.of_nat (length resolved)
          /\ rt_validate r
             = match pt_validate task with
               | Some commands => commands
               | None => prd_validate prd
               end
          /\ rt_maxIterations r
             = match pt_maxIterations task with
               | Some n => n
               | None => prd_maxIterations prd
               end)
  /\ (forall k r dep, resolved !! k = Some r -> dep ∈ rt_dependsOn r ->
        exists j r', (j < k)%nat /\ resolved !! j = Some r' /\ rt_id r' = dep).
Proof.
  intros Hok.
  pose proof (resolveFrom_spec prd
                (list_to_set (List.map pt_id (prd_tasks prd))) ∅ 0
                (prd_tasks prd)) as Hspec.
  unfold resolveTasks in Hok. rewrite Hok in Hspec.
  destruct Hspec as [-> Hcond].
  assert (Hlen : length (imap (fun k => resolveTask prd (0 + k))
                           (prd_tasks prd)) = length (prd_tasks prd))
    by apply length_imap.
  split; [exact Hlen|]. split.
  - intros k r Hk. rewrite list_lookup_imap in Hk.
    destruct (prd_tasks prd !! k) as [task|] eqn:Htask; [|done].
    injection Hk as <-. exists task. rewrite Hlen. cbn.
    repeat split; by destruct (pt_validate task), (pt_maxIterations task).
  - intros k r dep Hk Hdep. rewrite list_lookup_imap in Hk.
    destruct (prd_tasks prd !! k) as [task|] eqn:Htask; [|done].
    injection Hk as <-.
    destruct (Hcond k task dep Htask Hdep) as [Hin|(j & task' & Hj & Ht & Hid)];
      [by apply elem_of_empty in Hin|].
    exists j, (resolveTask prd (0 + j) task'). split; [done|].
    split; [|done]. by rewrite list_lookup_imap, Ht.
Qed.

(** A PRD of two tasks, the second depending on the first and carrying
    its own validation command. *)
Definition shopPrd : Prd :=
  {| prd_name := js "shop";
     prd_description := js "A shop";
     prd_agent := None;
     prd_validate := [js "npm test"];
     prd_maxIterations := 50;
     prd_tasks :=
       [ mkPrdTask (js "cart") (js "Cart") (js "Build the cart") None None
                   [] [js "items can be added"] false;
         mkPrdTask (js "checkout") (js "Checkout") (js "Build the checkout")
                   (Some [js "npm run e2e"]) (Some 5) [js "cart"] [] false ] |}.

Lemma resolveTasks_resolved_witness :
  let resolved := imap (resolveTask shopPrd) (prd_tasks shopPrd) in
  resolveTasks shopPrd = inr resolved
  /\ List.map rt_validate resolved = [[js "npm test"]; [js "npm run e2e"]]
  /\ exists j r',
       (j < 1)%nat /\ resolved !! j = Some r' /\ rt_id r' = js "cart".
Proof.
  intros resolved.
  assert (Hok : resolveTasks shopPrd = inr resolved)
    by (vm_compute; reflexivity).
  assert (Hr : resolved !! 1%nat
               = Some (resolveTask shopPrd 1
                         (mkPrdTask (js "checkout") (js "Checkout")
                            (js "Build the checkout")
                            (Some [js "npm run e2e"]) (Some 5) [js "cart"] []
                            false))) by reflexivity.
  assert (Hdep : js "cart" ∈ [js "cart"]) by (by apply list_elem_of_singleton).
  pose proof (resolveTasks_resolved shopPrd resolved Hok) as (_ & _ & Hdeps).
  split; [exact Hok|]. split; [vm_compute; reflexivity|].
  exact (Hdeps 1%nat _ (js "cart") Hr Hdep).
Defined.

Lemma uniqueFrom_spec (seen : gset (list N)) (todo : list PrdTask) :
  match uniqueFrom seen todo with
  | None =>
      NoDup (List.map pt_id todo)
      /\ forall task, task ∈ todo -> pt_id task ∉ seen
  | Some message =>
      exists k task,
        todo !! k = Some task
        /\ message = duplicateId (pt_id task)
        /\ (pt_id task ∈ seen
            \/ exists j task', (j < k)%nat /\ todo !! j = Some task'
                               /\ pt_id task' = pt_id task)
        /\ NoDup (List.map pt_id (take k todo))
        /\ forall task', task' ∈ take k todo -> pt_id task' ∉ seen
  end.
Proof.
  revert seen. induction todo as [|task rest IH]; intros seen; simpl.
  { split; [constructor|]. intros task Ht. by apply elem_of_nil in Ht. }
  case_bool_decide as Hseen.
  - exists 0%nat, task. split; [done|]. split; [done|]. split; [by left|].
    split; [constructor|]. intros task' Ht. by apply elem_of_nil in Ht.
  - specialize (IH ({[pt_id task]} ∪ seen)).
    destruct (uniqueFrom ({[pt_id task]} ∪ seen) rest) as [message|].
    + destruct IH as (k & task' & Hk & -> & Hdup & Hnd & Hfresh).
      exists (S k), task'. split; [done|]. split; [done|]. split; [|split].
      * destruct Hdup as [[Hself|Hin]%elem_of_union|(j & t & Hj & Ht & Hid)].
        -- right. exists 0%nat, task. split; [lia|]. split; [done|].
           by apply elem_of_singleton in Hself.
        -- by left.
        -- right. exists (S j), t. split; [lia|done].
      * cbn [take List.map]. apply NoDup_cons. split; [|done].
        intros Hin. apply list_elem_of_In, in_map_iff in Hin as (t & Hid & Ht).
        apply list_elem_of_In, Hfresh in Ht. apply Ht, elem_of_union. left.
        by apply elem_of_singleton.
      * cbn [take]. intros t [->|Ht]%elem_of_cons; [done|].
        apply Hfresh in Ht. by apply not_elem_of_union in Ht as [_ ?].
    + destruct IH as [Hnd Hfresh]. split.
      * apply NoDup_cons. split; [|done].
        intros Hin. apply list_elem_of_In, in_map_iff in Hin as (t & Hid & Ht).
        apply list_elem_of_In, Hfresh in Ht. apply Ht, elem_of_union. left.
        by apply elem_of_singleton.
      * intros t [->|Ht]%elem_of_cons; [done|].
        apply Hfresh in Ht. by apply not_elem_of_union in Ht as [_ ?].
Qed.

Lemma lookup_map {A B} (f : A -> B) (l : list A) (k : nat) :
  List.map f l !! k = f <$> l !! k.
Proof.
  revert k. induction l as [|a l IH]; intros [|k]; simpl; by try apply IH.
Qed.

(** X14.  [validateUniqueIds] accepts a PRD exactly when no two of its
    tasks share an id.  When it throws, the message names the id of the
    first task that repeats the id of a task before it. *)
Theorem validateUniqueIds_spec (prd : Prd) :
  (validateUniqueIds prd = None <-> NoDup (List.map pt_id (prd_tasks prd)))
  /\ (forall message, validateUniqueIds prd = Some message ->
        exists j k first again,
          (j < k)%nat
          /\ prd_tasks prd !! j = Some first
          /\ prd_tasks prd !! k = Some again
          /\ pt_id first = pt_id again
          /\ message = duplicateId (pt_id again)
          /\ NoDup (List.map pt_id (take k (prd_tasks prd)))).
Proof.
  pose proof (uniqueFrom_spec ∅ (prd_tasks prd)) as Hspec.
  unfold validateUniqueIds.
  destruct (uniqueFrom ∅ (prd_tasks prd)) as [message|].
  - destruct Hspec as (k & again & Hk & -> & Hdup & Hnd & _).
    destruct Hdup as [Hin|(j & first & Hj & Hfirst & Hid)];
      [by apply elem_of_empty in Hin|].
    split.
    + split; [done|]. intros Hall. exfalso.
      assert (j = k); [|lia].
      apply (NoDup_lookup _ j k (pt_id again) Hall).
      * by rewrite lookup_map, Hfirst, <- Hid.
      * by rewrite lookup_map, Hk.
    + intros ? [= <-]. by exists j, k, first, again.
  - destruct Hspec as [Hnd _]. split; [done|]. done.
Qed.

End PrdFacts.

(** ** The agent registry and the commands the adapters build *)

Section AgentFacts.

Import Agents.

Context {number : Type} (stringOf : number -> jsstring).

Definition supportedAgents : list jsstring :=
  [js "claude"; js "codex"; js "opencode"].

(** The arguments every command of an agent starts with. *)
Definition fixedArgs (agentName : jsstring) : list jsstring :=
  if bool_decide (agentName = js "claude")
  then [js "-p"; js "--dangerously-skip-permissions"; js "--verbose"]
  else if bool_decide (agentName = js "codex")
  then [js "exec"; js "--full-auto"; js "--sandbox"]
  else [js "run"].

(** The additional flags the configuration holds for an agent. *)
Definition configuredFlags (agentName : jsstring)
    (opts : option (AgentOptions (number := number))) : list jsstring :=
  if bool_decide (agentName = js "claude")
  then default [] ((opts ≫= ao_claude) ≫= cl_additionalFlags)
  else if bool_decide (agentName = js "codex")
  then default [] ((opts ≫= ao_codex) ≫= cx_additionalFlags)
  else default [] ((opts ≫= ao_opencode) ≫= oc_additionalFlags).

(** X15.  [getAdapter] knows exactly the agents claude, codex and
    opencode, and throws the unknown-agent error for every other name.
    The adapter it returns has the requested name, and the command it
    builds runs the binary of that name in the given directory with a
    five-minute timeout; its arguments are the agent's fixed flags, then
    the configured options, then the configured additional flags in
    their order, and the prompt, whole, as the last argument. *)
Theorem getAdapter_buildCommand (agentName : jsstring)
    (opts : option AgentOptions) (prompt cwd : jsstring) :
  match getAdapter stringOf agentName opts with
  | inr adapter =>
      agentName ∈ supportedAgents
      /\ name adapter = agentName
      /\ command adapter = agentName
      /\ sc_command (buildCommand adapter prompt cwd) = agentName
      /\ sc_cwd (buildCommand adapter prompt cwd) = cwd
      /\ sc_timeout (buildCommand adapter prompt cwd) = 300000
      /\ last (sc_args (buildCommand adapter prompt cwd)) = Some prompt
      /\ exists middle,
           sc_args (buildCommand adapter prompt cwd)
           = fixedArgs agentName ++ middle
               ++ configuredFlags agentName opts ++ [prompt]
  | inl message =>
      (agentName ∉ supportedAgents) /\ message = unknownAgent agentName
  end.
Proof.
  unfold getAdapter, fixedArgs, configuredFlags, supportedAgents.
  case_bool_decide as Hclaude; [subst agentName|].
  { split; [by apply elem_of_cons; left|].
    cbn [name command buildCommand ClaudeAdapter sc_command sc_cwd
         sc_timeout sc_args].
    repeat (split; [reflexivity|]).
    destruct (opts ≫= ao_claude) as [o|]; cbv [from_option id mbind option_bind].
    - split; [destruct (cl_maxTurns o); apply last_snoc|].
      destruct (cl_maxTurns o) as [n|].
      + exists (modelArgs (cl_model o) ++ [js "--max-turns"; stringOf n]).
        destruct (cl_additionalFlags o); cbv [additionalArgs from_option id];
          by rewrite <- ?app_assoc.
      + exists (modelArgs (cl_model o)).
        destruct (cl_additionalFlags o); cbv [additionalArgs from_option id];
          by rewrite <- ?app_assoc.
    - split; [reflexivity|]. by exists []. }
  case_bool_decide as Hcodex; [subst agentName|].
  { split; [by apply elem_of_cons; right; apply elem_of_cons; left|].
    cbn [name command buildCommand CodexAdapter sc_command sc_cwd
         sc_timeout sc_args].
    repeat (split; [reflexivity|]).
    split; [apply last_snoc|].
    destruct (opts ≫= ao_codex) as [o|]; cbv [from_option id mbind option_bind].
    - exists ([match cx_sandbox o with
               | Some s => sandboxName s
               | None => js "workspace-write"
               end] ++ modelArgs (cx_model o)).
      destruct (cx_additionalFlags o); cbv [additionalArgs from_option id];
        by rewrite <- ?app_assoc.
    - by exists [js "workspace-write"]. }
  case_bool_decide as Hopen; [subst agentName|].
  { split; [by do 2 (apply elem_of_cons; right); apply elem_of_cons; left|].
    cbn [name command buildCommand OpenCodeAdapter sc_command sc_cwd
         sc_timeout sc_args].
    repeat (split; [reflexivity|]).
    split; [apply last_snoc|].
    destruct (opts ≫= ao_opencode) as [o|]; cbv [from_option id mbind option_bind].
    - exists (modelArgs (oc_model o)).
      destruct (oc_additionalFlags o); cbv [additionalArgs from_option id];
        by rewrite <- ?app_assoc.
    - by exists []. }
  split; [|done].
  intros [?|[?|[?|?%elem_of_nil]%elem_of_cons]%elem_of_cons]%elem_of_cons;
    done.
Qed.

End AgentFacts.

(** ** Recording the outcome of a run *)

Section ExecutorFacts.

Import Db Queue Runner Executor.

Context (env : Env) (payloadOf : LoopPayload -> Payload).

(** The three endings of [executeRunEnd] differ in the status, the event
    type, the error and the payload only. *)
Lemma executeRunEnd_shape (thread : ThreadRecord) (run : RunRecord)
    (signalAborted : bool) (result : LoopResult) (d : Database) :
  exists status type error payload,
    executeRunEnd env thread run signalAborted result d
    = emitEvent env (thread_id thread) (Some (run_id run)) type payload
        (updateRunStatus env (run_id run) status
           (mkRunUpdates (Some (iterations result)) error None
                         (Some (clock env (clock_reads d))))
           (Date_now env d).2)
    /\ (signalAborted = true \/ cancelled result = true ->
          status = Cancelled /\ type = run_cancelled /\ error = None)
    /\ (signalAborted = false -> cancelled result = false ->
        success result = true ->
          status = Completed /\ type = run_completed /\ error = None)
    /\ (signalAborted = false -> cancelled result = false ->
        success result = false ->
          status = Failed /\ type = run_failed
          /\ error = Some (js "Loop ended before completion")).
Proof.
  unfold executeRunEnd.
  destruct signalAborted; [|destruct (cancelled result)];
    [| |destruct (success result)]; cbn [orb Date_now snd];
    eexists _, _, _, _; (split; [reflexivity|]);
    (split; [by intros [?|?]|]); split; by intros.
Qed.

(** X16.  When the loop of a run returns, [executeRun] records exactly
    one outcome: cancelled if the abort signal is set or the loop reports
    cancellation (even when the loop also reports success), otherwise
    completed if the loop succeeded, otherwise failed with the error
    "Loop ended before completion".  The run's row gets that status, the
    loop's iteration count and the current time as finish time, its other
    columns and the other runs stay as they were, and one event of the
    matching type is appended for the run. *)
Theorem executeRunEnd_outcome (thread : ThreadRecord) (run : RunRecord)
    (signalAborted : bool) (result : LoopResult) (d : Database)
    (row : RunRow) :
  runs d !! run_id run = Some row ->
  let d' := executeRunEnd env thread run signalAborted result d in
  exists row' e,
    runs d' !! run_id run = Some row'
    /\ events d' = events d ++ [e]
    /\ ev_runId e = Some (run_id run)
    /\ ev_threadId e = thread_id thread
    /\ r_iterations row' = iterations result
    /\ r_finishedAt row' = Some (clock env (clock_reads d))
    /\ r_startedAt row' = r_startedAt row
    /\ r_threadId row' = r_threadId row
    /\ r_maxIterations row' = r_maxIterations row
    /\ r_taskOverride row' = r_taskOverride row
    /\ r_sourceRunId row' = r_sourceRunId row
    /\ r_createdAt row' = r_createdAt row
    /\ (signalAborted = true \/ cancelled result = true ->
          r_status row' = Cancelled /\ ev_type e = run_cancelled
          /\ r_error row' = r_error row)
    /\ (signalAborted = false -> cancelled result = false ->
        success result = true ->
          r_status row' = Completed /\ ev_type e = run_completed
          /\ r_error row' = r_error row)
    /\ (signalAborted = false -> cancelled result = false ->
        success result = false ->
          r_status row' = Failed /\ ev_type e = run_failed
          /\ r_error row' = Some (js "Loop ended before completion"))
    /\ (forall other, other <> run_id run ->
          runs d' !! other = runs d !! other).
Proof.
  intros Hrow d'. subst d'.
  destruct (executeRunEnd_shape thread run signalAborted result d)
    as (status & type & error & payload & -> & Hcan & Hok & Hfail).
  set (d1 := (Date_now env d).2).
  set (updates := mkRunUpdates _ _ _ _).
  rewrite (proj1 (emitEvent_frame _ _ _ _ _ _)), emitEvent_events.
  rewrite (proj1 (updateRunStatus_frame_tables env (run_id run) status
                    updates d1)).
  rewrite updateRunStatus_runs. change (runs d1) with (runs d).
  rewrite Hrow. eexists _, _.
  split; [apply lookup_insert_eq|]. split; [reflexivity|].
  do 10 (split; [reflexivity|]).
  split; [|split; [|split]].
  - intros H. destruct (Hcan H) as (-> & -> & ->). done.
  - intros H1 H2 H3. destruct (Hok H1 H2 H3) as (-> & -> & ->). done.
  - intros H1 H2 H3. destruct (Hfail H1 H2 H3) as (-> & -> & ->). done.
  - intros other Hne. by rewrite lookup_insert_ne.
Qed.

Lemma runTaskLoop_iterations_nonneg (opts : RunTaskOptions) (w : World) :
  0 <= o_maxIterations opts ->
  0 <= iterations (result (runTaskLoop opts w)).
Proof.
  intros Hmax. unfold runTaskLoop.
  destruct (loopFrom_outcomes opts w (Z.to_nat (o_maxIterations opts)) 1
              (initialState opts w)) as (Hs & Hc & He).
  cbv zeta in Hs, Hc, He.
  set (run := loopFrom _ _ _ _ _) in *.
  destruct (success (result run)) eqn:Hsucc.
  - destruct (Hs eq_refl) as (_ & Hdry & Hwet).
    destruct (dryRun opts); [rewrite Hdry by done|specialize (Hwet eq_refl)];
      lia.
  - destruct (cancelled (result run)) eqn:Hcan.
    + destruct (Hc eq_refl) as (_ & ? & _). lia.
    + rewrite He by done. lia.
Qed.

(** Outside a dry run the loop emits as many [iteration.started] events
    as the iteration count it reports. *)
Lemma runTaskLoop_started_length (opts : RunTaskOptions) (w : World) :
  dryRun opts = false ->
  0 <= o_maxIterations opts ->
  Z.of_nat (length (startedIterations (actions (runTaskLoop opts w))))
  = iterations (result (runTaskLoop opts w)).
Proof.
  intros Hdry Hmax.
  pose proof (runTaskLoop_iterations_nonneg opts w Hmax) as Hnonneg.
  unfold runTaskLoop in *.
  destruct (loopFrom_started opts w (Z.to_nat (o_maxIterations opts)) 1
              (initialState opts w) Hdry) as (Hst & Hlen & Hit & Hex).
  cbv zeta in Hst, Hlen, Hit, Hex. rewrite Hst, length_seqZ.
  destruct (loopFrom_outcomes opts w (Z.to_nat (o_maxIterations opts)) 1
              (initialState opts w)) as (_ & _ & He).
  cbv zeta in He.
  set (run := loopFrom _ _ _ _ _) in *.
  destruct (success (result run)) eqn:Hsucc.
  - rewrite Hit by (by left). lia.
  - destruct (cancelled (result run)) eqn:Hcan.
    + rewrite Hit by (by right). lia.
    + rewrite He, Hex by done. lia.
Qed.

(** The journal entries of iteration starts among event types. *)
Definition iterationStarts (types : list EventType) : nat :=
  length (List.filter
            (fun t => bool_decide (t = ev_loop loop_iteration_started)) types).

Lemma iterationStarts_loopEvents (acts : list Action) :
  iterationStarts (List.map (fun e => ev_loop (e_type e)) (loopEvents acts))
  = length (startedIterations acts).
Proof.
  unfold iterationStarts, loopEvents, startedIterations.
  induction acts as [|a acts IH]; [done|].
  destruct a as [e| |]; cbn [omap list_omap]; [|exact IH..].
  cbn [List.map List.filter].
  destruct (e_type e); cbn [length];
    rewrite ?bool_decide_eq_true_2, ?bool_decide_eq_false_2 by done;
    cbn [length]; by rewrite ?IH.
Qed.

(** The journal after the loop's events went through [onLoopEvent]. *)
Lemma fold_onLoopEvent (thread : ThreadRecord) (run : RunRecord)
    (evs : list LoopEvent) (d : Database) :
  let d' := fold_left (fun d e => onLoopEvent env payloadOf thread run e d)
                      evs d in
  runs d' = runs d
  /\ exists new,
       events d' = events d ++ new
       /\ List.map ev_type new = List.map (fun e => ev_loop (e_type e)) evs
       /\ Forall (fun e => ev_runId e = Some (run_id run)
                           /\ ev_threadId e = thread_id thread) new.
Proof.
  revert d. induction evs as [|e evs IH]; intros d; cbn [fold_left].
  { split; [done|]. exists []. by rewrite app_nil_r. }
  destruct (IH (onLoopEvent env payloadOf thread run e d))
    as (Hruns & new & Hev & Hty & Hall).
  cbv zeta. rewrite Hruns, Hev. unfold onLoopEvent.
  rewrite (proj1 (emitEvent_frame _ _ _ _ _ _)), emitEvent_events.
  split; [done|]. eexists (_ :: new).
  split; [by rewrite <- app_assoc|]. split.
  - cbn [List.map ev_type]. by rewrite Hty.
  - by constructor.
Qed.

(** X17.  A run executed from start to end, its thread present, leaves
    in the journal the loop's events for the run, in the order the loop
    emitted them, followed by exactly one closing event, which is
    [run.cancelled], [run.completed] or [run.failed]; the run's row ends
    in the matching final status; and the iteration count stored in the
    row equals the number of [loop.iteration.started] entries journaled
    for it.  The loop runs without git checkpoints: it makes no commit and
    no revert.  The queue's own sets are not touched. *)
Theorem executeRun_journal (w : World) (signalAborted : bool)
    (run : RunRecord) (st : State) (thread : ThreadRecord) (row : RunRow) :
  getThread (r_threadId (run_row run)) (db st) = Some thread ->
  runs (db st) !! run_id run = Some row ->
  0 <= r_maxIterations (run_row run) ->
  let st' := executeRun env payloadOf w signalAborted run st in
  let loop := runTaskLoop (loopOptions thread run) w in
  pending st' = pending st
  /\ running st' = running st
  /\ controllers st' = controllers st
  /\ Forall isEmit (actions loop)
  /\ exists loopEntries final row',
       events (db st') = events (db st) ++ loopEntries ++ [final]
       /\ List.map ev_type loopEntries
          = List.map (fun e => ev_loop (e_type e)) (loopEvents (actions loop))
       /\ Forall (fun e => ev_runId e = Some (run_id run)
                           /\ ev_threadId e = thread_id thread)
                 (loopEntries ++ [final])
       /\ runs (db st') !! run_id run = Some row'
       /\ ((r_status row' = Cancelled /\ ev_type final = run_cancelled)
           \/ (r_status row' = Completed /\ ev_type final = run_completed)
           \/ (r_status row' = Failed /\ ev_type final = run_failed))
       /\ r_iterations row' = iterations (result loop)
       /\ Z.of_nat (iterationStarts (List.map ev_type loopEntries))
          = r_iterations row'.
Proof.
  intros Hthread Hrow Hmax st' loop. subst st'.
  unfold executeRun. rewrite Hthread. fold loop.
  cbn [with_db pending running controllers db].
  split; [done|]. split; [done|]. split; [done|].
  split; [by apply loopFrom_only_emits|].
  destruct (fold_onLoopEvent thread run (loopEvents (actions loop)) (db st))
    as (Hruns & new & Hev & Hty & Hall).
  cbv zeta in Hruns, Hev.
  set (d1 := fold_left _ _ (db st)) in *.
  destruct (executeRunEnd_shape thread run signalAborted (result loop) d1)
    as (status & type & error & payload & -> & Hcan & Hok & Hfail).
  set (d2 := (Date_now env d1).2).
  set (updates := mkRunUpdates _ _ _ _).
  rewrite (proj1 (emitEvent_frame _ _ _ _ _ _)), emitEvent_events.
  rewrite (proj1 (updateRunStatus_frame_tables env (run_id run) status
                    updates d2)).
  rewrite updateRunStatus_runs.
  change (runs d2) with (runs d1). change (events d2) with (events d1).
  rewrite Hruns, Hrow, Hev.
  assert (Hcases : (status = Cancelled /\ type = run_cancelled)
                   \/ (status = Completed /\ type = run_completed)
                   \/ (status = Failed /\ type = run_failed)).
  { destruct signalAborted; [left; by destruct Hcan as (? & ? & _); [left|]|].
    destruct (cancelled (result loop));
      [left; by destruct Hcan as (? & ? & _); [right|]|].
    destruct (success (result loop)).
    - right; left. by destruct Hok as (? & ? & _).
    - right; right. by destruct Hfail as (? & ? & _). }
  eexists new, _, _. split; [by rewrite <- app_assoc|].
  split; [exact Hty|]. split; [apply Forall_app; split; [exact Hall|]|].
  { by repeat constructor. }
  split; [apply lookup_insert_eq|]. split; [exact Hcases|].
  split; [reflexivity|].
  cbn [r_iterations u_iterations updates default from_option id].
  rewrite Hty, iterationStarts_loopEvents.
  subst loop. by apply runTaskLoop_started_length.
Qed.

End ExecutorFacts.

Section ExecutorExamples.

Import Db Queue Runner Executor.

Definition demoThread : ThreadRecord := mkThreadRecord (js "t1") exampleThread.

Definition demoRun : RunRecord := mkRunRecord (js "r1") exampleRun.

(** The loop succeeded after three iterations, but the run was stopped
    while it was finishing: it is recorded as cancelled. *)
Lemma executeRunEnd_outcome_witness :
  runs exampleDb !! js "r1" = Some exampleRun
  /\ exists row',
       runs (executeRunEnd exampleEnv demoThread demoRun true
               (mkLoopResult true 3 None false) exampleDb) !! js "r1"
       = Some row'
       /\ r_status row' = Cancelled
       /\ r_iterations row' = 3.
Proof.
  assert (H1 : runs exampleDb !! js "r1" = Some exampleRun)
    by (vm_compute; reflexivity).
  pose proof (executeRunEnd_outcome exampleEnv demoThread demoRun true
                (mkLoopResult true 3 None false) exampleDb exampleRun H1) as H.
  cbv zeta in H.
  destruct H as (row' & e & Hr & _ & _ & _ & Hit & _ & _ & _ & _ & _ & _ & _
                 & Hcan & _).
  split; [exact H1|]. exists row'. split; [exact Hr|].
  split; [exact (proj1 (Hcan (or_introl eq_refl)))|exact Hit].
Defined.

Lemma executeRun_journal_witness :
  let st' := executeRun exampleEnv (fun _ => []) happyWorld false demoRun
               (initial exampleDb) in
  getThread (js "t1") exampleDb = Some demoThread
  /\ runs exampleDb !! js "r1" = Some exampleRun
  /\ 0 <= 10
  /\ List.map ev_type (events (db st'))
     = [ ev_loop loop_iteration_started; ev_loop loop_agent_spawned;
         ev_loop loop_agent_exited; ev_loop loop_validation_completed;
         run_completed ]
  /\ pending st' = [].
Proof.
  intros st'.
  assert (H0 : getThread (r_threadId (run_row demoRun)) (db (initial exampleDb))
               = Some demoThread) by (vm_compute; reflexivity).
  assert (H1 : runs (db (initial exampleDb)) !! run_id demoRun
               = Some exampleRun) by (vm_compute; reflexivity).
  assert (H2 : 0 <= r_maxIterations (run_row demoRun)) by (cbn; lia).
  assert (H3 : List.map ev_type (events (db st'))
               = [ ev_loop loop_iteration_started; ev_loop loop_agent_spawned;
                   ev_loop loop_agent_exited; ev_loop loop_validation_completed;
                   run_completed ]) by (vm_compute; reflexivity).
  pose proof (executeRun_journal exampleEnv (fun _ => []) happyWorld false
                demoRun (initial exampleDb) demoThread exampleRun H0 H1 H2)
    as H.
  cbv zeta in H.
  split; [exact H0|]. split; [exact H1|]. split; [exact H2|].
  split; [exact H3|]. exact (proj1 H).
Defined.

End ExecutorExamples.

(** ** Creating and controlling runs over HTTP *)

Section ControlFacts.

Import Db Queue Control.

Context (env : Env) (maxConcurrent : jsnumber).

(** A run that is stored as queued when it is enqueued is not lost. *)
Lemma enqueue_waitingOrRunning (r : jsstring) (row : RunRow) (st : State) :
  runs (db st) !! r = Some row -> r_status row = Queued ->
  waitingOrRunning r row (enqueue env maxConcurrent r st).
Proof.
  intros Hrow Hst. unfold enqueue, tick. apply tickLoop_waitingOrRunning.
  left. cbn [pending with_pending db]. split; [apply set_add_elem|done].
Qed.





End ControlFacts.

Section ControlExamples.

Import Db Queue Control.


End ControlExamples.

(** ** What a worktree setup reports *)

Section WorktreeSound.

Import Worktree.

Lemma or_else_nonempty (a b : jsstring) : b <> [] -> or_else a b <> [].
Proof. intros Hb. unfold or_else. by destruct a. Qed.

Lemma resolveRepoRoot_cases (w : World) (repoPath : jsstring) :
  let c := RevParseShowToplevel repoPath in
  (resolveRepoRoot w repoPath
   = (inl (js "Path is not inside a git repository: " ++ repoPath), [Git c])
   /\ (exitCode (git w 0%nat c) <> 0 \/ trim (stdout (git w 0%nat c)) = []))
  \/ (resolveRepoRoot w repoPath
      = (inr (pathOf w (trim (stdout (git w 0%nat c)))), [Git c])
      /\ exitCode (git w 0%nat c) = 0
      /\ trim (stdout (git w 0%nat c)) <> []).
Proof.
  cbv zeta. unfold resolveRepoRoot.
  destruct (Z.eqb_spec (exitCode (git w 0%nat (RevParseShowToplevel repoPath)))
                       0) as [Hz|Hnz]; cbn [negb orb].
  - destruct (trim (stdout (git w 0%nat (RevParseShowToplevel repoPath))))
      as [|ch rest] eqn:Hout; cbn [truthy negb].
    + left. split; [done|by right].
    + right. done.
  - left. split; [done|by left].
Qed.

(** X21.  [createThreadWorktree] reports only what git did.  When it
    returns a worktree, the path and the branch it reports are those of
    the last [git worktree add] it ran, that command exited with 0, the
    branch starts with ralph/thread-, the path is a non-empty name directly
    under .ralph/worktrees of the repository root git printed, and that
    directory was created first, without an error.  It throws in three
    ways only: the path is not in a git repository, and then nothing but
    the [rev-parse] was run (no directory made, no worktree added);
    creating the directory .ralph/worktrees failed, and then the error is
    that of [mkdir] and no worktree was added; or both attempts to add a
    worktree failed. *)
Theorem createThreadWorktree_sound (w : World) (repoPath threadId : jsstring) :
  let out := createThreadWorktree w repoPath threadId in
  match out.1 with
  | inr res =>
      let added := WorktreeAdd (repoRoot res) (branchName res)
                               (worktreePath res) in
      (resolveRepoRoot w repoPath).1 = inr (repoRoot res)
      /\ last (worktreeAdds out.2) = Some added
      /\ exitCode (git w (length (worktreeAdds out.2)) added) = 0
      /\ (exists suffix, branchName res = js "ralph/thread-" ++ suffix)
      /\ (exists name,
            name <> []
            /\ worktreePath res
               = repoRoot res ++ [js ".ralph"; js "worktrees"; name])
      /\ mkdir w (repoRoot res ++ [js ".ralph"; js "worktrees"]) = None
      /\ (exists rest,
            out.2 = Git (RevParseShowToplevel repoPath)
                      :: Mkdir (repoRoot res ++ [js ".ralph"; js "worktrees"])
                      :: rest)
  | inl message =>
      (out.2 = [Git (RevParseShowToplevel repoPath)]
       /\ message = js "Path is not inside a git repository: " ++ repoPath)
      \/ (exists root,
            (resolveRepoRoot w repoPath).1 = inr root
            /\ mkdir w (root ++ [js ".ralph"; js "worktrees"]) = Some message
            /\ out.2 = [ Git (RevParseShowToplevel repoPath);
                         Mkdir (root ++ [js ".ralph"; js "worktrees"]) ])
      \/ (exists first second detail,
            worktreeAdds out.2 = [first; second]
            /\ exitCode (git w 1%nat first) <> 0
            /\ exitCode (git w 2%nat second) <> 0
            /\ detail <> []
            /\ message = js "Failed to create thread worktree: " ++ detail)
  end.
Proof.
  cbv zeta. unfold createThreadWorktree.
  destruct (resolveRepoRoot_cases w repoPath) as [[-> _]|(-> & _ & _)];
    cbv zeta; cbn [fst snd]; [by left|].
  set (root := pathOf w _). unfold resolve.
  set (name := or_else (shortIdOf threadId) (js "thread")).
  assert (Hname : name <> []) by (by apply or_else_nonempty).
  destruct (mkdir w (root ++ [js ".ralph"; js "worktrees"]))
    as [failure|] eqn:Hmkdir; cbn [fst snd].
  { right. left. by exists root. }
  destruct (truthy (shortIdOf threadId)); cbv zeta.
  all: match goal with
       | |- context [negb (exitCode ?g =? 0)] =>
           destruct (Z.eqb_spec (exitCode g) 0) as [H1|H1]
       end; cbn [negb]; cbv iota.
  all: try (cbn [fst snd repoRoot branchName worktreePath app];
            split; [reflexivity|]; split; [reflexivity|];
            split; [exact H1|]; split; [by eexists|];
            split; [exists name; by rewrite <- app_assoc|];
            split; [exact Hmkdir|by eexists]).
  all: match goal with
       | |- context [negb (exitCode ?g =? 0)] =>
           destruct (Z.eqb_spec (exitCode g) 0) as [H2|H2]
       end; cbn [negb]; cbv iota.
  all: cbn [fst snd repoRoot branchName worktreePath app].
  all: try (split; [reflexivity|]; split; [reflexivity|];
            split; [exact H2|]; split; [by eexists|];
            split; [eexists; split; [|by rewrite <- app_assoc];
                    by destruct name
                   |];
            split; [exact Hmkdir|by eexists]).
  all: right; right; eexists _, _, _; split; [reflexivity|];
       split; [exact H1|]; split; [exact H2|]; split; [|reflexivity];
       by do 2 apply or_else_nonempty.
Qed.

End WorktreeSound.

(** ** Triggering an automation by hand *)

Section SchedulerManual.

Import Db Queue Scheduler.

Context (env : Env) (maxConcurrent : jsnumber).


End SchedulerManual.

(** ** The runs a scheduler tick creates *)

Section SchedulerRuns.

Import Db Queue Scheduler.

Context (integerOf : jsstring -> option Z).
Context (env : Env) (maxConcurrent : jsnumber).

(** What the queue and the journal may do to the database between two
    triggers: read the clock, and rewrite rows of runs that exist, keeping
    their thread and iteration budget. *)
Definition dbGrows (d d' : Database) : Prop :=
  (clock_reads d <= clock_reads d')%nat
  /\ uuid_reads d' = uuid_reads d
  /\ dom (runs d') = dom (runs d)
  /\ forall r row, runs d !! r = Some row ->
       exists row', runs d' !! r = Some row'
                    /\ r_threadId row' = r_threadId row
                    /\ r_maxIterations row' = r_maxIterations row.

Lemma dbGrows_refl (d : Database) : dbGrows d d.
Proof. repeat split; [done|]. intros r row H. by exists row. Qed.

Lemma dbGrows_trans (d1 d2 d3 : Database) :
  dbGrows d1 d2 -> dbGrows d2 d3 -> dbGrows d1 d3.
Proof.
  intros (Hc & Hu & Hd & Hr) (Hc' & Hu' & Hd' & Hr').
  split; [lia|]. split; [congruence|]. split; [congruence|].
  intros r row Hrow.
  destruct (Hr r row Hrow) as (row2 & Hrow2 & ? & ?).
  destruct (Hr' r row2 Hrow2) as (row3 & Hrow3 & ? & ?).
  exists row3. split; [done|]. split; congruence.
Qed.

Lemma dbGrows_same (d d' : Database) :
  (clock_reads d <= clock_reads d')%nat -> uuid_reads d' = uuid_reads d ->
  runs d' = runs d -> dbGrows d d'.
Proof.
  intros Hc Hu Hr. split; [done|]. split; [done|]. rewrite Hr.
  split; [done|]. intros r row H. by exists row.
Qed.

Lemma dbGrows_updateRunStatus (r : jsstring) (status : RunStatus)
    (updates : RunUpdates) (d : Database) :
  dbGrows d (updateRunStatus env r status updates d).
Proof.
  pose proof (updateRunStatus_runs env r status updates d) as Hruns.
  split; [|split; [|split]].
  - unfold updateRunStatus, getRun.
    destruct (runs d !! r); cbn; lia.
  - unfold updateRunStatus, getRun. by destruct (runs d !! r).
  - rewrite Hruns. destruct (runs d !! r) as [row|] eqn:Hrow; [|done].
    apply dom_insert_lookup_L. by eexists.
  - intros x row Hx. rewrite Hruns.
    destruct (decide (x = r)) as [->|Hne].
    + rewrite Hx. eexists. split; [apply lookup_insert_eq|done].
    + exists row. destruct (runs d !! r); by rewrite ?lookup_insert_ne.
Qed.

Lemma dbGrows_emitEvent (threadId : jsstring) (runId : option jsstring)
    (type : EventType) (payload : Payload) (d : Database) :
  dbGrows d (emitEvent env threadId runId type payload d).
Proof. apply dbGrows_same; cbn; [lia|done..]. Qed.

Lemma dbGrows_Date_now (d : Database) : dbGrows d (Date_now env d).2.
Proof. apply dbGrows_same; cbn; [lia|done..]. Qed.

Lemma dbGrows_executeRunStart (run : RunRecord) (st : State) :
  dbGrows (db st) (db (executeRunStart env run st)).
Proof.
  unfold executeRunStart.
  destruct (getThread (r_threadId (run_row run)) (db st));
    [apply dbGrows_refl|].
  cbn [Date_now]. unfold onEvent, with_db. cbn [db].
  eapply dbGrows_trans; [|apply dbGrows_emitEvent].
  eapply dbGrows_trans; [|apply dbGrows_updateRunStatus].
  apply dbGrows_same; cbn; [lia|done..].
Qed.

Lemma dbGrows_execute (r : jsstring) (st : State) :
  dbGrows (db st) (db (execute env r st)).
Proof.
  unfold execute. destruct (getRun r (db st)) as [run|]; [|apply dbGrows_refl].
  destruct (negb _); [apply dbGrows_refl|].
  cbn [Date_now pending running controllers db].
  eapply dbGrows_trans; [|apply dbGrows_executeRunStart].
  unfold onEvent, with_db. cbn [db].
  eapply dbGrows_trans; [|apply dbGrows_emitEvent].
  eapply dbGrows_trans; [|apply dbGrows_updateRunStatus].
  apply dbGrows_same; cbn; [lia|done..].
Qed.

Lemma dbGrows_tickLoop (fuel : nat) (st : State) :
  dbGrows (db st) (db (tickLoop env maxConcurrent fuel st)).
Proof.
  apply (tickLoop_preserves env maxConcurrent
           (fun st' => dbGrows (db st) (db st'))); [|apply dbGrows_refl].
  intros st' r rest Hgrows _ _ _.
  eapply dbGrows_trans; [exact Hgrows|].
  apply (dbGrows_execute r (with_pending (set_delete r) st')).
Qed.

Lemma dbGrows_enqueue (r : jsstring) (st : State) :
  dbGrows (db st) (db (enqueue env maxConcurrent r st)).
Proof. apply (dbGrows_tickLoop _ (with_pending (set_add r) st)). Qed.

(** What the scheduler may do to the state from one trigger to a later
    one: the journal and the clock only grow, threads stay, runs that
    exist keep their thread and budget, every new run carries an id
    [randomUUID] handed out in between, and a run the queue holds stays
    held. *)
Definition grows (s s' : State) : Prop :=
  (exists new, events (db s') = events (db s) ++ new)
  /\ (clock_reads (db s) <= clock_reads (db s'))%nat
  /\ (uuid_reads (db s) <= uuid_reads (db s'))%nat
  /\ dom (threads (db s')) = dom (threads (db s))
  /\ (forall r row, runs (db s) !! r = Some row ->
        exists row', runs (db s') !! r = Some row'
                     /\ r_threadId row' = r_threadId row
                     /\ r_maxIterations row' = r_maxIterations row)
  /\ (forall r, runs (db s) !! r = None -> is_Some (runs (db s') !! r) ->
        exists i, (uuid_reads (db s) <= i < uuid_reads (db s'))%nat
                  /\ r = uuid env i)
  /\ (forall r row, is_Some (runs (db s) !! r) ->
        waitingOrRunning r row s -> waitingOrRunning r row s').

Lemma grows_refl (s : State) : grows s s.
Proof.
  split; [exists []; by rewrite app_nil_r|].
  split; [done|]. split; [done|]. split; [done|].
  split; [intros r row H; by exists row|].
  split; [|done]. intros r Hnone [row Hsome]. congruence.
Qed.

Lemma grows_trans (s1 s2 s3 : State) :
  grows s1 s2 -> grows s2 s3 -> grows s1 s3.
Proof.
  intros ([new He] & Hc & Hu & Ht & Hr & Hn & Hw)
         ([new' He'] & Hc' & Hu' & Ht' & Hr' & Hn' & Hw').
  split; [exists (new ++ new'); by rewrite He', He, app_assoc|].
  split; [lia|]. split; [lia|]. split; [congruence|].
  split; [|split].
  - intros r row Hrow.
    destruct (Hr r row Hrow) as (row2 & Hrow2 & ? & ?).
    destruct (Hr' r row2 Hrow2) as (row3 & Hrow3 & ? & ?).
    exists row3. split; [done|]. split; congruence.
  - intros r Hnone Hsome.
    destruct (runs (db s2) !! r) as [row2|] eqn:Hrow2.
    + destruct (Hn r Hnone ltac:(by eexists)) as (i & Hi & ->).
      exists i. split; [lia|done].
    + destruct (Hn' r Hrow2 Hsome) as (i & Hi & ->).
      exists i. split; [lia|done].
  - intros r row [row1 Hrow1] Hheld. apply Hw'; [|by apply Hw; [eexists|]].
    destruct (Hr r row1 Hrow1) as (row2 & Hrow2 & _). by eexists.
Qed.

(** The row of a run that a trigger creates at time [t]. *)
Definition createdRow (row : AutomationRow) (t : Z) : RunRow :=
  mkRunRow (a_threadId row) Queued (a_maxIterations row) 0 None None None t
           None None.

(** What a trigger of automation [id] between [s] and [s'] leaves behind:
    a run that did not exist before, created for the automation's thread
    with its iteration budget and held by the queue; an
    [automation.triggered] event followed by a [run.queued] event, both
    for that run; and the automation's last-triggered time set to a clock
    reading taken in between. *)
Definition fired (source : TriggerSource) (s s' : State) (id : jsstring)
    (row : AutomationRow) : Prop :=
  exists r t stored e1 e2 before after row' k,
    events (db s') = events (db s) ++ before ++ e1 :: e2 :: after
    /\ ev_type e1 = automation_triggered
    /\ ev_runId e1 = Some r
    /\ ev_threadId e1 = a_threadId row
    /\ ev_payload e1
       = [ (js "automationId", JStr id);
           (js "source", JStr (sourceName source));
           (js "cron", JStr (a_cron row)) ]
    /\ ev_type e2 = run_queued
    /\ ev_runId e2 = Some r
    /\ ev_threadId e2 = a_threadId row
    /\ ev_payload e2
       = [ (js "source", JStr (js "automation"));
           (js "automationId", JStr id);
           (js "maxIterations", JNum (a_maxIterations row)) ]
    /\ runs (db s) !! r = None
    /\ runs (db s') !! r = Some stored
    /\ r_threadId stored = a_threadId row
    /\ r_maxIterations stored = a_maxIterations row
    /\ waitingOrRunning r (createdRow row t) s'
    /\ automations (db s') !! id = Some row'
    /\ a_lastRunAt row' = Some (clock env k)
    /\ (clock_reads (db s) <= k < clock_reads (db s'))%nat
    /\ a_cron row' = a_cron row
    /\ a_threadId row' = a_threadId row
    /\ a_maxIterations row' = a_maxIterations row
    /\ a_enabled row' = a_enabled row.

(** One trigger, for an automation whose thread exists and a fresh id. *)
Lemma triggerAutomationRun_effect (id : jsstring) (source : TriggerSource)
    (s : State) (row : AutomationRow) :
  automations (db s) !! id = Some row ->
  truthy (a_threadId row) = true ->
  a_threadId row ∈ dom (threads (db s)) ->
  runs (db s) !! uuid env (uuid_reads (db s)) = None ->
  exists run s',
    triggerAutomationRun env maxConcurrent id source s = (inr run, s')
    /\ grows s s'
    /\ uuid_reads (db s') = S (uuid_reads (db s))
    /\ (forall r, is_Some (runs (db s') !! r) ->
          r = uuid env (uuid_reads (db s)) \/ is_Some (runs (db s) !! r))
    /\ (forall other, other <> id ->
          automations (db s') !! other = automations (db s) !! other)
    /\ fired source s s' id row.
Proof.
  intros Hrow Hlinked Hthread Hfresh.
  apply elem_of_dom in Hthread as [thread Hthread].
  unfold triggerAutomationRun, getAutomation, getThread.
  rewrite Hrow. cbn [fmap option_fmap option_map automation_row automation_id].
  rewrite Hlinked, Hthread. cbn [negb fmap option_fmap option_map thread_id].
  set (input := mkCreateRunInput (a_threadId row) (a_maxIterations row)
                                 None None).
  set (newId := uuid env (uuid_reads (db s))) in *.
  set (newRow := createdRow row (clock env (clock_reads (db s)))).
  assert (Hcreate : (createRun env input (db s)).1 = mkRunRecord newId newRow)
    by reflexivity.
  assert (Hreads1 : uuid_reads (createRun env input (db s)).2
                    = S (uuid_reads (db s))) by reflexivity.
  assert (Hclock1 : clock_reads (createRun env input (db s)).2
                    = S (S (clock_reads (db s)))) by reflexivity.
  pose proof (createRun_spec env input (db s))
    as (_ & _ & _ & _ & _ & _ & Hruns & Hev & Hau & _ & Hth).
  cbv zeta in Hruns, Hev, Hau, Hth.
  destruct (createRun env input (db s)) as [run d1].
  cbn [fst snd] in *. subst run. cbn [run_id run_row] in *.
  set (d2 := markAutomationTriggered env id d1).
  set (d3 := emitEvent env (a_threadId row) (Some newId)
               automation_triggered _ d2).
  set (d4 := emitEvent env (a_threadId row) (Some newId) run_queued _ d3).
  set (s4 := with_db (fun _ => d4) s).
  assert (Hruns4 : runs (db s4) = <[newId := newRow]> (runs (db s)))
    by exact Hruns.
  assert (Hrow4 : runs (db s4) !! newId = Some newRow)
    by (by rewrite Hruns4, lookup_insert_eq).
  assert (Hclock4 : clock_reads (db s4) = S (S (S (S (S (clock_reads (db s)))))))
    by (cbn; by rewrite Hclock1).
  assert (Hreads4 : uuid_reads (db s4) = S (uuid_reads (db s)))
    by exact Hreads1.
  assert (Hau4 : automations (db s4)
                 = alter (fun a =>
                     mkAutomationRow (a_name a) (a_cron a) (a_threadId a)
                       (a_maxIterations a) (a_enabled a)
                       (Some (clock env (S (S (clock_reads (db s))))))
                       (a_createdAt a) (clock env (S (S (clock_reads (db s))))))
                     id (automations (db s))).
  { cbn. by rewrite Hclock1, Hau. }
  assert (Hev4 : exists e1 e2,
             events (db s4) = events (db s) ++ [e1; e2]
             /\ ev_type e1 = automation_triggered
             /\ ev_runId e1 = Some newId
             /\ ev_threadId e1 = a_threadId row
             /\ ev_payload e1
                = [ (js "automationId", JStr id);
                    (js "source", JStr (sourceName source));
                    (js "cron", JStr (a_cron row)) ]
             /\ ev_type e2 = run_queued
             /\ ev_runId e2 = Some newId
             /\ ev_threadId e2 = a_threadId row
             /\ ev_payload e2
                = [ (js "source", JStr (js "automation"));
                    (js "automationId", JStr id);
                    (js "maxIterations", JNum (a_maxIterations row)) ]).
  { eexists _, _. split.
    - change (events (db s4)) with (events d4).
      subst d4. rewrite emitEvent_events. subst d3. rewrite emitEvent_events.
      change (events d2) with (events d1). rewrite Hev, <- !app_assoc.
      reflexivity.
    - done. }
  set (s' := enqueue env maxConcurrent newId s4).
  pose proof (enqueue_frame env maxConcurrent newId s4)
    as (Hau' & _ & Hth' & _ & new & Hnew & _).
  pose proof (dbGrows_enqueue newId s4) as (Hc' & Hu' & Hd' & Hkept').
  pose proof (enqueue_waitingOrRunning env maxConcurrent newId newRow s4
                Hrow4 eq_refl) as Hheld.
  fold s' in Hau', Hth', Hnew, Hc', Hu', Hd', Hkept', Hheld.
  destruct Hev4 as (e1 & e2 & Hev4 & He1).
  exists (mkRunRecord newId newRow), s'. split; [done|].
  assert (Hgrows : grows s s').
  { split; [exists ([e1; e2] ++ new); by rewrite Hnew, Hev4, app_assoc|].
    split; [lia|]. split; [lia|].
    split.
    { rewrite Hth'. change (threads (db s4)) with (threads d1). exact Hth. }
    split; [|split].
    - intros r row0 Hr.
      assert (Hne : r <> newId) by (intros ->; congruence).
      apply (Hkept' r row0). by rewrite Hruns4, lookup_insert_ne.
    - intros r Hnone Hsome. exists (uuid_reads (db s)).
      split; [lia|].
      apply elem_of_dom in Hsome. rewrite Hd', Hruns4 in Hsome.
      apply elem_of_dom in Hsome as [x Hx].
      destruct (decide (r = newId)) as [->|Hne]; [done|].
      rewrite lookup_insert_ne in Hx by done. congruence.
    - intros r row0 [row1 Hrow1] Hw.
      assert (Hne : r <> newId) by (intros ->; congruence).
      unfold s', enqueue, tick. apply tickLoop_waitingOrRunning.
      destruct Hw as [(Hin & Hr & Hst)|Hrun]; [left|by right].
      cbn [pending with_pending db]. split.
      + unfold set_add, set_has. case_bool_decide; [done|].
        apply elem_of_app. by left.
      + split; [|done]. by rewrite Hruns4, lookup_insert_ne. }
  split; [exact Hgrows|]. split; [lia|]. split; [|split].
  - intros r Hsome. apply elem_of_dom in Hsome. rewrite Hd', Hruns4 in Hsome.
    apply elem_of_dom in Hsome as [x Hx].
    destruct (decide (r = newId)) as [->|Hne]; [by left|].
    rewrite lookup_insert_ne in Hx by done. right. by eexists.
  - intros other Hne. by rewrite Hau', Hau4, lookup_alter_ne.
  - destruct (Hkept' newId newRow Hrow4) as (stored & Hstored & Hst1 & Hst2).
    exists newId, (clock env (clock_reads (db s))), stored, e1, e2, [], new.
    eexists _, (S (S (clock_reads (db s)))).
    split; [by rewrite Hnew, Hev4, <- app_assoc|].
    destruct He1 as (? & ? & ? & ? & ? & ? & ? & ?).
    do 8 (split; [done|]).
    split; [done|]. split; [done|]. split; [done|]. split; [done|].
    split; [done|].
    split; [by rewrite Hau', Hau4, lookup_alter_eq, Hrow|].
    cbn [a_lastRunAt a_cron a_threadId a_maxIterations a_enabled].
    split; [done|]. split; [lia|]. done.
Qed.

(** A run that is new in [s'] and belongs to an [automation.triggered]
    event appended between [s] and [s']. *)
Definition bornOfTrigger (s s' : State) (r : jsstring) : Prop :=
  exists e id before after,
    events (db s') = events (db s) ++ before ++ e :: after
    /\ automationOf e = Some id
    /\ ev_runId e = Some r.

Lemma automationOf_triggered (e : EventRecord) (id : jsstring)
    (rest : Payload) :
  ev_type e = automation_triggered ->
  ev_payload e = (js "automationId", JStr id) :: rest ->
  automationOf e = Some id.
Proof.
  intros Hty Hpay. unfold automationOf. rewrite Hty, Hpay.
  by rewrite decide_True.
Qed.

Lemma fired_later (source : TriggerSource) (s s1 s2 : State) (id : jsstring)
    (row : AutomationRow) :
  fired source s s1 id row -> grows s1 s2 ->
  automations (db s2) !! id = automations (db s1) !! id ->
  fired source s s2 id row.
Proof.
  intros (r & t & stored & e1 & e2 & before & after & row' & k
          & Hev & He1 & He2 & He3 & He4 & He5 & He6 & He7 & He8
          & Hnew & Hstored & Hth & Hmax & Hheld & Hrow' & Hlast & Hk & Hrest)
         ([new Hev'] & Hc & _ & _ & Hkept & _ & Hw) Hsame.
  destruct (Hkept r stored Hstored) as (stored' & Hstored' & Hth' & Hmax').
  exists r, t, stored', e1, e2, before, (after ++ new), row', k.
  split; [rewrite Hev', Hev, <- !app_assoc; by rewrite <- app_comm_cons|].
  do 8 (split; [done|]).
  split; [done|]. split; [done|]. split; [congruence|]. split; [congruence|].
  split; [apply Hw; [by eexists|done]|].
  split; [by rewrite Hsame|]. split; [done|]. split; [lia|done].
Qed.

Lemma fired_earlier (source : TriggerSource) (s s1 s2 : State) (id : jsstring)
    (row : AutomationRow) :
  grows s s1 -> fired source s1 s2 id row -> fired source s s2 id row.
Proof.
  intros ([new Hev'] & Hc & _ & _ & Hkept & _ & _)
         (r & t & stored & e1 & e2 & before & after & row' & k
          & Hev & He1 & He2 & He3 & He4 & He5 & He6 & He7 & He8
          & Hnew & Hstored & Hth & Hmax & Hheld & Hrow' & Hlast & Hk & Hrest).
  exists r, t, stored, e1, e2, (new ++ before), after, row', k.
  split; [by rewrite Hev, Hev', <- !app_assoc|].
  do 8 (split; [done|]).
  split.
  { destruct (runs (db s) !! r) as [row0|] eqn:Hrow0; [|done].
    destruct (Hkept r row0 Hrow0) as (? & ? & _). congruence. }
  do 5 (split; [done|]). split; [done|]. split; [lia|done].
Qed.

Lemma bornOfTrigger_later (s s1 s2 : State) (r : jsstring) :
  bornOfTrigger s s1 r -> grows s1 s2 -> bornOfTrigger s s2 r.
Proof.
  intros (e & id & before & after & Hev & Hty & Hid) ([new Hev'] & _).
  exists e, id, before, (after ++ new). split; [|done].
  rewrite Hev', Hev, <- !app_assoc. by rewrite <- app_comm_cons.
Qed.

Lemma bornOfTrigger_earlier (s s1 s2 : State) (r : jsstring) :
  grows s s1 -> bornOfTrigger s1 s2 r -> bornOfTrigger s s2 r.
Proof.
  intros ([new Hev'] & _) (e & id & before & after & Hev & Hty & Hid).
  exists e, id, (new ++ before), after. split; [|done].
  by rewrite Hev, Hev', <- !app_assoc.
Qed.

(** The ids [randomUUID] hands out from now on, up to read [limit], are
    ids of no run and differ from one another. *)
Definition freshIds (d : Database) (limit : nat) : Prop :=
  (forall i, (uuid_reads d <= i < limit)%nat -> runs d !! uuid env i = None)
  /\ (forall i j, (uuid_reads d <= i < j)%nat -> (j < limit)%nat ->
        uuid env i <> uuid env j).

(** The loop of the tick: every due automation of its list fires, the
    others are left alone, and no run appears without a trigger. *)
Lemma tickAutomations_effect (now : DateFields) (bucket : Z)
    (todo : list AutomationRecord) (limit : nat) (s : State) :
  NoDup (List.map automation_id todo) ->
  (forall a, a ∈ todo ->
     automations (db s) !! automation_id a = Some (automation_row a)) ->
  (forall a, a ∈ todo -> due integerOf now bucket a = true ->
     a_threadId (automation_row a) ∈ dom (threads (db s))) ->
  (uuid_reads (db s) + length todo <= limit)%nat ->
  freshIds (db s) limit ->
  let out := tickAutomations integerOf env maxConcurrent now bucket todo s in
  out.1 = None
  /\ grows s out.2
  /\ (forall id,
        id ∉ List.map automation_id
               (List.filter (due integerOf now bucket) todo) ->
        automations (db out.2) !! id = automations (db s) !! id)
  /\ (forall a, a ∈ todo -> due integerOf now bucket a = true ->
        fired scheduled s out.2 (automation_id a) (automation_row a))
  /\ (forall r, runs (db s) !! r = None -> is_Some (runs (db out.2) !! r) ->
        bornOfTrigger s out.2 r).
Proof.
  revert s. induction todo as [|a todo IH]; intros s Hnd Hrows Hthreads Hlim
    [Hfresh Hinj]; cbv zeta.
  { cbn [tickAutomations fst snd]. split; [done|]. split; [apply grows_refl|].
    split; [done|]. split; [by intros a Ha; apply elem_of_nil in Ha|].
    intros r Hnone [row Hsome]. congruence. }
  apply NoDup_cons in Hnd as [Hnotin Hnd]. cbn [length] in Hlim.
  cbn [tickAutomations List.filter].
  destruct (due integerOf now bucket a) eqn:Hdue.
  - assert (Hlinked : truthy (a_threadId (automation_row a)) = true).
    { unfold due in Hdue.
      by destruct (truthy (a_threadId (automation_row a))). }
    destruct (triggerAutomationRun_effect (automation_id a) scheduled s
                (automation_row a))
      as (run & s1 & -> & Hgrows1 & Hreads1 & Hruns1 & Hother1 & Hfired1).
    { apply Hrows, list_elem_of_here. }
    { exact Hlinked. }
    { by apply Hthreads; [apply list_elem_of_here|]. }
    { apply Hfresh. lia. }
    destruct (IH s1) as (Hnone & Hgrows2 & Hkeep2 & Hfired2 & Hborn2).
    { exact Hnd. }
    { intros b Hb. rewrite Hother1; [by apply Hrows, list_elem_of_further|].
      intros Heq. apply Hnotin. rewrite <- Heq.
      apply list_elem_of_In, in_map, list_elem_of_In, Hb. }
    { intros b Hb Hbdue. destruct Hgrows1 as (_ & _ & _ & -> & _).
      by apply Hthreads; [apply list_elem_of_further|]. }
    { lia. }
    { split.
      - intros i Hi.
        destruct (runs (db s1) !! uuid env i) as [row1|] eqn:Hrow1; [|done].
        destruct (Hruns1 (uuid env i) ltac:(by eexists)) as [Heq|[x Hx]].
        + exfalso. apply (Hinj (uuid_reads (db s)) i); [lia..|done].
        + rewrite Hfresh in Hx by lia. done.
      - intros i j Hi Hj. apply Hinj; lia. }
    split; [exact Hnone|].
    split; [by apply (grows_trans s s1)|]. split; [|split].
    + intros id Hid. cbn [List.map] in Hid.
      apply not_elem_of_cons in Hid as [Hne Hid].
      rewrite Hkeep2 by done. by apply Hother1.
    + intros b Hb Hbdue. apply elem_of_cons in Hb as [->|Hb].
      * apply (fired_later _ s s1); [done..|].
        apply Hkeep2. intros Hin. apply Hnotin.
        apply list_elem_of_In, in_map_iff in Hin as (c & Hc & Hin).
        apply filter_In in Hin as [Hin _].
        apply list_elem_of_In, in_map_iff. by exists c.
      * apply (fired_earlier _ s s1); [done|]. by apply Hfired2.
    + intros r Hnone' Hsome.
      destruct (runs (db s1) !! r) as [row1|] eqn:Hrow1.
      * apply (bornOfTrigger_later s s1); [|done].
        destruct Hfired1
          as (r' & t & stored & e1 & e2 & before & after & row' & k
              & Hev & Hty & Hid & _ & Hpay & _ & _ & _ & _
              & Hnew & Hstored & _).
        destruct (Hruns1 r ltac:(by eexists)) as [->|[x Hx]]; [|congruence].
        destruct (Hruns1 r' ltac:(by eexists)) as [->|[x Hx]]; [|congruence].
        exists e1, (automation_id a), before, (e2 :: after).
        split; [done|]. split; [|done].
        by apply (automationOf_triggered _ _ _ Hty Hpay).
      * apply (bornOfTrigger_earlier s s1); [done|]. by apply Hborn2.
  - destruct (IH s) as (Hnone & Hgrows2 & Hkeep2 & Hfired2 & Hborn2).
    { exact Hnd. }
    { intros b Hb. by apply Hrows, list_elem_of_further. }
    { intros b Hb. by apply Hthreads, list_elem_of_further. }
    { lia. }
    { done. }
    split; [exact Hnone|]. split; [exact Hgrows2|]. split; [exact Hkeep2|].
    split; [|exact Hborn2].
    intros b Hb Hbdue. apply elem_of_cons in Hb as [->|Hb]; [congruence|].
    by apply Hfired2.
Qed.

End SchedulerRuns.

Section SchedulerClaim.

Import Db Queue Scheduler.

Context (integerOf : jsstring -> option Z) (localTime : Z -> DateFields).
Context (env : Env) (maxConcurrent : jsnumber).

Lemma listAutomations_elem (d : Database) (a : AutomationRecord) :
  a ∈ listAutomations d
  <-> automations d !! automation_id a = Some (automation_row a).
Proof.
  unfold listAutomations. rewrite list_elem_of_In, in_map_iff. split.
  - intros ([k v] & <- & Hin). by apply list_elem_of_In, elem_of_map_to_list in Hin.
  - intros H. exists (automation_id a, automation_row a).
    split; [by destruct a|]. by apply list_elem_of_In, elem_of_map_to_list.
Qed.

Lemma listAutomations_ids (d : Database) :
  NoDup (List.map automation_id (listAutomations d)).
Proof.
  unfold listAutomations. rewrite map_map. cbn [automation_id].
  apply (NoDup_fst_map_to_list (automations d)).
Qed.

Lemma NoDup_map_filter {A B} (f : A -> B) (P : A -> bool) (l : list A) :
  NoDup (List.map f l) -> NoDup (List.map f (List.filter P l)).
Proof.
  induction l as [|x l IH]; [done|]. cbn [List.map List.filter].
  intros [Hx Hl]%NoDup_cons. destruct (P x); [|by apply IH].
  cbn [List.map]. apply NoDup_cons. split; [|by apply IH].
  intros Hin. apply Hx.
  apply list_elem_of_In, in_map_iff in Hin as (y & Hy & Hin).
  apply filter_In in Hin as [Hin _].
  apply list_elem_of_In, in_map_iff. by exists y.
Qed.

(** Automation [id] triggered the run [r] between [st] and [st']: the run
    is new, and the journal got an [automation.triggered] event of that
    automation for it. *)
Definition triggeredRun (st st' : State) (id r : jsstring) : Prop :=
  runs (db st) !! r = None
  /\ is_Some (runs (db st') !! r)
  /\ exists e,
       e ∈ drop (length (events (db st))) (events (db st'))
       /\ automationOf e = Some id
       /\ ev_runId e = Some r.

Lemma fired_triggeredRun (source : TriggerSource) (st st' : State)
    (id : jsstring) (row : AutomationRow) :
  fired env source st st' id row -> exists r, triggeredRun st st' id r.
Proof.
  intros (r & t & stored & e1 & e2 & before & after & row' & k
          & Hev & Hty & Hid & _ & Hpay & _ & _ & _ & _
          & Hnew & Hstored & _).
  exists r. split; [done|]. split; [by eexists|].
  exists e1. split; [|split; [|done]].
  - rewrite Hev, drop_app_length. apply elem_of_app. right.
    apply list_elem_of_here.
  - by apply (automationOf_triggered _ _ _ Hty Hpay).
Qed.

Lemma triggeredRun_triggered (st st' : State) (id r : jsstring) :
  triggeredRun st st' id r -> id ∈ triggeredBetween st st'.
Proof.
  intros (_ & _ & e & Hin & Hauto & _). unfold triggeredBetween.
  apply list_elem_of_omap. by exists e.
Qed.

(** C7.  Provided the thread of every enabled, linked automation exists
    and [randomUUID] hands out ids that are new, a tick throws nothing and
    triggers every automation at most once.  An enabled automation linked
    to a thread triggers a new run if and only if its five-field cron
    expression matches the local time (each field a star or an integer
    equal to the clock's field) and the current minute bucket differs
    from the bucket of its last trigger; in particular an automation last
    triggered in the current minute bucket triggers none.  A trigger
    creates a run for the automation's thread with the automation's
    iteration budget, appends [automation.triggered] and then [run.queued]
    for it, sets the automation's last-triggered time to the clock and
    hands the run to the queue, where it waits with status queued or
    runs.  An automation that does not trigger keeps its row, and every
    run that is new after the tick was triggered by an automation. *)
Theorem scheduler_tick_triggers (st : State) :
  let now := tickDate localTime env st in
  let nowMs := clock env (S (clock_reads (db st))) in
  0 <= nowMs ->
  (forall id row,
     automations (db st) !! id = Some row -> a_enabled row = true ->
     truthy (a_threadId row) = true ->
     a_threadId row ∈ dom (threads (db st))) ->
  freshIds env (db st)
    (uuid_reads (db st) + length (listAutomations (db st))) ->
  let out := tick integerOf localTime env maxConcurrent st in
  out.1 = None
  /\ NoDup (triggeredBetween st out.2)
  /\ (forall id row,
        automations (db st) !! id = Some row -> a_enabled row = true ->
        truthy (a_threadId row) = true ->
        (id ∈ triggeredBetween st out.2
         <-> exists r, triggeredRun st out.2 id r)
        /\ (a_lastRunAt row <> Some 0 ->
              ((exists r, triggeredRun st out.2 id r)
               <-> cronMatches integerOf (a_cron row) now
                   /\ bucketDiffers nowMs (a_lastRunAt row)))
        /\ (forall t, a_lastRunAt row = Some t -> t <> 0 ->
              minuteBucket t = minuteBucket nowMs ->
              ~ exists r, triggeredRun st out.2 id r)
        /\ ((exists r, triggeredRun st out.2 id r) ->
              fired env scheduled st out.2 id row)
        /\ ((~ exists r, triggeredRun st out.2 id r) ->
              automations (db out.2) !! id = Some row))
  /\ (forall r,
        runs (db st) !! r = None -> is_Some (runs (db out.2) !! r) ->
        exists id, triggeredRun st out.2 id r).
Proof.
  intros now nowMs Hnow Hthreads Hfresh out.
  set (todo := List.filter (fun a => a_enabled (automation_row a))
                           (listAutomations (db st))).
  set (s0 := with_db (fun _ => (Date_now env (Date_now env (db st)).2).2) st).
  assert (Hout : out = tickAutomations integerOf env maxConcurrent now
                         (nowMs / 60000) todo s0) by reflexivity.
  assert (Hpre : forall a, a ∈ todo ->
            automations (db st) !! automation_id a = Some (automation_row a)
            /\ a_enabled (automation_row a) = true).
  { intros a Ha. subst todo.
    apply list_elem_of_In, filter_In in Ha as [Ha Hen].
    by apply list_elem_of_In, listAutomations_elem in Ha. }
  destruct (tickAutomations_spec integerOf env maxConcurrent now
              (nowMs / 60000) todo s0) as (new & Hnone & Hev & Hnew).
  { intros a Ha Hdue. destruct (Hpre a Ha) as [Hrow Hen].
    exists (automation_row a). split; [exact Hrow|]. split; [done|].
    apply (Hthreads (automation_id a)); [done..|].
    unfold due in Hdue. by destruct (truthy (a_threadId (automation_row a))). }
  destruct (tickAutomations_effect integerOf env maxConcurrent now
              (nowMs / 60000) todo
              (uuid_reads (db st) + length (listAutomations (db st))) s0)
    as (_ & Hgrows & Hkeep & Hfired & Hborn).
  { subst todo. apply NoDup_map_filter, listAutomations_ids. }
  { intros a Ha. by destruct (Hpre a Ha). }
  { intros a Ha Hdue. destruct (Hpre a Ha) as [Hrow Hen].
    apply (Hthreads (automation_id a)); [done..|].
    unfold due in Hdue. by destruct (truthy (a_threadId (automation_row a))). }
  { change (uuid_reads (db s0)) with (uuid_reads (db st)). subst todo.
    pose proof (filter_length_le (fun a => a_enabled (automation_row a))
                  (listAutomations (db st))). lia. }
  { exact Hfresh. }
  rewrite <- Hout in Hnone, Hev, Hgrows, Hkeep, Hfired, Hborn.
  assert (Hstart : grows env st s0).
  { split; [exists []; by rewrite app_nil_r|].
    split; [cbn; lia|]. split; [done|]. split; [done|].
    split; [intros r row H; by exists row|].
    split; [|done]. intros r Hn [row Hs]. cbn in Hs. congruence. }
  assert (Htrig : triggeredBetween st out.2
                  = List.map automation_id
                      (List.filter (due integerOf now (nowMs / 60000)) todo)).
  { unfold triggeredBetween. rewrite Hev.
    change (events (db s0)) with (events (db st)).
    by rewrite drop_app_length. }
  assert (Hmem : forall id row,
             automations (db st) !! id = Some row -> a_enabled row = true ->
             (id ∈ triggeredBetween st out.2
              <-> due integerOf now (nowMs / 60000)
                    (mkAutomationRecord id row) = true)).
  { intros id row Hrow Hen. rewrite Htrig, list_elem_of_In, in_map_iff. split.
    - intros (a & <- & Ha). apply filter_In in Ha as [Ha Hdue].
      subst todo. apply filter_In in Ha as [Ha _].
      apply list_elem_of_In, listAutomations_elem in Ha.
      rewrite Hrow in Ha. injection Ha as ->. by destruct a.
    - intros Hdue. exists (mkAutomationRecord id row). split; [done|].
      apply filter_In. split; [|done]. subst todo.
      apply filter_In. split; [|done].
      by apply list_elem_of_In, listAutomations_elem. }
  assert (Hfire : forall id row,
             automations (db st) !! id = Some row -> a_enabled row = true ->
             id ∈ triggeredBetween st out.2 ->
             fired env scheduled st out.2 id row).
  { intros id row Hrow Hen Hin. apply (fired_earlier env _ st s0); [done|].
    apply (Hfired (mkAutomationRecord id row)); [|by apply Hmem].
    subst todo. apply list_elem_of_In, filter_In. split; [|done].
    by apply list_elem_of_In, listAutomations_elem. }
  assert (Hrun : forall id row,
             automations (db st) !! id = Some row -> a_enabled row = true ->
             (id ∈ triggeredBetween st out.2
              <-> exists r, triggeredRun st out.2 id r)).
  { intros id row Hrow Hen. split.
    - intros Hin. by apply (fired_triggeredRun scheduled _ _ _ row), Hfire.
    - intros [r Hr]. by apply (triggeredRun_triggered _ _ _ r). }
  split; [exact Hnone|]. split.
  { rewrite Htrig. subst todo.
    do 2 apply NoDup_map_filter. apply listAutomations_ids. }
  split.
  - intros id row Hrow Hen Hlinked.
    split; [by apply (Hrun id row)|]. split; [|split; [|split]].
    + intros Hlast. rewrite <- (Hrun id row Hrow Hen), (Hmem id row Hrow Hen).
      rewrite (due_spec integerOf now nowMs (mkAutomationRecord id row)
                 Hnow Hlast).
      cbn [automation_row]. tauto.
    + intros t Ht Ht0 Hsame.
      rewrite <- (Hrun id row Hrow Hen), (Hmem id row Hrow Hen).
      assert (Hlast : a_lastRunAt row <> Some 0) by congruence.
      rewrite (due_spec integerOf now nowMs (mkAutomationRecord id row)
                 Hnow Hlast).
      cbn [automation_row]. rewrite Ht. unfold bucketDiffers.
      intros (_ & _ & Hne). by apply Hne.
    + intros Hr. apply Hfire; [done..|]. by apply (Hrun id row).
    + intros Hno. rewrite Hkeep; [exact Hrow|].
      rewrite <- Htrig. intros Hin. apply Hno. by apply (Hrun id row).
  - intros r Hnone' Hsome.
    destruct (Hborn r Hnone' Hsome)
      as (e & id & before & after & Hev' & Hauto & Hid).
    exists id. split; [done|]. split; [done|]. exists e.
    split; [|done].
    change (events (db s0)) with (events (db st)) in Hev'.
    rewrite Hev', drop_app_length. apply elem_of_app. right.
    apply list_elem_of_here.
Qed.

End SchedulerClaim.

Section SchedulerExample.

Import Db Queue Scheduler.

(** Monday 2 November 2026, 09:30:20, with a clock that advances one
    millisecond per reading. *)
Definition mondayEnv : Env :=
  {| clock := fun n => 1793611820000 + Z.of_nat n;
     uuid := fun n => js "run-" ++ of_number (Z.of_nat n) |}.

Definition mondayFields (t : Z) : DateFields :=
  {| getMinutes := 30; getHours := 9; getDate := 2; getMonth := 10;
     getDay := 1 |}.

(** Three enabled automations on one thread: one never triggered, one
    triggered nineteen seconds ago, one for noon. *)
Definition cronDb : Database :=
  {| threads := {[ js "t1" := exampleThread ]};
     runs := ∅;
     events := [];
     automations :=
       <[ js "a1" := mkAutomationRow (js "fresh") (js "30 9 * * *") (js "t1")
                       5 true None 100 100 ]>
         (<[ js "a2" := mkAutomationRow (js "again") (js "30   9 * * 1 ")
                          (js "t1") 5 true (Some 1793611801000) 100 100 ]>
            {[ js "a3" := mkAutomationRow (js "noon") (js "0 12 * * *")
                            (js "t1") 5 true None 100 100 ]});
     review_comments := ∅;
     clock_reads := 0;
     uuid_reads := 0 |}.

Definition cronState : State := initial cronDb.

Lemma cronDb_threads_exist :
  forall id row,
    automations (db cronState) !! id = Some row ->
    a_enabled row = true -> truthy (a_threadId row) = true ->
    a_threadId row ∈ dom (threads (db cronState)).
Proof.
  intros id row Hrow _ _.
  assert (Hdom : dom (threads (db cronState)) = {[ js "t1" ]})
    by apply dom_singleton_L.
  rewrite Hdom. apply elem_of_singleton.
  change (automations (db cronState)) with (automations cronDb) in Hrow.
  unfold cronDb in Hrow. cbn [automations] in Hrow.
  apply lookup_insert_Some in Hrow as [[_ <-]|[_ Hrow]]; [done|].
  apply lookup_insert_Some in Hrow as [[_ <-]|[_ Hrow]]; [done|].
  apply lookup_singleton_Some in Hrow as [_ <-]. done.
Qed.

Example cronState_tick :
  triggeredBetween cronState
    (tick decimalInteger mondayFields mondayEnv (of_int 2) cronState).2
  = [js "a1"].
Proof. vm_compute. reflexivity. Qed.

Lemma scheduler_tick_triggers_witness :
  let out := tick decimalInteger mondayFields mondayEnv (of_int 2) cronState in
  let fresh := mkAutomationRow (js "fresh") (js "30 9 * * *") (js "t1")
                               5 true None 100 100 in
  let again := mkAutomationRow (js "again") (js "30   9 * * 1 ") (js "t1")
                               5 true (Some 1793611801000) 100 100 in
  0 <= clock mondayEnv 1
  /\ automations (db cronState) !! js "a1" = Some fresh
  /\ automations (db cronState) !! js "a2" = Some again
  /\ out.1 = None
  /\ (exists r, triggeredRun cronState out.2 (js "a1") r)
  /\ fired mondayEnv scheduled cronState out.2 (js "a1") fresh
  /\ (~ exists r, triggeredRun cronState out.2 (js "a2") r)
  /\ automations (db out.2) !! js "a2" = Some again
  /\ List.map fst (map_to_list (runs (db out.2))) = [js "run-0"].
Proof.
  intros out fresh again.
  assert (Hnow : 0 <= clock mondayEnv 1) by (by vm_compute).
  assert (H1 : automations (db cronState) !! js "a1" = Some fresh)
    by (vm_compute; reflexivity).
  assert (H2 : automations (db cronState) !! js "a2" = Some again)
    by (vm_compute; reflexivity).
  assert (Hcron : cronMatches decimalInteger (js "30 9 * * *") (mondayFields 0)).
  { exists (js "30"), (js "9"), (js "*"), (js "*"), (js "*").
    split; [vm_compute; reflexivity|].
    repeat split; first [left; reflexivity | right; vm_compute; reflexivity]. }
  assert (Hsame : minuteBucket 1793611801000
                  = minuteBucket (clock mondayEnv 1))
    by (vm_compute; reflexivity).
  assert (Hlen : length (listAutomations (db cronState)) = 3%nat)
    by (vm_compute; reflexivity).
  assert (Hfresh : freshIds mondayEnv (db cronState)
                     (uuid_reads (db cronState)
                      + length (listAutomations (db cronState)))).
  { rewrite Hlen. change (uuid_reads (db cronState)) with 0%nat. split.
    - intros i _. apply lookup_empty.
    - intros i j Hi Hj Heq.
      assert (Hcases : ((i = 0 /\ j = 1) \/ (i = 0 /\ j = 2)
                        \/ (i = 1 /\ j = 2))%nat) by lia.
      destruct Hcases as [[-> ->]|[[-> ->]|[-> ->]]];
        vm_compute in Heq; discriminate Heq. }
  assert (Hruns : List.map fst (map_to_list (runs (db out.2))) = [js "run-0"])
    by (vm_compute; reflexivity).
  pose proof (scheduler_tick_triggers decimalInteger mondayFields mondayEnv
                (of_int 2) cronState) as H.
  cbv zeta in H. specialize (H Hnow cronDb_threads_exist Hfresh).
  destruct H as (Hnone & _ & Hiff & _).
  pose proof (Hiff _ _ H1 eq_refl eq_refl) as (_ & Hfire & _ & Hfired & _).
  pose proof (Hiff _ _ H2 eq_refl eq_refl) as (_ & _ & Hskip & _ & Hkeep).
  assert (Hrun1 : exists r, triggeredRun cronState out.2 (js "a1") r).
  { apply Hfire; [discriminate|]. split; [exact Hcron|exact I]. }
  assert (Hno2 : ~ exists r, triggeredRun cronState out.2 (js "a2") r).
  { apply (Hskip 1793611801000 eq_refl); [discriminate|exact Hsame]. }
  split; [exact Hnow|]. split; [exact H1|]. split; [exact H2|].
  split; [exact Hnone|]. split; [exact Hrun1|]. split; [exact (Hfired Hrun1)|].
  split; [exact Hno2|]. split; [exact (Hkeep Hno2)|exact Hruns].
Defined.

End SchedulerExample.

(** ** What the feedback rerun refuses *)

Section FeedbackRejections.

Import Db Queue Feedback.

Context (env : Env) (maxConcurrent : jsnumber).



End FeedbackRejections.

(** ** The git helpers *)

Section GitFacts.

Import Git.

Context (w : World) (cwd : jsstring).

(** The three invocations of [commitAll]. *)
Definition addCall : Call := mkCall cwd [js "add"; js "-A"].
Definition statusCall : Call := mkCall cwd [js "status"; js "--porcelain"].
Definition commitCall (message : jsstring) : Call :=
  mkCall cwd [js "commit"; js "-m"; message].

(** What [isClean] makes of the answer to [git status --porcelain]. *)
Definition reportsClean (result : SpawnResult) : Prop :=
  exitCode result = 0 /\ trim (stdout result) = [].

Lemma isClean_spec (calls : list Call) :
  (isClean w cwd calls).2 = calls ++ [statusCall]
  /\ ((isClean w cwd calls).1 = true <-> reportsClean (w calls statusCall)).
Proof.
  unfold isClean, reportsClean, git, mbind, mret, M_bind, M_ret.
  cbn [fst snd]. fold statusCall. split; [done|].
  rewrite andb_true_iff, Z.eqb_eq, negb_true_iff.
  destruct (trim (stdout (w calls statusCall))); cbn [truthy];
    split; by intros [? ?].
Qed.

Lemma commitAll_calls_extend (message : jsstring) (calls : list Call) :
  exists more, (commitAll w cwd message calls).2 = calls ++ more.
Proof.
  pose proof (isClean_spec (calls ++ [addCall])) as [Hcalls _].
  unfold commitAll, git, mbind, mret, M_bind, M_ret. fold addCall.
  destruct (negb _); [by eexists|].
  destruct (isClean w cwd (calls ++ [addCall])) as [clean calls'].
  cbn [snd] in Hcalls. subst calls'. rewrite <- app_assoc.
  destruct clean; cbn [snd]; [by eexists|].
  rewrite <- app_assoc. by eexists.
Qed.

(** X24.  [commitAll] first stages everything.  If staging fails it
    returns false and runs nothing else.  Otherwise it asks for the
    status: a clean tree is a success without any commit, and only a tree
    with changes is committed, with the message passed whole as one
    argument, the exit code of the commit deciding the result.  So a
    commit is attempted only after a successful staging of a tree that
    has changes, and a true result always means staging succeeded. *)
Theorem commitAll_spec (message : jsstring) (calls : list Call) :
  let out := commitAll w cwd message calls in
  let staged := exitCode (w calls addCall) = 0 in
  let clean := reportsClean (w (calls ++ [addCall]) statusCall) in
  let committed :=
    exitCode (w (calls ++ [addCall; statusCall]) (commitCall message)) = 0 in
  (~ staged -> out = (false, calls ++ [addCall]))
  /\ (staged -> clean -> out = (true, calls ++ [addCall; statusCall]))
  /\ (staged -> ~ clean ->
        out.2 = calls ++ [addCall; statusCall; commitCall message]
        /\ (out.1 = true <-> committed))
  /\ (commitCall message ∈ drop (length calls) out.2 -> staged /\ ~ clean)
  /\ (out.1 = true -> staged).
Proof.
  cbv zeta.
  pose proof (isClean_spec (calls ++ [addCall])) as [Hcalls Hclean].
  unfold commitAll, git, mbind, mret, M_bind, M_ret. fold addCall.
  destruct (Z.eqb_spec (exitCode (w calls addCall)) 0) as [Hadd|Hadd];
    cbn [negb].
  2: { split; [done|]. split; [done|]. split; [done|]. split; [|done].
       cbn [snd]. rewrite drop_app_length.
       intros [[=]|[]%elem_of_nil]%elem_of_cons. }
  destruct (isClean w cwd (calls ++ [addCall])) as [clean calls'].
  cbn [fst snd] in Hcalls, Hclean. subst calls'.
  rewrite <- !app_assoc. cbn [app].
  destruct clean.
  - assert (Hc : reportsClean (w (calls ++ [addCall]) statusCall))
      by (by apply Hclean).
    split; [done|]. split; [done|]. split; [done|]. split; [|done].
    cbn [snd]. rewrite drop_app_length.
    intros [[=]|[[=]|[]%elem_of_nil]%elem_of_cons]%elem_of_cons.
  - assert (Hc : ~ reportsClean (w (calls ++ [addCall]) statusCall)).
    { intros H. by apply Hclean in H. }
    fold (commitCall message).
    split; [done|]. split; [done|]. split; [|done].
    intros _ _. cbn [fst snd]. rewrite <- !app_assoc. cbn [app].
    split; [done|]. by rewrite Z.eqb_eq.
Qed.

Definition checkoutNew (branchName : jsstring) : Call :=
  mkCall cwd [js "checkout"; js "-b"; branchName].

Definition snapshotMessage : jsstring := js "ralph: snapshot before loop start".

(** [createBranch] with its sequencing written out. *)
Lemma createBranch_unfold (branchName : jsstring) (calls : list Call) :
  createBranch w cwd branchName calls
  = let '(clean, calls1) := isClean w cwd calls in
    let calls2 :=
      if clean then calls1
      else (commitAll w cwd snapshotMessage calls1).2 in
    (exitCode (w calls2 (checkoutNew branchName)) =? 0,
     calls2 ++ [checkoutNew branchName]).
Proof.
  unfold createBranch, mbind, mret, M_bind, M_ret, git.
  fold snapshotMessage (checkoutNew branchName).
  destruct (isClean w cwd calls) as [clean calls1].
  destruct clean; cbn [negb]; [done|].
  by destruct (commitAll w cwd snapshotMessage calls1).
Qed.

(** X25.  [createBranch] asks for the status first.  A clean tree is
    branched from at once; a tree with changes is first snapshotted by
    [commitAll] with the message "ralph: snapshot before loop start",
    whose result is not looked at.  In both cases the last invocation is
    [git checkout -b] with the branch name, and its exit code alone
    decides the result.  [revertToLastCommit] always runs both
    [git checkout -- .] and [git clean -fd], the second also when the
    first failed, and returns true exactly when both exited with 0. *)
Theorem createBranch_revert_spec (branchName : jsstring) (calls : list Call) :
  let out := createBranch w cwd branchName calls in
  let before :=
    if bool_decide (reportsClean (w calls statusCall))
    then calls ++ [statusCall]
    else (commitAll w cwd snapshotMessage (calls ++ [statusCall])).2 in
  let reverted := revertToLastCommit w cwd calls in
  let restore := mkCall cwd [js "checkout"; js "--"; js "."] in
  let clean := mkCall cwd [js "clean"; js "-fd"] in
  out.2 = before ++ [checkoutNew branchName]
  /\ (out.1 = true <-> exitCode (w before (checkoutNew branchName)) = 0)
  /\ (exists rest, before = calls ++ statusCall :: rest)
  /\ reverted.2 = calls ++ [restore; clean]
  /\ (reverted.1 = true
      <-> exitCode (w calls restore) = 0
          /\ exitCode (w (calls ++ [restore]) clean) = 0).
Proof.
  cbv zeta.
  pose proof (isClean_spec calls) as [Hcalls Hclean].
  pose proof (commitAll_calls_extend snapshotMessage (calls ++ [statusCall]))
    as [more Hmore].
  rewrite createBranch_unfold.
  destruct (isClean w cwd calls) as [cleanNow calls'].
  cbn [fst snd] in Hcalls, Hclean. subst calls'.
  assert (Hbefore :
    (if cleanNow then calls ++ [statusCall]
     else (commitAll w cwd snapshotMessage (calls ++ [statusCall])).2)
    = if bool_decide (reportsClean (w calls statusCall))
      then calls ++ [statusCall]
      else (commitAll w cwd snapshotMessage (calls ++ [statusCall])).2).
  { destruct cleanNow.
    - by rewrite bool_decide_eq_true_2 by (by apply Hclean).
    - by rewrite bool_decide_eq_false_2 by (intros H; by apply Hclean in H). }
  rewrite Hbefore. cbn [fst snd].
  split; [done|]. split; [by rewrite Z.eqb_eq|]. split.
  - case_bool_decide; [by exists []|].
    exists more. by rewrite Hmore, <- app_assoc.
  - unfold revertToLastCommit, mbind, mret, M_bind, M_ret, git.
    cbn [fst snd]. rewrite <- app_assoc.
    split; [done|]. by rewrite andb_true_iff, !Z.eqb_eq.
Qed.

End GitFacts.

(** ** The completion promise *)

Section PromiseFacts.

Import Promise.

Lemma includes_spec (s p : jsstring) :
  includes s p = true <-> exists pre post, s = pre ++ p ++ post.
Proof.
  unfold includes. split.
  - destruct (find_after p s) as [r|] eqn:Hfind; [|done]. intros _.
    destruct (find_after_Some _ _ _ Hfind) as [a ->]. by exists a, r.
  - intros (pre & post & ->).
    destruct (find_after_leftmost p pre post) as [m ->]. done.
Qed.

(** X26.  [detectPromise] holds exactly when the promise occurs in the
    output as one contiguous piece.  So text before or after an
    occurrence never hides it, an output shorter than the promise never
    matches, and the empty promise is found in every output. *)
Theorem detectPromise_spec (output promise : jsstring) :
  (detectPromise output promise = true
   <-> exists pre post, output = pre ++ promise ++ post)
  /\ (forall pre post,
        detectPromise output promise = true ->
        detectPromise (pre ++ output ++ post) promise = true)
  /\ (detectPromise output promise = true ->
        (length promise <= length output)%nat)
  /\ detectPromise output [] = true.
Proof.
  unfold detectPromise. split; [apply includes_spec|]. split; [|split].
  - intros pre post [a [b ->]]%includes_spec. apply includes_spec.
    exists (pre ++ a), (b ++ post). by rewrite <- !app_assoc.
  - intros [a [b ->]]%includes_spec. rewrite !length_app. lia.
  - apply includes_spec. by exists [], output.
Qed.

Lemma hexDigit_inj (x y : N) :
  (x < 16)%N -> (y < 16)%N -> hexDigit x = hexDigit y -> x = y.
Proof.
  unfold hexDigit. intros Hx Hy.
  destruct (N.ltb_spec x 10), (N.ltb_spec y 10); lia.
Qed.

Lemma hexDigit_range (x : N) :
  (x < 16)%N ->
  ((48 <= hexDigit x <= 57)%N \/ (97 <= hexDigit x <= 102)%N).
Proof. unfold hexDigit. intros Hx. destruct (N.ltb_spec x 10); lia. Qed.

Lemma toHex_inj (a b : list N) :
  Forall (fun x => (x < 256)%N) a -> Forall (fun x => (x < 256)%N) b ->
  toHex a = toHex b -> a = b.
Proof.
  intros Ha. revert b. induction Ha as [|x a Hx Ha IH]; intros b Hb.
  - destruct b; [done|]. discriminate.
  - destruct Hb as [|y b Hy Hb]; [discriminate|].
    cbn [toHex flat_map app]. intros [= Hhi Hlo Hrest].
    assert (x / 16 < 16)%N by (apply N.Div0.div_lt_upper_bound; lia).
    assert (y / 16 < 16)%N by (apply N.Div0.div_lt_upper_bound; lia).
    assert (x mod 16 < 16)%N by (apply N.mod_lt; lia).
    assert (y mod 16 < 16)%N by (apply N.mod_lt; lia).
    apply hexDigit_inj in Hhi, Hlo; [|done..].
    f_equal; [|by apply IH].
    rewrite (N.div_mod x 16), (N.div_mod y 16) by lia. congruence.
Qed.

Lemma toHex_length (a : list N) : length (toHex a) = (2 * length a)%nat.
Proof. induction a as [|x a IH]; [done|]. cbn [toHex flat_map app length].
  fold (toHex a). rewrite IH. lia.
Qed.

Lemma toHex_digits (a : list N) :
  Forall (fun x => (x < 256)%N) a ->
  Forall (fun c => (48 <= c <= 57)%N \/ (97 <= c <= 102)%N) (toHex a).
Proof.
  induction 1 as [|x a Hx Ha IH]; [constructor|].
  cbn [toHex flat_map app]. fold (toHex a).
  constructor; [apply hexDigit_range, N.Div0.div_lt_upper_bound; lia|].
  constructor; [apply hexDigit_range, N.mod_lt; lia|done].
Qed.

(** X27.  A generated promise is the text RALPH_COMPLETE_ followed by
    eight lower-case hexadecimal digits, 23 characters in all, and it
    determines the four random bytes it was made from: the promise of one
    run is detected in the promise of another exactly when both runs drew
    the same bytes. *)
Theorem generatePromise_distinct (randomBytes randomBytes' : nat -> list N) :
  length (randomBytes 4%nat) = 4%nat ->
  length (randomBytes' 4%nat) = 4%nat ->
  Forall (fun b => (b < 256)%N) (randomBytes 4%nat) ->
  Forall (fun b => (b < 256)%N) (randomBytes' 4%nat) ->
  length (generatePromise randomBytes) = 23%nat
  /\ (exists hex,
        generatePromise randomBytes = js "RALPH_COMPLETE_" ++ hex
        /\ length hex = 8%nat
        /\ Forall (fun c => (48 <= c <= 57)%N \/ (97 <= c <= 102)%N) hex)
  /\ (detectPromise (generatePromise randomBytes)
                    (generatePromise randomBytes') = true
      <-> randomBytes 4%nat = randomBytes' 4%nat).
Proof.
  intros Hlen Hlen' Hbytes Hbytes'.
  assert (Hl : forall rb, length (rb 4%nat) = 4%nat ->
                 length (generatePromise rb) = 23%nat).
  { intros rb H. unfold generatePromise.
    rewrite length_app, toHex_length, H. reflexivity. }
  split; [by apply Hl|]. split.
  - exists (toHex (randomBytes 4%nat)). split; [done|].
    split; [by rewrite toHex_length, Hlen|by apply toHex_digits].
  - unfold detectPromise. rewrite includes_spec. split.
    + intros (pre & post & Heq).
      pose proof (f_equal length Heq) as Hsize.
      rewrite !length_app, !Hl in Hsize by done.
      destruct pre; [|cbn [length] in Hsize; lia].
      destruct post; [|cbn [length] in Hsize; lia].
      cbn [app] in Heq. rewrite app_nil_r in Heq.
      unfold generatePromise in Heq. apply app_inv_head in Heq.
      by apply toHex_inj.
    + intros Heq. exists [], []. unfold generatePromise.
      by rewrite Heq, app_nil_r.
Qed.

End PromiseFacts.

Section PromiseExamples.

Import Promise.

Lemma generatePromise_distinct_witness :
  let rb := fun _ : nat => [171; 205; 18; 52]%N in
  let rb' := fun _ : nat => [171; 205; 18; 53]%N in
  generatePromise rb = js "RALPH_COMPLETE_abcd1234"
  /\ (length (rb 4%nat) = 4%nat /\ length (rb' 4%nat) = 4%nat)
  /\ detectPromise (generatePromise rb) (generatePromise rb') <> true.
Proof.
  intros rb rb'.
  assert (Hb : Forall (fun b => (b < 256)%N) (rb 4%nat))
    by (repeat constructor).
  assert (Hb' : Forall (fun b => (b < 256)%N) (rb' 4%nat))
    by (repeat constructor).
  pose proof (generatePromise_distinct rb rb' eq_refl eq_refl Hb Hb')
    as (_ & _ & Hiff).
  split; [vm_compute; reflexivity|]. split; [split; reflexivity|].
  intros Hdetected. apply Hiff in Hdetected. discriminate Hdetected.
Defined.

End PromiseExamples.

(** ** Running the tasks of a PRD one after the other *)

Section CliFacts.

Import Prompt Runner Prd Cli.

Context (progressFile : jsstring) (failureContextMaxChars : Z)
        (gitCheckpoint : bool) (delay : Z) (dryRun : bool) (prd : Prd)
        (worldOf : nat -> World).

Local Abbreviation taskOptions :=
  (taskOptions progressFile failureContextMaxChars gitCheckpoint delay dryRun
               prd).
Local Abbreviation runActive :=
  (runActive progressFile failureContextMaxChars gitCheckpoint delay dryRun
             prd worldOf).

(** The entry [completedTasks] gets for a task. *)
Definition completedEntry (t : Prd.ResolvedTask) : CompletedTask :=
  mkCompletedTask (rt_id t) (rt_name t).

Definition succeeded (r : TaskRun) : bool := success (result (tr_run r)).

Lemma runActive_spec (k : nat) (completed : list CompletedTask)
    (todo : list Prd.ResolvedTask) :
  let out := runActive k completed todo in
  let ok := out.1.1 in
  let runs := out.2 in
  (exists rest, todo = List.map tr_task runs ++ rest)
  /\ (forall j r, runs !! j = Some r ->
        tr_options r
        = taskOptions (tr_task r)
            (completed ++ List.map completedEntry (take j todo))
        /\ tr_run r = runTaskLoop (tr_options r) (worldOf (k + j))
        /\ (S j < length runs -> succeeded r = true)%nat)
  /\ (ok = true
      <-> List.map tr_task runs = todo
          /\ Forall (fun r => succeeded r = true) runs)
  /\ (ok = false -> exists r, last runs = Some r /\ succeeded r = false)
  /\ out.1.2
     = completed
         ++ List.map (fun r => completedEntry (tr_task r))
                     (List.filter succeeded runs).
Proof.
  revert k completed. induction todo as [|task rest IH]; intros k completed.
  { cbn. split; [by exists []|]. split; [done|]. split; [done|].
    split; [done|]. by rewrite app_nil_r. }
  cbn [Cli.runActive].
  set (options := taskOptions task completed).
  set (run := runTaskLoop options (worldOf k)).
  destruct (success (result run)) eqn:Hok.
  - specialize (IH (S k) (completed ++ [completedEntry task])).
    fold (completedEntry task).
    destruct (runActive (S k) (completed ++ [completedEntry task]) rest)
      as [[ok completed'] runs].
    cbv zeta in IH. cbn [fst snd] in IH |- *.
    destruct IH as ((more & Hpre) & Hruns & Hall & Hfail & Hcompleted).
    split; [|split; [|split; [|split]]].
    + exists more. cbn [List.map tr_task app]. by rewrite <- Hpre.
    + intros [|j] r Hr.
      * injection Hr as <-. cbn [tr_options tr_task tr_run take List.map].
        rewrite app_nil_r, Nat.add_0_r. by split.
      * destruct (Hruns j r Hr) as (Hopt & Hrun & Hsucc).
        cbn [take List.map]. split; [|split].
        -- rewrite Hopt, <- app_assoc. done.
        -- rewrite Hrun. f_equal. f_equal. lia.
        -- cbn [length]. intros ?. apply Hsucc. lia.
    + rewrite Hall. cbn [List.map tr_task]. split.
      * intros [-> Hf]. split; [done|]. by constructor.
      * intros [[= Hm] Hf]. split; [done|].
        by apply Forall_cons in Hf as [_ ?].
    + intros Hno. destruct (Hfail Hno) as (r & Hlast & Hr).
      exists r. split; [|done]. destruct runs; [done|]. exact Hlast.
    + rewrite Hcompleted. cbn [List.filter]. unfold succeeded.
      cbn [tr_run]. fold run. rewrite Hok. cbn [List.map tr_task].
      by rewrite <- app_assoc.
  - cbn [fst snd]. split; [|split; [|split; [|split]]].
    + by exists rest.
    + intros [|j] r Hr; [|done]. injection Hr as <-.
      cbn [tr_options tr_task tr_run take List.map length].
      rewrite app_nil_r, Nat.add_0_r. split; [done|]. split; [done|]. lia.
    + split; [done|]. intros [_ Hf]. apply Forall_cons in Hf as [Hf _].
      unfold succeeded in Hf. cbn [tr_run] in Hf. fold run in Hf. congruence.
    + intros _. eexists. split; [reflexivity|]. exact Hok.
    + cbn [List.filter]. unfold succeeded. cbn [tr_run]. fold run.
      rewrite Hok. cbn. by rewrite app_nil_r.
Qed.

(** X28.  PRD mode runs the tasks that are not skipped, in the order of
    the PRD, each with its own description, validation commands and
    iteration budget, and stops at the first task whose loop does not
    succeed: the tasks run are a prefix of the active tasks, every one of
    them but possibly the last succeeded, and a skipped task is never
    run.  The loop of each task is told exactly the tasks run before it as
    completed.  The exit code is 0 exactly when every active task was run
    and succeeded, and 1 otherwise; a PRD whose dependencies do not
    resolve runs nothing and exits with 1. *)
Theorem runPrd_sequential :
  let out := runPrd progressFile failureContextMaxChars gitCheckpoint delay
                    dryRun prd worldOf in
  let code := out.1.1 in
  let completed := out.1.2 in
  let runs := out.2 in
  (forall message, resolveTasks prd = inl message -> out = (1, [], []))
  /\ forall tasks, resolveTasks prd = inr tasks ->
       let active := List.filter (fun t => negb (rt_skip t)) tasks in
       (exists rest, active = List.map tr_task runs ++ rest)
       /\ Forall (fun r => rt_skip (tr_task r) = false) runs
       /\ (forall k r, runs !! k = Some r ->
             tr_run r = runTaskLoop (tr_options r) (worldOf k)
             /\ o_task (tr_options r) = rt_description (tr_task r)
             /\ o_validate (tr_options r) = rt_validate (tr_task r)
             /\ o_maxIterations (tr_options r) = rt_maxIterations (tr_task r)
             /\ o_completedTasks (tr_options r)
                = Some (List.map completedEntry (take k active))
             /\ (S k < length runs -> succeeded r = true)%nat)
       /\ (code = 0
           <-> List.map tr_task runs = active
               /\ Forall (fun r => succeeded r = true) runs)
       /\ (code <> 0 ->
             code = 1
             /\ exists r, last runs = Some r /\ succeeded r = false)
       /\ completed
          = List.map (fun r => completedEntry (tr_task r))
                     (List.filter succeeded runs).
Proof.
  cbv zeta. unfold runPrd.
  destruct (resolveTasks prd) as [message|tasks]; [by split|].
  split; [done|]. intros ? [= <-].
  set (active := List.filter (fun t => negb (rt_skip t)) tasks).
  pose proof (runActive_spec 0 [] active) as Hspec. cbv zeta in Hspec.
  destruct (runActive 0 [] active) as [[ok completed] runs].
  cbn [fst snd] in Hspec |- *.
  destruct Hspec as ((rest & Hpre) & Hruns & Hall & Hfail & Hcompleted).
  split; [by exists rest|]. split; [|split; [|split; [|split]]].
  - apply Forall_forall. intros r Hr.
    assert (Hin : tr_task r ∈ active).
    { rewrite Hpre. apply elem_of_app. left.
      apply list_elem_of_In, in_map, list_elem_of_In, Hr. }
    apply list_elem_of_In, filter_In in Hin as [_ Hskip].
    by apply negb_true_iff in Hskip.
  - intros k r Hr. destruct (Hruns k r Hr) as (Hopt & Hrun & Hsucc).
    split; [exact Hrun|]. rewrite Hopt. by repeat split.
  - rewrite <- Hall. by destruct ok.
  - destruct ok; [done|]. intros _. split; [done|]. by apply Hfail.
  - exact Hcompleted.
Qed.

End CliFacts.

Section CliExamples.

Import Prompt Runner Prd Cli.

(** The first task's loop succeeds at once; the second task's agent never
    finishes its work. *)
Definition shopWorlds (k : nat) : World :=
  if Nat.eqb k 0 then happyWorld else bumpyWorld.

Definition shopRun : Z * list CompletedTask * list TaskRun :=
  runPrd (js "ralph-progress.md") 4000 false 0 false shopPrd shopWorlds.

Lemma runPrd_sequential_witness :
  (exists tasks, resolveTasks shopPrd = inr tasks)
  /\ shopRun.1.1 = 1
  /\ List.map (fun r => rt_id (tr_task r)) shopRun.2
     = [js "cart"; js "checkout"]
  /\ shopRun.1.2 = [mkCompletedTask (js "cart") (js "Cart")]
  /\ exists r, last shopRun.2 = Some r /\ succeeded r = false.
Proof.
  assert (Hok : resolveTasks shopPrd
                = inr (imap (resolveTask shopPrd) (prd_tasks shopPrd)))
    by (vm_compute; reflexivity).
  assert (Hcode : shopRun.1.1 = 1) by (vm_compute; reflexivity).
  assert (Hids : List.map (fun r => rt_id (tr_task r)) shopRun.2
                 = [js "cart"; js "checkout"]) by (vm_compute; reflexivity).
  assert (Hdone : shopRun.1.2 = [mkCompletedTask (js "cart") (js "Cart")])
    by (vm_compute; reflexivity).
  pose proof (runPrd_sequential (js "ralph-progress.md") 4000 false 0 false
                shopPrd shopWorlds) as H.
  cbv zeta in H. destruct H as [_ H].
  destruct (H _ Hok) as (_ & _ & _ & _ & Hfail & _).
  split; [eexists; exact Hok|]. split; [exact Hcode|].
  split; [exact Hids|]. split; [exact Hdone|].
  apply Hfail. fold shopRun. rewrite Hcode. discriminate.
Defined.

End CliExamples.

(** ** Creating a thread *)

Section ThreadFacts.

Import Db Worktree Threads.

Context (env : Env) (resolvePath : jsstring -> jsstring)
        (showPath : Worktree.path -> jsstring).

(** X29.  A thread is stored only together with its worktree.  A body
    that is malformed or that the schema rejects is answered 400 and
    changes nothing.  When the worktree cannot be set up the answer is 400
    with the error's message, and no thread is stored and no event
    appended.  When it is set up, the answer is 201 with a thread stored
    under a fresh id: its repository and base repository are the root git
    reported, its worktree path and branch are those of the worktree, its
    agent is the requested one or claude, its validation commands the
    requested ones or "bun test"; the other threads are untouched, and
    exactly two events are appended for the thread, [thread.created] and
    then [thread.worktree.created] naming root, path and branch. *)
Theorem postThread_semantics (git : Worktree.World)
    (request : option CreateThreadRequest) (d : Database) :
  let out := postThread env resolvePath showPath git request d in
  (status out.1 <> 201 ->
     threads out.2 = threads d /\ runs out.2 = runs d
     /\ events out.2 = events d)
  /\ ((forall b, request = Some b -> createThreadSchemaAccepts b = false) ->
        out = (mkResponse 400 SchemaError, d))
  /\ (forall b, request = Some b -> createThreadSchemaAccepts b = true ->
        let threadId := uuid env (uuid_reads d) in
        let setup :=
          (createThreadWorktree git (resolvePath (tq_repoPath b)) threadId).1 in
        (forall message, setup = inl message ->
           out.1 = mkResponse 400 (ErrorBody message))
        /\ (forall ws, setup = inr ws -> threads d !! threadId = None ->
              let row :=
                mkThreadRow (tq_name b) (tq_task b)
                  (showPath (repoRoot ws)) (showPath (repoRoot ws))
                  (Some (showPath (worktreePath ws))) (Some (branchName ws))
                  (match tq_agent b with Some a => a | None => claude end)
                  (match tq_validate b with
                   | Some commands => commands
                   | None => [js "bun test"]
                   end)
                  (clock env (clock_reads d)) (clock env (clock_reads d)) in
              out.1 = mkResponse 201 (ThreadBody (mkThreadRecord threadId row))
              /\ threads out.2 = <[threadId := row]> (threads d)
              /\ runs out.2 = runs d
              /\ exists e1 e2,
                   events out.2 = events d ++ [e1; e2]
                   /\ ev_type e1 = thread_created
                   /\ ev_type e2 = thread_worktree_created
                   /\ ev_threadId e1 = threadId /\ ev_threadId e2 = threadId
                   /\ ev_runId e1 = None /\ ev_runId e2 = None
                   /\ ev_payload e1 = [(js "name", JStr (tq_name b))]
                   /\ ev_payload e2
                      = [ (js "repoRoot", JStr (showPath (repoRoot ws)));
                          (js "worktreePath",
                           JStr (showPath (worktreePath ws)));
                          (js "branchName", JStr (branchName ws)) ])).
Proof.
  cbv zeta. unfold postThread.
  destruct request as [b|].
  2: { split; [done|]. split; [done|]. by intros b [=]. }
  destruct (createThreadSchemaAccepts b) eqn:Hschema; cbn [negb].
  2: { split; [done|]. split; [done|]. intros ? [= <-] Hacc. congruence. }
  cbn [randomUUID].
  set (d1 := mkDatabase _ _ _ _ _ _ (S (uuid_reads d))).
  set (threadId := uuid env (uuid_reads d)).
  destruct (createThreadWorktree git (resolvePath (tq_repoPath b)) threadId).1
    as [message|ws] eqn:Hsetup.
  { split; [done|]. split; [intros H; by rewrite (H b eq_refl) in Hschema|].
    intros ? [= <-] _. rewrite Hsetup.
    split; [by intros ? [= <-]|done]. }
  unfold createThread. cbn [Date_now ci_id].
  set (d2 := mkDatabase _ _ _ _ _ (S (clock_reads d1)) _).
  change (threads d2) with (threads d).
  case_bool_decide as Hexists.
  { split; [done|]. split; [intros H; by rewrite (H b eq_refl) in Hschema|].
    intros ? [= <-] _. rewrite Hsetup. split; [done|].
    intros ? [= <-] Hfresh.
    rewrite Hfresh in Hexists. by destruct Hexists. }
  unfold getThread. cbn [threads with_threads]. rewrite lookup_insert_eq.
  cbn [fmap option_fmap option_map thread_id thread_row th_name
       th_baseRepoPath th_worktreePath th_branchName ci_name ci_task
       ci_repoPath ci_baseRepoPath ci_worktreePath ci_branchName ci_agent
       ci_validate app].
  split; [done|]. split; [intros H; by rewrite (H b eq_refl) in Hschema|].
  intros ? [= <-] _. rewrite Hsetup. split; [done|]. intros ? [= <-] _.
  split; [reflexivity|]. split; [reflexivity|]. split; [reflexivity|].
  cbn [fst snd]. eexists _, _.
  split; [rewrite !emitEvent_events, <- app_assoc; reflexivity|]. done.
Qed.

End ThreadFacts.

(** ** Failure feedback from one iteration to the next *)

Section FailureFeedback.

Import Validator Prompt Runner.

(** The [agent.spawned] event of iteration [i], carrying the prompt. *)
Definition spawned (i : Z) (prompt : jsstring) : Action :=
  Emit (mkLoopEvent loop_agent_spawned i (SpawnedPayload prompt)).

(** The [regression.reverted] event of iteration [i]. *)
Definition reverted (i : Z) : Action :=
  Emit (mkLoopEvent loop_regression_reverted i NoPayload).

(** An action that belongs to iteration [n] or a later one. *)
Definition fromIteration (n : Z) (a : Action) : Prop :=
  match a with Emit e => n <= e_iteration e | _ => True end.

Lemma join_includes (sep : jsstring) (l : list jsstring) (x : jsstring) :
  x ∈ l -> includes (join sep l) x = true.
Proof.
  intros Hx. apply includes_spec.
  induction l as [|p [|q l] IH].
  - by apply elem_of_nil in Hx.
  - apply list_elem_of_singleton in Hx as ->.
    exists [], []. by rewrite app_nil_r.
  - change (join sep (p :: q :: l)) with (p ++ sep ++ join sep (q :: l)).
    apply elem_of_cons in Hx as [->|Hx].
    + by exists [], (sep ++ join sep (q :: l)).
    + destruct (IH Hx) as (pre & post & ->).
      exists (p ++ sep ++ pre), post. by rewrite <- !app_assoc.
Qed.

Lemma promptFor_includes_warning (opts : RunTaskOptions) (w : World)
    (st : LoopState) (i : Z) :
  st_wasReverted st = true ->
  includes (promptFor opts w st i) revertWarning = true.
Proof.
  intros Hrev. unfold promptFor, buildPrompt. apply join_includes.
  rewrite promptSections_expected. unfold expectedOrder.
  cbn [wasReverted]. rewrite Hrev. rewrite !elem_of_app.
  right. right. right. right. left. by apply list_elem_of_singleton.
Qed.

Lemma promptFor_includes_failure (opts : RunTaskOptions) (w : World)
    (st : LoopState) (i : Z) :
  st_lastFailureOutput st <> [] ->
  includes (promptFor opts w st i)
           (failureSectionOf (st_lastFailureOutput st)) = true.
Proof.
  intros Hout. unfold promptFor, buildPrompt. apply join_includes.
  rewrite promptSections_expected. unfold expectedOrder.
  cbn [lastFailureOutput].
  destruct (st_lastFailureOutput st) as [|c out]; [done|].
  cbn [truthy]. rewrite !elem_of_app.
  right. right. right. right. right. left. by apply list_elem_of_singleton.
Qed.

Lemma spawnEvents_spawned (opts : RunTaskOptions) (w : World)
    (st : LoopState) (i j : Z) (prompt : jsstring) :
  spawned j prompt ∈ spawnEvents opts w st i ->
  j = i /\ prompt = promptFor opts w st i.
Proof.
  unfold spawnEvents, spawned. cbv zeta. rewrite !elem_of_cons.
  intros [H|[H|[H|[H|H]]]]; try discriminate H.
  - by injection H as -> ->.
  - by apply elem_of_nil in H.
Qed.

Lemma spawnEvents_reverted (opts : RunTaskOptions) (w : World)
    (st : LoopState) (i j : Z) :
  reverted j ∉ spawnEvents opts w st i.
Proof.
  unfold spawnEvents, reverted. cbv zeta. rewrite !elem_of_cons.
  intros [H|[H|[H|[H|H]]]]; try discriminate H.
  by apply elem_of_nil in H.
Qed.

Lemma spawnEvents_from (opts : RunTaskOptions) (w : World) (st : LoopState)
    (i n : Z) :
  n <= i -> Forall (fromIteration n) (spawnEvents opts w st i).
Proof. intros H. unfold spawnEvents. by repeat constructor. Qed.

(** What regression handling leaves for the next iteration. *)
Lemma regressionHandling_feedback (opts : RunTaskOptions) (st : LoopState)
    (i : Z) (validation : ValidationReport) :
  let out := regressionHandling opts st i validation in
  st_lastFailureOutput out.1
  = formatFailureContext validation (failureContextMaxChars opts)
  /\ (st_wasReverted out.1 = true <-> reverted i ∈ out.2)
  /\ (forall j prompt, spawned j prompt ∉ out.2)
  /\ (forall j, reverted j ∈ out.2 -> j = i).
Proof.
  cbv zeta. unfold regressionHandling, spawned, reverted.
  destruct (gitCheckpoint opts); [destruct (_ <? _)|]; cbn [fst snd].
  - split; [done|]. split; [|split].
    + split; [intros _|done]. apply elem_of_cons. right.
      by apply list_elem_of_singleton.
    + intros j prompt. rewrite !elem_of_cons.
      intros [H|[H|H]]; try discriminate H. by apply elem_of_nil in H.
    + intros j. rewrite !elem_of_cons.
      intros [H|[H|H]]; try discriminate H; [by injection H|].
      by apply elem_of_nil in H.
  - split; [done|]. split; [|split].
    + split; [done|]. rewrite !elem_of_cons.
      intros [H|[H|H]]; try discriminate H. by apply elem_of_nil in H.
    + intros j prompt. rewrite !elem_of_cons.
      intros [H|[H|H]]; try discriminate H. by apply elem_of_nil in H.
    + intros j. rewrite !elem_of_cons.
      intros [H|[H|H]]; try discriminate H. by apply elem_of_nil in H.
  - split; [done|]. split; [|split].
    + split; [done|]. intros H. by apply elem_of_nil in H.
    + intros j prompt H. by apply elem_of_nil in H.
    + intros j H. by apply elem_of_nil in H.
Qed.

Lemma regressionHandling_from (opts : RunTaskOptions) (st : LoopState)
    (i n : Z) (validation : ValidationReport) :
  n <= i ->
  Forall (fromIteration n) (regressionHandling opts st i validation).2.
Proof.
  intros H. unfold regressionHandling.
  destruct (gitCheckpoint opts); [|constructor].
  destruct (_ <? _); by repeat constructor.
Qed.

Lemma loopFrom_from (opts : RunTaskOptions) (w : World) (fuel : nat)
    (i : Z) (st : LoopState) (n : Z) :
  n <= i -> Forall (fromIteration n) (actions (loopFrom opts w fuel i st)).
Proof.
  revert i st. induction fuel as [|fuel IH]; intros i st Hn; [constructor|].
  destruct (iterationBody_cases opts w st i)
    as [[Ha H]|[(Ha & Hd & H)|[(Ha & Hd & H)|(Ha & Hd & H)]]].
  - rewrite (loopFrom_return _ _ _ _ _ _ _ H). constructor.
  - rewrite (loopFrom_return _ _ _ _ _ _ _ H). by repeat constructor.
  - rewrite (loopFrom_return _ _ _ _ _ _ _ H). cbn [actions].
    apply Forall_app. split; [by apply spawnEvents_from|].
    destruct (gitCheckpoint opts); by repeat constructor.
  - rewrite (loopFrom_next _ _ _ _ _ _ _ H). cbn [actions].
    rewrite !Forall_app. split; [split|apply IH; lia].
    + by apply spawnEvents_from.
    + by apply regressionHandling_from.
Qed.

Lemma loopFrom_reverted_later (opts : RunTaskOptions) (w : World)
    (fuel : nat) (i : Z) (st : LoopState) (j : Z) :
  reverted j ∈ actions (loopFrom opts w fuel i st) -> i <= j.
Proof.
  intros Hin.
  pose proof (loopFrom_from opts w fuel i st i ltac:(lia)) as Hall.
  rewrite Forall_forall in Hall. exact (Hall _ Hin).
Qed.


(** The prompt of every [agent.spawned] event of the loop standing at
    iteration [i]: built from the state the loop was entered with, for
    iteration [i] itself, and from what regression handling left at the
    end of the iteration before, for a later one. *)
Lemma loopFrom_prompts (opts : RunTaskOptions) (w : World) (fuel : nat)
    (i : Z) (st : LoopState) (j : Z) (prompt : jsstring) :
  spawned j prompt ∈ actions (loopFrom opts w fuel i st) ->
  (j = i /\ prompt = promptFor opts w st i)
  \/ (i < j
      /\ exists st',
           prompt = promptFor opts w st' j
           /\ st_lastFailureOutput st'
              = formatFailureContext (validationAt opts w (j - 1))
                  (failureContextMaxChars opts)
           /\ (st_wasReverted st' = true
               <-> reverted (j - 1) ∈ actions (loopFrom opts w fuel i st))).
Proof.
  revert i st. induction fuel as [|fuel IH]; intros i st.
  { intros H. by apply elem_of_nil in H. }
  destruct (iterationBody_cases opts w st i)
    as [[Ha H]|[(Ha & Hd & H)|[(Ha & Hd & H)|(Ha & Hd & H)]]].
  - rewrite (loopFrom_return _ _ _ _ _ _ _ H). cbn [actions].
    intros Hin. by apply elem_of_nil in Hin.
  - rewrite (loopFrom_return _ _ _ _ _ _ _ H). cbn [actions].
    unfold spawned. rewrite elem_of_cons.
    intros [Hin|Hin]; [discriminate Hin|by apply elem_of_nil in Hin].
  - rewrite (loopFrom_return _ _ _ _ _ _ _ H). cbn [actions].
    rewrite elem_of_app. intros [Hin|Hin].
    + left. by apply spawnEvents_spawned in Hin.
    + destruct (gitCheckpoint opts); [|by apply elem_of_nil in Hin].
      apply list_elem_of_singleton in Hin. discriminate Hin.
  - rewrite (loopFrom_next _ _ _ _ _ _ _ H). cbn [actions].
    destruct (regressionHandling_feedback opts st i (validationAt opts w i))
      as (Hout & Hrev & Hnospawn & Hat).
    cbv zeta in Hout, Hrev, Hnospawn, Hat.
    set (st1 := (regressionHandling opts st i (validationAt opts w i)).1)
      in *.
    set (acts := (regressionHandling opts st i (validationAt opts w i)).2)
      in *.
    rewrite !elem_of_app. intros [[Hin|Hin]|Hin].
    + left. by apply spawnEvents_spawned in Hin.
    + by apply Hnospawn in Hin.
    + right. destruct (IH _ _ Hin) as [[-> ->]|(Hlt & st' & -> & Hfail & Hw)].
      * split; [lia|]. exists st1. split; [done|].
        replace (i + 1 - 1) with i by lia. split; [done|].
        rewrite Hrev, !elem_of_app. split; [tauto|].
        intros [[Hin'|Hin']|Hin']; [|done|].
        -- by apply spawnEvents_reverted in Hin'.
        -- apply loopFrom_reverted_later in Hin'. lia.
      * split; [lia|]. exists st'. split; [done|]. split; [done|].
        rewrite Hw, !elem_of_app. split; [tauto|].
        intros [[Hin'|Hin']|Hin']; [| |done].
        -- by apply spawnEvents_reverted in Hin'.
        -- apply Hat in Hin'. lia.
Qed.

(** X30.  Validation feedback reaches the next prompt.  Every
    [agent.spawned] event of a run carries the prompt built for its
    iteration [j].  The first prompt is built from an empty failure text
    and no revert.  A later prompt is built from the failure context of
    the validation of iteration [j - 1], and is marked as following a
    revert exactly when that iteration emitted [regression.reverted]: so
    when some command failed then, the prompt contains the block of the
    previous validation results with that (non-empty) text, and after a
    revert it contains the revert warning. *)
Theorem runTaskLoop_failure_feedback (opts : RunTaskOptions) (w : World)
    (j : Z) (prompt : jsstring) :
  spawned j prompt ∈ actions (runTaskLoop opts w) ->
  let previous := validationAt opts w (j - 1) in
  let failure := formatFailureContext previous (failureContextMaxChars opts) in
  exists st,
    prompt = promptFor opts w st j
    /\ 1 <= j
    /\ (j = 1 -> st_lastFailureOutput st = [] /\ st_wasReverted st = false)
    /\ (1 < j ->
          st_lastFailureOutput st = failure
          /\ (st_wasReverted st = true
              <-> reverted (j - 1) ∈ actions (runTaskLoop opts w)))
    /\ (1 < j -> allPassed previous = false ->
          failure <> []
          /\ includes prompt (failureSectionOf failure) = true)
    /\ (1 < j -> reverted (j - 1) ∈ actions (runTaskLoop opts w) ->
          includes prompt revertWarning = true).
Proof.
  intros Hin previous failure. subst previous failure.
  unfold runTaskLoop in *.
  destruct (loopFrom_prompts _ _ _ _ _ _ _ Hin)
    as [[-> ->]|(Hlt & st & -> & Hfail & Hw)].
  - exists (initialState opts w). split; [done|]. split; [lia|].
    split; [done|]. repeat split; intros; lia.
  - exists st. split; [done|]. split; [lia|]. split; [lia|].
    split; [done|]. split.
    + intros _ Hpass.
      assert (Hne : formatFailureContext (validationAt opts w (j - 1))
                      (failureContextMaxChars opts) <> [])
        by (by apply formatFailureContext_nonempty).
      split; [done|]. rewrite <- Hfail.
      apply promptFor_includes_failure. by rewrite Hfail.
    + intros _ Hrev. apply promptFor_includes_warning. by apply Hw.
Qed.

End FailureFeedback.

Section FailureFeedbackExamples.

Import Validator Prompt Runner.

(** The second prompt of the bumpy run: its first iteration fails both
    commands and is reverted. *)
Lemma runTaskLoop_failure_feedback_witness :
  let failure :=
    formatFailureContext (validationAt bumpyOptions bumpyWorld 1) 4000 in
  let st1 := {| bestScore := 1; st_lastFailureOutput := failure;
                st_wasReverted := true |} in
  let prompt := promptFor bumpyOptions bumpyWorld st1 2 in
  spawned 2 prompt ∈ actions (runTaskLoop bumpyOptions bumpyWorld)
  /\ includes prompt (failureSectionOf failure) = true
  /\ includes prompt revertWarning = true.
Proof.
  intros failure st1 prompt.
  assert (Hspawn : actions (runTaskLoop bumpyOptions bumpyWorld) !! 7%nat
                   = Some (spawned 2 prompt)) by (vm_compute; reflexivity).
  assert (Hrevert : actions (runTaskLoop bumpyOptions bumpyWorld) !! 5%nat
                    = Some (reverted 1)) by (vm_compute; reflexivity).
  assert (Hpass : allPassed (validationAt bumpyOptions bumpyWorld (2 - 1))
                  = false) by (vm_compute; reflexivity).
  assert (Hlt : 1 < 2) by lia.
  pose proof (list_elem_of_lookup_2 _ _ _ Hspawn) as Hin.
  pose proof (list_elem_of_lookup_2 _ _ _ Hrevert) as Hrev.
  pose proof (runTaskLoop_failure_feedback bumpyOptions bumpyWorld 2 prompt
                Hin) as H.
  cbv zeta in H. destruct H as (st & _ & _ & _ & _ & Hfail & Hwarn).
  split; [exact Hin|].
  split; [exact (proj2 (Hfail Hlt Hpass))|exact (Hwarn Hlt Hrev)].
Defined.

End FailureFeedbackExamples.
